(** * Minecraft crossplay server manager: a shallow embedding of
      [MinecraftCrossplayServer]

    The development follows the manager class, the one with seed-change
    detection and the tunnel, method by method: the log classifier, the log
    buffer, the tunnel supervisor, the world backup and the server
    supervisor with the routes that drive it.

    How the program is read:
    - JavaScript strings are byte strings, the UTF-8 encoding of the source
      literals.  The character classes of the regular expressions are the
      ASCII ones; for [\w], [\d] and [[a-zA-Z0-9]] that is what they denote.
      For [\s], [.] and [trim] it is not: JavaScript also counts U+00A0,
      U+FEFF, U+2028, U+2029 and the other Unicode spaces.  On ASCII text
      ([Js.is_ascii]) the definitions here and JavaScript agree; what is
      proved of the values they give is proved for ASCII text.
    - A configuration document has its [server] block, and a block that is
      there has the settings the manager reads, of the types of the default
      document; the other blocks may be missing.
    - A method is a computation over the state of the manager and of its
      environment (clock, server directory, configuration file, child
      processes); what it does to the outside is recorded as a list of
      events, in order.  Console output is not recorded.
    - The listeners registered on a child process are the functions named
      [on...]; the environment calls them.  The clock is read from the
      state and does not advance inside a call.
    - The only recursive method, [copyDirectorySync], takes fuel. *)

From Stdlib Require Import String Ascii List ZArith Lia Bool Arith.
From Stdlib Require Import DecimalString.
Import ListNotations.
Open Scope string_scope.

Set Warnings "-register-all".

(* ================================================================== *)
(** * Definitions *)
(* ================================================================== *)

(** ** The fragment of the JavaScript string library the manager uses *)

Module Js.

(** The double-quote character, as a one-character string. *)
Definition dquote : string := String "034"%char EmptyString.

(** [s.includes(sub)] *)
Fixpoint includes (s sub : string) : bool :=
  if prefix sub s then true
  else match s with
       | EmptyString => false
       | String _ s' => includes s' sub
       end.

Definition in_range (lo hi : nat) (c : ascii) : bool :=
  (lo <=? nat_of_ascii c)%nat && (nat_of_ascii c <=? hi)%nat.

(** [\d] *)
Definition is_digit (c : ascii) : bool := in_range 48 57 c.

(** [\w], that is [A-Za-z0-9_] *)
Definition is_word (c : ascii) : bool :=
  in_range 65 90 c || in_range 97 122 c || is_digit c
  || (nat_of_ascii c =? 95)%nat.

(** The line terminators [.] refuses, among the ASCII characters: LF and
    CR.  (Beyond ASCII, U+2028 and U+2029 are refused too.) *)
Definition is_line_terminator (c : ascii) : bool :=
  (nat_of_ascii c =? 10)%nat || (nat_of_ascii c =? 13)%nat.

(** [\s] among the ASCII characters: TAB, LF, VT, FF, CR and space.
    (Beyond ASCII, [\s] and [trim] also take U+00A0, U+1680, U+2000 to
    U+200A, U+2028, U+2029, U+202F, U+205F, U+3000 and U+FEFF.) *)
Definition is_space (c : ascii) : bool :=
  in_range 9 13 c || (nat_of_ascii c =? 32)%nat.

Fixpoint all_chars (p : ascii -> bool) (s : string) : bool :=
  match s with
  | EmptyString => true
  | String c s' => p c && all_chars p s'
  end.

(** A text of ASCII characters only: every byte is below 128.  On such a
    text [is_space], [is_line_terminator] and [trim] are what JavaScript
    computes. *)
Definition is_ascii (s : string) : bool :=
  all_chars (fun c => (nat_of_ascii c <? 128)%nat) s.

Fixpoint trimStart (s : string) : string :=
  match s with
  | String c s' => if is_space c then trimStart s' else s
  | EmptyString => EmptyString
  end.

(** Drops the trailing white space: the result is empty when nothing but
    white space follows. *)
Fixpoint trimEnd (s : string) : string :=
  match s with
  | EmptyString => EmptyString
  | String c s' =>
      match trimEnd s' with
      | EmptyString => if is_space c then EmptyString else String c EmptyString
      | r => String c r
      end
  end.

(** [s.trim()], on ASCII text. *)
Definition trim (s : string) : string := trimEnd (trimStart s).

(** [s.split('\n')]: always at least one piece. *)
Fixpoint split_lines (s : string) : list string :=
  match s with
  | EmptyString => [EmptyString]
  | String c s' =>
      if (nat_of_ascii c =? 10)%nat then EmptyString :: split_lines s'
      else match split_lines s' with
           | l :: ls => String c l :: ls
           | [] => [String c EmptyString]
           end
  end.

(** A value interpolated in a template literal: [undefined] prints as the
    nine letters of its name. *)
Definition template (v : option string) : string :=
  match v with
  | Some s => s
  | None => "undefined"
  end.

(** A number interpolated in a template literal. *)
Definition template_Z (z : Z) : string :=
  NilZero.string_of_int (Z.to_int z).

(** [v || d] on a string: the empty string is falsy. *)
Definition or_default (v d : string) : string :=
  if (v =? "")%string then d else v.

End Js.

(** ** Regular expressions of the log classifier

    [/(\w+) joined the game/] and [/(\w+) left the game/] have the shape
    [(\w+)lit]: a greedy, backtracking run of word characters followed by a
    literal.  [match_at] is a match that starts at the first character,
    [exec] the search for the leftmost start; both return capture group 1. *)

Module WordThenLit.

Fixpoint match_at (lit s : string) : option string :=
  match s with
  | EmptyString => None
  | String c s' =>
      if Js.is_word c then
        match match_at lit s' with
        | Some w => Some (String c w)
        | None => if prefix lit s' then Some (String c EmptyString) else None
        end
      else None
  end.

Fixpoint exec (lit s : string) : option string :=
  match match_at lit s with
  | Some w => Some w
  | None =>
      match s with
      | EmptyString => None
      | String _ s' => exec lit s'
      end
  end.

End WordThenLit.

(** ** Log categories and classified lines *)

Inductive LogType : Type := Info | Warn | Error | Success | Player | World.

Definition LogType_eqb (a b : LogType) : bool :=
  match a, b with
  | Info, Info | Warn, Warn | Error, Error
  | Success, Success | Player, Player | World, World => true
  | _, _ => false
  end.

Module ParsedLog.
Record t : Type := mk { type : LogType; message : string; original : string }.
End ParsedLog.

(** [parseMinecraftLog(message)] *)
Definition parseMinecraftLog (message : string) : ParsedLog.t :=
  if Js.includes message "joined the game" then
    let playerName := WordThenLit.exec " joined the game" message in
    ParsedLog.mk Player ("🟢 " ++ Js.template playerName ++ " joined the game") message
  else if Js.includes message "left the game" then
    let playerName := WordThenLit.exec " left the game" message in
    ParsedLog.mk Player ("🔴 " ++ Js.template playerName ++ " left the game") message
  else if Js.includes message "<" && Js.includes message ">" then
    ParsedLog.mk Player ("💬 " ++ message) message
  else if Js.includes message "Starting minecraft server version" then
    ParsedLog.mk Success ("🚀 " ++ message) message
  else if Js.includes message "Done ("
          && Js.includes message ("For help, type " ++ Js.dquote ++ "help" ++ Js.dquote) then
    ParsedLog.mk Success ("✅ Server startup complete! " ++ message) message
  else if Js.includes message "Preparing spawn area"
          || Js.includes message "Preparing level" then
    ParsedLog.mk World ("🌍 " ++ message) message
  else if Js.includes message "Time elapsed:" then
    ParsedLog.mk World ("⏱️ " ++ message) message
  else if Js.includes message "Loading" && Js.includes message "plugin" then
    ParsedLog.mk Info ("🔌 " ++ message) message
  else if Js.includes message "Enabling" && Js.includes message "plugin" then
    ParsedLog.mk Success ("✅ " ++ message) message
  else if Js.includes message "Geyser" && Js.includes message "Started Geyser" then
    ParsedLog.mk Success "🔗 Crossplay bridge (Geyser) is ONLINE!" message
  else if Js.includes message "ViaVersion" && Js.includes message "enabled" then
    ParsedLog.mk Success "🔄 Multi-version support (ViaVersion) is ONLINE!" message
  else if Js.includes message "ERROR" || Js.includes message "SEVERE" then
    ParsedLog.mk Error ("❌ " ++ message) message
  else if Js.includes message "WARN" then
    ParsedLog.mk Warn ("⚠️ " ++ message) message
  else
    ParsedLog.mk Info message message.

(** *** The classifier as an ordered rule table

    The specification describes the classifier as an ordered list of
    (predicate, category, formatter) rules of which the first that matches
    wins, with a default when none does.  [classify_rules] is that table, rule
    by rule in the order of the specification; [first_match] is its reading. *)

Module RuleTable.

Record rule : Type := mk_rule {
  applies : string -> bool;
  category : LogType;
  decorate : string -> string
}.

Definition help_prompt : string :=
  "For help, type " ++ Js.dquote ++ "help" ++ Js.dquote.

Definition classify_rules : list rule :=
  [ mk_rule (fun m => Js.includes m "joined the game") Player
      (fun m => "🟢 " ++ Js.template (WordThenLit.exec " joined the game" m)
                  ++ " joined the game");
    mk_rule (fun m => Js.includes m "left the game") Player
      (fun m => "🔴 " ++ Js.template (WordThenLit.exec " left the game" m)
                  ++ " left the game");
    mk_rule (fun m => Js.includes m "<" && Js.includes m ">") Player
      (fun m => "💬 " ++ m);
    mk_rule (fun m => Js.includes m "Starting minecraft server version") Success
      (fun m => "🚀 " ++ m);
    mk_rule (fun m => Js.includes m "Done (" && Js.includes m help_prompt) Success
      (fun m => "✅ Server startup complete! " ++ m);
    mk_rule (fun m => Js.includes m "Preparing spawn area"
                      || Js.includes m "Preparing level") World
      (fun m => "🌍 " ++ m);
    mk_rule (fun m => Js.includes m "Time elapsed:") World
      (fun m => "⏱️ " ++ m);
    mk_rule (fun m => Js.includes m "Loading" && Js.includes m "plugin") Info
      (fun m => "🔌 " ++ m);
    mk_rule (fun m => Js.includes m "Enabling" && Js.includes m "plugin") Success
      (fun m => "✅ " ++ m);
    mk_rule (fun m => Js.includes m "Geyser" && Js.includes m "Started Geyser") Success
      (fun _ => "🔗 Crossplay bridge (Geyser) is ONLINE!");
    mk_rule (fun m => Js.includes m "ViaVersion" && Js.includes m "enabled") Success
      (fun _ => "🔄 Multi-version support (ViaVersion) is ONLINE!");
    mk_rule (fun m => Js.includes m "ERROR" || Js.includes m "SEVERE") Error
      (fun m => "❌ " ++ m);
    mk_rule (fun m => Js.includes m "WARN") Warn
      (fun m => "⚠️ " ++ m) ].

Fixpoint first_match (rs : list rule) (m : string) : LogType * string :=
  match rs with
  | [] => (Info, m)
  | r :: rs' =>
      if applies r m then (category r, decorate r m) else first_match rs' m
  end.

Definition classify (m : string) : LogType * string :=
  first_match classify_rules m.

End RuleTable.

(** ** Regular expressions of the tunnel supervisor *)

Module Re.

(** The longest prefix whose characters satisfy [p], and what follows it. *)
Fixpoint span (p : ascii -> bool) (s : string) : string * string :=
  match s with
  | EmptyString => (EmptyString, EmptyString)
  | String c s' =>
      if p c then let (w, r) := span p s' in (String c w, r)
      else (EmptyString, s)
  end.

(** What follows the literal [lit] at the start of [s], if [s] starts
    with it. *)
Fixpoint strip_prefix (lit s : string) : option string :=
  match lit with
  | EmptyString => Some s
  | String a lit' =>
      match s with
      | String b s' => if Ascii.eqb a b then strip_prefix lit' s' else None
      | EmptyString => None
      end
  end.

Definition is_empty (s : string) : bool :=
  match s with EmptyString => true | _ => false end.

(** [\s+=>\s+127\.0\.0\.1:(\d+)] matched at the start of [s]; the result is
    the port digits.  Each greedy run is followed by a character outside
    its class, so the only run that can match is the longest one. *)
Definition arrow_local_port (s : string) : option string :=
  let (ws1, r1) := span Js.is_space s in
  if is_empty ws1 then None else
  match strip_prefix "=>" r1 with
  | None => None
  | Some r2 =>
      let (ws2, r3) := span Js.is_space r2 in
      if is_empty ws2 then None else
      match strip_prefix "127.0.0.1:" r3 with
      | None => None
      | Some r4 =>
          let (ds, _) := span Js.is_digit r4 in
          if is_empty ds then None else Some ds
      end
  end.

(** The lazy group [(.+?)] of the tunnel pattern, grown one character at a
    time ([acc] is what the group holds so far) until the rest of the
    pattern matches; [.] refuses a line terminator. *)
Fixpoint tunnel_from (acc s : string) : option (string * string) :=
  match s with
  | EmptyString => None
  | String c s' =>
      if Js.is_line_terminator c then None
      else
        let acc' := acc ++ String c EmptyString in
        match arrow_local_port s' with
        | Some port => Some (acc', port)
        | None => tunnel_from acc' s'
        end
  end.

(** [line.match(/^(.+?)\s+=>\s+127\.0\.0\.1:(\d+)/)]: groups 1 and 2. *)
Definition tunnelMatch (line : string) : option (string * string) :=
  tunnel_from EmptyString line.

Definition is_alnum (c : ascii) : bool :=
  Js.in_range 97 122 c || Js.in_range 65 90 c || Js.is_digit c.

Definition claim_prefix : string := "https://playit.gg/claim/".

Definition setupUrl_at (s : string) : option string :=
  match strip_prefix ("Visit link to setup " ++ claim_prefix) s with
  | None => None
  | Some r =>
      let (tok, _) := span is_alnum r in
      if is_empty tok then None else Some (claim_prefix ++ tok)
  end.

(** [output.match(/Visit link to setup (https:\/\/playit\.gg\/claim\/[a-zA-Z0-9]+)/)]:
    group 1 of the leftmost match. *)
Fixpoint setupUrlMatch (s : string) : option string :=
  match setupUrl_at s with
  | Some u => Some u
  | None =>
      match s with
      | EmptyString => None
      | String _ s' => setupUrlMatch s'
      end
  end.

End Re.

(** ** The file system under the server directory

    The world and its backups live in [serverPath]; paths are lists of names
    relative to it.  A file can be unreadable and a directory unwritable
    (no entry can be created in it or removed from it): these are the ways in
    which the calls of the backup can fail in the model. *)

Module Fs.

Inductive node : Type :=
| File (data : string) (readable : bool)
| Dir (writable : bool) (entries : list (string * node)).

Definition path : Type := list string.

Inductive Errno : Type := ENOENT | EACCES | EEXIST | ENOTDIR | EISDIR.

(** [error.message] *)
Definition message (e : Errno) : string :=
  match e with
  | ENOENT => "ENOENT: no such file or directory"
  | EACCES => "EACCES: permission denied"
  | EEXIST => "EEXIST: file already exists"
  | ENOTDIR => "ENOTDIR: not a directory"
  | EISDIR => "EISDIR: illegal operation on a directory"
  end.

Definition isDirectory (n : node) : bool :=
  match n with Dir _ _ => true | File _ _ => false end.

Fixpoint find_entry (name : string) (es : list (string * node)) : option node :=
  match es with
  | [] => None
  | (k, c) :: es' => if (k =? name)%string then Some c else find_entry name es'
  end.

Fixpoint set_entry (name : string) (c : node) (es : list (string * node))
  : list (string * node) :=
  match es with
  | [] => [(name, c)]
  | (k, d) :: es' =>
      if (k =? name)%string then (k, c) :: es' else (k, d) :: set_entry name c es'
  end.

Fixpoint remove_entry (name : string) (es : list (string * node))
  : list (string * node) :=
  match es with
  | [] => []
  | (k, d) :: es' =>
      if (k =? name)%string then es' else (k, d) :: remove_entry name es'
  end.

Fixpoint lookup (p : path) (n : node) : option node :=
  match p with
  | [] => Some n
  | name :: p' =>
      match n with
      | Dir _ es =>
          match find_entry name es with
          | Some c => lookup p' c
          | None => None
          end
      | File _ _ => None
      end
  end.

(** [fs.existsSync(p)] *)
Definition existsSync (p : path) (root : node) : bool :=
  match lookup p root with Some _ => true | None => false end.

(** [fs.statSync(p)] *)
Definition statSync (p : path) (root : node) : Errno + node :=
  match lookup p root with Some n => inr n | None => inl ENOENT end.

(** [fs.readdirSync(p)] *)
Definition readdirSync (p : path) (root : node) : Errno + list string :=
  match lookup p root with
  | Some (Dir _ es) => inr (map fst es)
  | Some (File _ _) => inl ENOTDIR
  | None => inl ENOENT
  end.

(** [fs.mkdirSync(p, { recursive: true })]: the directories that are
    missing along [p] are created, those that exist are kept. *)
Fixpoint mkdirSync (p : path) (n : node) : Errno + node :=
  match p with
  | [] =>
      match n with
      | Dir _ _ => inr n
      | File _ _ => inl EEXIST
      end
  | name :: p' =>
      match n with
      | File _ _ => inl ENOTDIR
      | Dir w es =>
          match find_entry name es with
          | Some c =>
              match mkdirSync p' c with
              | inr c' => inr (Dir w (set_entry name c' es))
              | inl e => inl e
              end
          | None =>
              if w then
                match mkdirSync p' (Dir true []) with
                | inr c' => inr (Dir w (set_entry name c' es))
                | inl e => inl e
                end
              else inl EACCES
          end
      end
  end.

Definition readFile (p : path) (root : node) : Errno + string :=
  match lookup p root with
  | Some (File data true) => inr data
  | Some (File _ false) => inl EACCES
  | Some (Dir _ _) => inl EISDIR
  | None => inl ENOENT
  end.

Fixpoint writeFile (p : path) (data : string) (n : node) : Errno + node :=
  match p with
  | [] =>
      match n with
      | File _ r => inr (File data r)
      | Dir _ _ => inl EISDIR
      end
  | name :: p' =>
      match n with
      | File _ _ => inl ENOTDIR
      | Dir w es =>
          match find_entry name es with
          | Some c =>
              match writeFile p' data c with
              | inr c' => inr (Dir w (set_entry name c' es))
              | inl e => inl e
              end
          | None =>
              match p' with
              | [] => if w then inr (Dir w (set_entry name (File data true) es))
                      else inl EACCES
              | _ :: _ => inl ENOENT
              end
          end
      end
  end.

(** [fs.copyFileSync(src, dest)] *)
Definition copyFileSync (src dest : path) (root : node) : Errno + node :=
  match readFile src root with
  | inr data => writeFile dest data root
  | inl e => inl e
  end.

(** Empties a node, entry after entry in the order of the listing, and
    stops at the first entry that cannot be removed; what was removed
    before stays removed.  The flag tells whether the node is now empty. *)
Fixpoint remove_contents (n : node) : node * bool :=
  match n with
  | File _ _ => (n, true)
  | Dir w es =>
      let fix go (es : list (string * node)) : list (string * node) * bool :=
        match es with
        | [] => ([], true)
        | (name, c) :: rest =>
            let (c', emptied) := remove_contents c in
            if emptied && w then go rest else ((name, c') :: rest, false)
        end in
      let (es', emptied) := go es in (Dir w es', emptied)
  end.

(** [fs.rmSync(p, { recursive: true, force: true })]: a missing path is
    not an error; any other failure is, and it leaves the tree as far
    removed as the removal got.  The result is the new tree together with
    the error, if any.  The server directory itself, whose parent is not
    part of the tree, is not removed. *)
Fixpoint rmSync (p : path) (n : node) : node * option Errno :=
  match p with
  | [] => (n, Some EACCES)
  | name :: p' =>
      match n with
      | File _ _ => (n, None)
      | Dir w es =>
          match find_entry name es with
          | None => (n, None)
          | Some c =>
              match p' with
              | [] =>
                  let (c', emptied) := remove_contents c in
                  if emptied && w then (Dir w (remove_entry name es), None)
                  else (Dir w (set_entry name c' es), Some EACCES)
              | _ :: _ =>
                  let (c', r) := rmSync p' c in
                  (Dir w (set_entry name c' es), r)
              end
          end
      end
  end.

End Fs.

(** ** Configuration document

    Of the server settings, the ones the supervisor itself reads are kept;
    the others are only rendered into [server.properties].

    The document is what [JSON.parse] gave for the file.  Its [performance],
    [playit] and [world] blocks may be missing, [None] here: no method
    checks for the first two before it reads them.  The [server] block is
    always there: the constructor reads it, unguarded, in
    [setupServerProperties], so without it no manager comes to exist.  (The
    route that replaces the configuration of a running manager,
    [POST /config], is not part of this development.) *)

Module Config.

Record Server : Type := mkServer {
  seed : string;
  maxPlayers : Z;
  gamemode : string;
  difficulty : string;
  levelName : string
}.

Record Performance : Type := mkPerformance {
  maxMemory : string;
  minMemory : string
}.

Record Playit : Type := mkPlayit { autoStart : bool }.

(** The world-tracking block; a property that was never assigned is
    [undefined], here [None]. *)
Record WorldBlock : Type := mkWorld {
  currentSeed : option string;
  lastUsedSeed : option string;
  worldGenerated : option bool
}.

Record t : Type := mk {
  server : Server;
  performance : option Performance;
  playit : option Playit;
  world : option WorldBlock
}.

Definition empty_block : WorldBlock := mkWorld None None None.

Definition set_world (w : option WorldBlock) (c : t) : t :=
  mk (server c) (performance c) (playit c) w.

End Config.

(** ** The manager object and its environment *)

Inductive Status : Type := offline | starting | online | stopping.

Definition Status_eqb (a b : Status) : bool :=
  match a, b with
  | offline, offline | starting, starting
  | online, online | stopping, stopping => true
  | _, _ => false
  end.

(** Handle of a child process. *)
Definition Handle : Type := nat.

Module LogEntry.
Record t : Type := mk {
  timestamp : string;
  message : string;
  type : LogType;
  time : string
}.
End LogEntry.

(** A reading of the clock: [Date.now()], [new Date().toISOString()] and
    [new Date().toLocaleTimeString()]. *)
Record Clock : Type := mkClock {
  millis : Z;
  iso : string;
  localTime : string
}.

Record Addresses : Type := mkAddresses {
  java : option string;
  bedrock : option string
}.

(** What the manager does to the outside, in the order it does it. *)
Inductive Event : Type :=
| FsExists (p : Fs.path)
| FsMkdir (p : Fs.path)
| FsStat (p : Fs.path)
| FsReaddir (p : Fs.path)
| FsCopyFile (src dest : Fs.path)
| FsRm (p : Fs.path)
| FsWriteConfig (c : Config.t)
| Spawn (h : Handle) (command : string) (args : list string)
| Kill (h : Handle) (signal : string)
| StdinWrite (h : Handle) (data : string)
| ExecSync (command : string)
| Emit (e : LogEntry.t).

Record State : Type := mkState {
  (* the fields of the manager *)
  minecraftProcess : option Handle;
  playitProcess : option Handle;
  localIP : string;
  publicIP : option string;
  serverStatus : Status;
  startTime : option Z;
  serverReady : bool;
  logs : list LogEntry.t;
  config : Config.t;
  playitInstalled : bool;
  playitPath : string;
  playitAddresses : Addresses;
  lastPlayitOutput : string;
  playitTunnelsDetected : bool;
  playitSetupUrl : option string;
  (* the environment *)
  clock : Clock;
  disk : Fs.node;
  configFile : option Config.t;
  configFileWritable : bool;
  alive : list Handle;
  nextHandle : Handle;
  events : list Event
}.

(** Constants of the constructor that no method assigns. *)
Definition serverPath : string := "./minecraft-server".
Definition jarFile : string := "paper-server.jar".
Definition javaPort : Z := 25565.
Definition bedrockPort : Z := 19132.
Definition maxLogs : nat := 1000.

Definition set_minecraftProcess (v : option Handle) (s : State) : State :=
  let 'mkState _ b c d e f g h i j k l m n o p q r t u w x := s in
  mkState v b c d e f g h i j k l m n o p q r t u w x.

Definition set_playitProcess (v : option Handle) (s : State) : State :=
  let 'mkState a _ c d e f g h i j k l m n o p q r t u w x := s in
  mkState a v c d e f g h i j k l m n o p q r t u w x.

Definition set_serverStatus (v : Status) (s : State) : State :=
  let 'mkState a b c d _ f g h i j k l m n o p q r t u w x := s in
  mkState a b c d v f g h i j k l m n o p q r t u w x.

Definition set_startTime (v : option Z) (s : State) : State :=
  let 'mkState a b c d e _ g h i j k l m n o p q r t u w x := s in
  mkState a b c d e v g h i j k l m n o p q r t u w x.

Definition set_serverReady (v : bool) (s : State) : State :=
  let 'mkState a b c d e f _ h i j k l m n o p q r t u w x := s in
  mkState a b c d e f v h i j k l m n o p q r t u w x.

Definition set_logs (v : list LogEntry.t) (s : State) : State :=
  let 'mkState a b c d e f g _ i j k l m n o p q r t u w x := s in
  mkState a b c d e f g v i j k l m n o p q r t u w x.

Definition set_config (v : Config.t) (s : State) : State :=
  let 'mkState a b c d e f g h _ j k l m n o p q r t u w x := s in
  mkState a b c d e f g h v j k l m n o p q r t u w x.

Definition set_playitAddresses (v : Addresses) (s : State) : State :=
  let 'mkState a b c d e f g h i j k _ m n o p q r t u w x := s in
  mkState a b c d e f g h i j k v m n o p q r t u w x.

Definition set_lastPlayitOutput (v : string) (s : State) : State :=
  let 'mkState a b c d e f g h i j k l _ n o p q r t u w x := s in
  mkState a b c d e f g h i j k l v n o p q r t u w x.

Definition set_playitTunnelsDetected (v : bool) (s : State) : State :=
  let 'mkState a b c d e f g h i j k l m _ o p q r t u w x := s in
  mkState a b c d e f g h i j k l m v o p q r t u w x.

Definition set_playitSetupUrl (v : option string) (s : State) : State :=
  let 'mkState a b c d e f g h i j k l m n _ p q r t u w x := s in
  mkState a b c d e f g h i j k l m n v p q r t u w x.

Definition set_playitInstalled (v : bool) (s : State) : State :=
  let 'mkState a b c d e f g h i _ k l m n o p q r t u w x := s in
  mkState a b c d e f g h i v k l m n o p q r t u w x.

Definition set_clock (v : Clock) (s : State) : State :=
  let 'mkState a b c d e f g h i j k l m n o _ q r t u w x := s in
  mkState a b c d e f g h i j k l m n o v q r t u w x.

Definition set_disk (v : Fs.node) (s : State) : State :=
  let 'mkState a b c d e f g h i j k l m n o p _ r t u w x := s in
  mkState a b c d e f g h i j k l m n o p v r t u w x.

Definition set_configFile (v : option Config.t) (s : State) : State :=
  let 'mkState a b c d e f g h i j k l m n o p q _ t u w x := s in
  mkState a b c d e f g h i j k l m n o p q v t u w x.

Definition set_alive (v : list Handle) (s : State) : State :=
  let 'mkState a b c d e f g h i j k l m n o p q r t _ w x := s in
  mkState a b c d e f g h i j k l m n o p q r t v w x.

Definition set_nextHandle (v : Handle) (s : State) : State :=
  let 'mkState a b c d e f g h i j k l m n o p q r t u _ x := s in
  mkState a b c d e f g h i j k l m n o p q r t u v x.

Definition set_events (v : list Event) (s : State) : State :=
  let 'mkState a b c d e f g h i j k l m n o p q r t u w _ := s in
  mkState a b c d e f g h i j k l m n o p q r t u w v.

(** ** Computations of the manager: state, exceptions, and the fuel of the
    one recursive method *)

Inductive Exn : Type :=
| FsError (e : Fs.Errno)
| TypeError (message : string)
| CommandFailed (command : string).

Definition Exn_message (e : Exn) : string :=
  match e with
  | FsError e => Fs.message e
  | TypeError message => message
  | CommandFailed command => "Command failed: " ++ command
  end.

Inductive Result (A : Type) : Type :=
| Ok (a : A)
| Throw (e : Exn)
| OutOfFuel.
Arguments Ok {A} a.
Arguments Throw {A} e.
Arguments OutOfFuel {A}.

Definition M (A : Type) : Type := State -> Result A * State.

Definition ret {A : Type} (a : A) : M A := fun s => (Ok a, s).

Definition bind {A B : Type} (m : M A) (k : A -> M B) : M B :=
  fun s =>
    match m s with
    | (Ok a, s') => k a s'
    | (Throw e, s') => (Throw e, s')
    | (OutOfFuel, s') => (OutOfFuel, s')
    end.

Definition throw {A : Type} (e : Exn) : M A := fun s => (Throw e, s).

Definition out_of_fuel {A : Type} : M A := fun s => (OutOfFuel, s).

(** [try { body } catch (error) { handler }] *)
Definition try_catch {A : Type} (body : M A) (handler : Exn -> M A) : M A :=
  fun s =>
    match body s with
    | (Throw e, s') => handler e s'
    | r => r
    end.

Definition get : M State := fun s => (Ok s, s).

Definition gets {A : Type} (f : State -> A) : M A := fun s => (Ok (f s), s).

Definition modify (f : State -> State) : M unit := fun s => (Ok tt, f s).

Declare Scope manager_scope.
Delimit Scope manager_scope with manager.
Notation "x <- c1 ;; c2" := (bind c1 (fun x => c2))
  (at level 61, c1 at next level, right associativity) : manager_scope.
Notation "c1 ;; c2" := (bind c1 (fun _ => c2))
  (at level 61, right associativity) : manager_scope.
Open Scope manager_scope.

Definition when (b : bool) (m : M unit) : M unit :=
  if b then m else ret tt.

(** [a && b] on booleans: [b] is evaluated only when [a] is true. *)
Definition and_then (a : bool) (b : M bool) : M bool :=
  if a then b else ret false.

(** [block.name], for a block that may be missing: reading a property of
    [undefined] throws a [TypeError]. *)
Definition property {A B : Type} (block : option A) (name : string) (f : A -> B) : M B :=
  match block with
  | Some b => ret (f b)
  | None =>
      throw (TypeError ("Cannot read properties of undefined (reading '" ++ name ++ "')"))
  end.

(** [list.forEach(f)], and [for (const x of list)] with a body that does not
    leave the loop. *)
Fixpoint forEach {A : Type} (l : list A) (f : A -> M unit) : M unit :=
  match l with
  | [] => ret tt
  | x :: l' => f x ;; forEach l' f
  end.

Definition emit (e : Event) : M unit :=
  modify (fun s => set_events (events s ++ [e])%list s).

(** [array.slice(-n)] *)
Definition slice_last {A : Type} (n : nat) (l : list A) : list A :=
  skipn (length l - n) l.

(** [broadcastLog(message, type)]; the two readings of the clock are one
    reading, and the line printed on the console is left out. *)
Definition broadcastLog (message : string) (type : LogType) : M unit :=
  now <- gets clock ;;
  let logEntry := LogEntry.mk (iso now) message type (localTime now) in
  modify (fun s => set_logs (logs s ++ [logEntry])%list s) ;;
  l <- gets logs ;;
  when (maxLogs <? length l)%nat
    (modify (set_logs (slice_last maxLogs l))) ;;
  emit (Emit logEntry).

(** ** Calls of the [fs] module, each recorded as an event *)

Definition lift_fs {A : Type} (r : Fs.Errno + A) : M A :=
  match r with
  | inr a => ret a
  | inl e => throw (FsError e)
  end.

Definition fs_existsSync (p : Fs.path) : M bool :=
  emit (FsExists p) ;;
  gets (fun s => Fs.existsSync p (disk s)).

Definition fs_mkdirSync (p : Fs.path) : M unit :=
  emit (FsMkdir p) ;;
  d <- gets disk ;;
  d' <- lift_fs (Fs.mkdirSync p d) ;;
  modify (set_disk d').

Definition fs_statSync (p : Fs.path) : M Fs.node :=
  emit (FsStat p) ;;
  d <- gets disk ;;
  lift_fs (Fs.statSync p d).

Definition fs_readdirSync (p : Fs.path) : M (list string) :=
  emit (FsReaddir p) ;;
  d <- gets disk ;;
  lift_fs (Fs.readdirSync p d).

Definition fs_copyFileSync (src dest : Fs.path) : M unit :=
  emit (FsCopyFile src dest) ;;
  d <- gets disk ;;
  d' <- lift_fs (Fs.copyFileSync src dest d) ;;
  modify (set_disk d').

Definition fs_rmSync (p : Fs.path) : M unit :=
  emit (FsRm p) ;;
  d <- gets disk ;;
  let (d', r) := Fs.rmSync p d in
  modify (set_disk d') ;;
  match r with
  | None => ret tt
  | Some e => throw (FsError e)
  end.

(** [fs.writeFileSync('./config.json', JSON.stringify(c, null, 4))]; the
    file is represented by the document it holds. *)
Definition fs_writeConfig (c : Config.t) : M unit :=
  emit (FsWriteConfig c) ;;
  w <- gets configFileWritable ;;
  if w then modify (set_configFile (Some c)) else throw (FsError Fs.EACCES).

(** ** World and seed *)

(** [saveConfig()] *)
Definition saveConfig : M bool :=
  try_catch
    (c <- gets config ;;
     fs_writeConfig c ;;
     broadcastLog "💾 Configuration saved successfully" Success ;;
     ret true)
    (fun error =>
       broadcastLog ("❌ Failed to save config: " ++ Exn_message error) Error ;;
       ret false).

(** [if (!this.config.world) { this.config.world = {}; }] *)
Definition ensure_world : M unit :=
  modify (fun s =>
    match Config.world (config s) with
    | Some _ => s
    | None => set_config (Config.set_world (Some Config.empty_block) (config s)) s
    end).

(** [this.config.world.<property> = v], as an update [f] of the block. *)
Definition assign_world (f : Config.WorldBlock -> Config.WorldBlock) : M unit :=
  modify (fun s =>
    match Config.world (config s) with
    | Some w => set_config (Config.set_world (Some (f w)) (config s)) s
    | None => s
    end).

(** [updateWorldConfig(seed)] *)
Definition updateWorldConfig (seed : string) : M unit :=
  ensure_world ;;
  assign_world (fun w =>
    Config.mkWorld (Config.currentSeed w) (Some seed) (Config.worldGenerated w)) ;;
  assign_world (fun w =>
    Config.mkWorld (Some seed) (Config.lastUsedSeed w) (Config.worldGenerated w)) ;;
  assign_world (fun w =>
    Config.mkWorld (Config.currentSeed w) (Config.lastUsedSeed w) (Some false)) ;;
  saveConfig ;;
  ret tt.

(** [markWorldAsGenerated()] *)
Definition markWorldAsGenerated : M unit :=
  ensure_world ;;
  assign_world (fun w =>
    Config.mkWorld (Config.currentSeed w) (Config.lastUsedSeed w) (Some true)) ;;
  saveConfig ;;
  ret tt.

(** [copyDirectorySync(src, dest)]; [fuel] bounds the depth of the
    recursion. *)
Fixpoint copyDirectorySync (fuel : nat) (src dest : Fs.path) : M unit :=
  match fuel with
  | O => out_of_fuel
  | S fuel' =>
      stats <- fs_statSync src ;;
      if Fs.isDirectory stats then
        fs_mkdirSync dest ;;
        files <- fs_readdirSync src ;;
        forEach files (fun file =>
          copyDirectorySync fuel' (src ++ [file])%list (dest ++ [file])%list)
      else
        fs_copyFileSync src dest
  end.

(** [removeDirectorySync(dirPath)] *)
Definition removeDirectorySync (dirPath : Fs.path) : M unit :=
  e <- fs_existsSync dirPath ;;
  when e (fs_rmSync dirPath).

(** [timestamp.replace(/[:.]/g, '-')] *)
Fixpoint dashes (s : string) : string :=
  match s with
  | EmptyString => EmptyString
  | String c s' =>
      String (if Ascii.eqb c ":" || Ascii.eqb c "." then "-"%char else c) (dashes s')
  end.

(** [path.join(serverPath, name)], printed the POSIX way. *)
Definition path_join (dir name : string) : string :=
  match Re.strip_prefix "./" dir with
  | Some d => d ++ "/" ++ name
  | None => dir ++ "/" ++ name
  end.

(** [this.config.server.levelName || 'world']; the name is one path
    component, as it is in the default configuration. *)
Definition worldName (c : Config.t) : string :=
  Js.or_default (Config.levelName (Config.server c)) "world".

Definition worldPath (c : Config.t) : Fs.path := [worldName c].

Definition backupName (c : Config.t) (now : Clock) : string :=
  worldName c ++ "_backup_" ++ dashes (iso now).

Module BackupResult.
Record t : Type := mk {
  success : bool;
  backupPath : option string;
  error : option string
}.
End BackupResult.

(** [backupExistingWorld()] *)
Definition backupExistingWorld (fuel : nat) : M BackupResult.t :=
  try_catch
    (c <- gets config ;;
     now <- gets clock ;;
     let backupPath := [backupName c now] in
     broadcastLog "📦 Creating backup of existing world..." Info ;;
     fs_mkdirSync backupPath ;;
     copyDirectorySync fuel (worldPath c) backupPath ;;
     broadcastLog ("✅ World backup created: " ++ backupName c now) Success ;;
     broadcastLog ("📁 Backup location: " ++ path_join serverPath (backupName c now)) Info ;;
     removeDirectorySync (worldPath c) ;;
     broadcastLog "🗑️ Original world removed to make space for new world" Info ;;
     ret (BackupResult.mk true (Some (backupName c now)) None))
    (fun error =>
       ret (BackupResult.mk false None (Some (Exn_message error)))).

Inductive Reason : Type :=
| no_world_exists | seed_changed | seed_unchanged | backup_failed.

Module SeedCheck.
Record t : Type := mk {
  shouldCreateNew : bool;
  reason : Reason;
  backupPath : option string
}.
End SeedCheck.

(** [this.config.server.seed || ""] *)
Definition configuredSeed (c : Config.t) : string :=
  Js.or_default (Config.seed (Config.server c)) "".

(** [this.config.world?.lastUsedSeed || ""] *)
Definition recordedSeed (c : Config.t) : string :=
  match Config.world c with
  | Some w =>
      match Config.lastUsedSeed w with
      | Some v => Js.or_default v ""
      | None => ""
      end
  | None => ""
  end.

(** [checkSeedChange()] *)
Definition checkSeedChange (fuel : nat) : M SeedCheck.t :=
  c <- gets config ;;
  let currentSeed := configuredSeed c in
  let lastUsedSeed := recordedSeed c in
  worldExists <- fs_existsSync (worldPath c) ;;
  broadcastLog "🌱 Checking world seed configuration..." Info ;;
  if negb worldExists then
    broadcastLog "🆕 No existing world found - will generate new world" Info ;;
    (if negb (currentSeed =? "")%string
     then broadcastLog ("🌱 New world will use seed: " ++ currentSeed) Info
     else broadcastLog "🎲 New world will use random seed" Info) ;;
    updateWorldConfig currentSeed ;;
    ret (SeedCheck.mk true no_world_exists None)
  else if negb (currentSeed =? lastUsedSeed)%string then
    broadcastLog "🔄 Seed change detected!" Warn ;;
    broadcastLog ("📊 Previous seed: " ++ Js.dquote ++ lastUsedSeed ++ Js.dquote) Info ;;
    broadcastLog ("🆕 New seed: " ++ Js.dquote ++ currentSeed ++ Js.dquote) Info ;;
    backupResult <- backupExistingWorld fuel ;;
    if BackupResult.success backupResult then
      updateWorldConfig currentSeed ;;
      ret (SeedCheck.mk true seed_changed (BackupResult.backupPath backupResult))
    else
      broadcastLog ("❌ Failed to backup world: "
                    ++ Js.template (BackupResult.error backupResult)) Error ;;
      broadcastLog "⚠️ Keeping existing world to prevent data loss" Warn ;;
      ret (SeedCheck.mk false backup_failed None)
  else
    broadcastLog "✅ Using existing world (seed unchanged)" Success ;;
    ret (SeedCheck.mk false seed_unchanged None).

(** ** Child processes

    [spawn] returns a handle at once; a process that cannot be run reports
    it later, by an event.  A process stays alive until the environment
    sees it exit. *)

Definition spawn (command : string) (args : list string) : M Handle :=
  h <- gets nextHandle ;;
  emit (Spawn h command args) ;;
  modify (fun s => set_alive (h :: alive s) (set_nextHandle (S h) s)) ;;
  ret h.

(** [process.kill(signal)] *)
Definition kill (h : Handle) (signal : string) : M unit :=
  emit (Kill h signal).

(** [process.stdin.write(data)] *)
Definition stdin_write (h : Handle) (data : string) : M unit :=
  emit (StdinWrite h data).

(** An exit code in a template literal; [null] when a signal ended the
    process. *)
Definition template_code (code : option Z) : string :=
  match code with
  | Some z => Js.template_Z z
  | None => "null"
  end.

(** [code === 0] *)
Definition code_is_zero (code : option Z) : bool :=
  match code with
  | Some z => (z =? 0)%Z
  | None => false
  end.

(** ** Tunnel supervisor *)

(** [stored !== address], where [stored] is [null] or a string. *)
Definition differs (stored : option string) (address : string) : bool :=
  match stored with
  | Some a => negb (a =? address)%string
  | None => true
  end.

(** The body of the loop of [parsePlayitOutput], for one line. *)
Definition parsePlayitLine (line : string) (tunnelsFound : bool) : M bool :=
  match Re.tunnelMatch line with
  | Some (group1, port) =>
      let address := Js.trim group1 in
      (if (port =? "25565")%string then
         a <- gets playitAddresses ;;
         when (differs (java a) address)
           (modify (fun s =>
              set_playitAddresses
                (mkAddresses (Some address) (bedrock (playitAddresses s))) s) ;;
            broadcastLog ("🎮 Java tunnel ready: " ++ address) Success)
       else if (port =? "19132")%string then
         a <- gets playitAddresses ;;
         when (differs (bedrock a) address)
           (modify (fun s =>
              set_playitAddresses
                (mkAddresses (java (playitAddresses s)) (Some address)) s) ;;
            broadcastLog ("📱 Bedrock tunnel ready: " ++ address) Success)
       else ret tt) ;;
      ret true
  | None => ret tunnelsFound
  end.

Fixpoint parsePlayitLines (lines : list string) (tunnelsFound : bool) : M bool :=
  match lines with
  | [] => ret tunnelsFound
  | line :: rest =>
      found <- parsePlayitLine line tunnelsFound ;;
      parsePlayitLines rest found
  end.

(** [parsePlayitOutput(output)] *)
Definition parsePlayitOutput (output : string) : M bool :=
  parsePlayitLines (Js.split_lines output) false.

(** [startPlayitTunnel()]; the three listeners it registers are
    [onPlayitStdout], [onPlayitStderr] and [onPlayitClose] below. *)
Definition startPlayitTunnel : M unit :=
  installed <- gets playitInstalled ;;
  if negb installed then
    broadcastLog "⚠️ Playit.gg not installed - skipping tunnel creation" Warn
  else
    running <- gets playitProcess ;;
    match running with
    | Some _ => broadcastLog "⚠️ Playit tunnel already running" Warn
    | None =>
        broadcastLog "🌐 Starting Playit.gg tunnels for public access..." Info ;;
        try_catch
          (path <- gets playitPath ;;
           h <- spawn path [] ;;
           modify (set_playitProcess (Some h)))
          (fun error =>
             broadcastLog ("❌ Failed to start Playit tunnel: " ++ Exn_message error) Error)
    end.

(** [playitProcess.stdout.on('data', ...)] *)
Definition onPlayitStdout (data : string) : M unit :=
  let output := Js.trim data in
  last <- gets lastPlayitOutput ;;
  when (negb (output =? last)%string)
    (modify (set_lastPlayitOutput output) ;;
     match Re.setupUrlMatch output with
     | Some url =>
         modify (set_playitSetupUrl (Some url)) ;;
         broadcastLog ("[PLAYIT]: Setup required - Click " ++ Js.dquote
                       ++ "Setup Instructions" ++ Js.dquote ++ " button for help") Warn
     | None => ret tt
     end ;;
     when (Js.includes output "Program approved")
       (broadcastLog "[PLAYIT]: Program approved - Setting up tunnels..." Success) ;;
     tunnelsFound <- parsePlayitOutput output ;;
     detected <- gets playitTunnelsDetected ;;
     when (tunnelsFound && negb detected)
       (modify (set_playitTunnelsDetected true) ;;
        broadcastLog "[PLAYIT]: Tunnels detected and active!" Success)).

(** [playitProcess.stderr.on('data', ...)] *)
Definition onPlayitStderr (data : string) : M unit :=
  broadcastLog ("[PLAYIT ERROR]: " ++ Js.trim data) Error.

Definition clear_addresses : M unit :=
  modify (fun s =>
    set_playitAddresses (mkAddresses None (bedrock (playitAddresses s))) s) ;;
  modify (fun s =>
    set_playitAddresses (mkAddresses (java (playitAddresses s)) None) s).

(** [playitProcess.on('close', ...)] *)
Definition onPlayitClose (code : option Z) : M unit :=
  broadcastLog ("🌐 Playit tunnel exited with code " ++ template_code code)
    (if code_is_zero code then Info else Error) ;;
  modify (set_playitProcess None) ;;
  clear_addresses ;;
  modify (set_playitTunnelsDetected false).

(** [stopPlayitTunnel()] *)
Definition stopPlayitTunnel : M unit :=
  running <- gets playitProcess ;;
  match running with
  | Some h =>
      broadcastLog "🌐 Stopping Playit tunnels..." Info ;;
      kill h "SIGTERM" ;;
      modify (set_playitProcess None) ;;
      clear_addresses ;;
      modify (set_playitTunnelsDetected false)
  | None => ret tt
  end.

(** [resetPlayitState()] *)
Definition resetPlayitState : M unit :=
  clear_addresses ;;
  modify (set_playitTunnelsDetected false) ;;
  modify (set_playitSetupUrl None).

(** ** Server supervisor *)

(** [displayConnectionInfo()] *)
Definition displayConnectionInfo : M unit :=
  ip <- gets localIP ;;
  broadcastLog "🎮 MINECRAFT CROSSPLAY SERVER IS ONLINE! 🎮" Success ;;
  broadcastLog ("📱 Java Edition Local: localhost:" ++ Js.template_Z javaPort) Info ;;
  broadcastLog ("🎯 Bedrock Edition Local: localhost:" ++ Js.template_Z bedrockPort) Info ;;
  broadcastLog ("🏘️ Network Java: " ++ ip ++ ":" ++ Js.template_Z javaPort) Info ;;
  broadcastLog ("🏘️ Network Bedrock: " ++ ip ++ ":" ++ Js.template_Z bedrockPort) Info ;;
  a <- gets playitAddresses ;;
  match java a with
  | Some addr =>
      when (negb (Re.is_empty addr))
        (broadcastLog ("🌐 Public Java (Playit): " ++ addr) Success)
  | None => ret tt
  end ;;
  match bedrock a with
  | Some addr =>
      when (negb (Re.is_empty addr))
        (broadcastLog ("🌐 Public Bedrock (Playit): " ++ addr) Success)
  | None => ret tt
  end ;;
  broadcastLog "📋 Share these addresses with friends!" Success.

(** The readiness test of the output listener. *)
Definition is_ready_banner (message : string) : bool :=
  Js.includes message "Done ("
  && Js.includes message ("For help, type " ++ Js.dquote ++ "help" ++ Js.dquote).

(** [minecraftProcess.stdout.on('data', ...)] *)
Definition onMinecraftStdout (data : string) : M unit :=
  let message := Js.trim data in
  let parsedLog := parseMinecraftLog message in
  broadcastLog (ParsedLog.message parsedLog) (ParsedLog.type parsedLog) ;;
  when (is_ready_banner message)
    (modify (set_serverStatus online) ;;
     modify (set_serverReady true) ;;
     markWorldAsGenerated ;;
     broadcastLog "🎉 SERVER IS NOW ONLINE! Friends can join!" Success ;;
     displayConnectionInfo).

(** [minecraftProcess.stderr.on('data', ...)] *)
Definition onMinecraftStderr (data : string) : M unit :=
  broadcastLog ("💥 Error: " ++ Js.trim data) Error.

(** [minecraftProcess.on('close', ...)] *)
Definition onMinecraftClose (code : option Z) : M unit :=
  broadcastLog ("⏹️ Minecraft server exited with code " ++ template_code code)
    (if code_is_zero code then Info else Error) ;;
  modify (set_minecraftProcess None) ;;
  modify (set_serverStatus offline) ;;
  modify (set_serverReady false) ;;
  modify (set_startTime None) ;;
  resetPlayitState ;;
  stopPlayitTunnel ;;
  if negb (code_is_zero code) then
    broadcastLog "💥 Server crashed! Check the error messages above." Error
  else
    broadcastLog "✅ Server stopped normally." Success.

(** [startMinecraftServer()]; the three listeners it registers are
    [onMinecraftStdout], [onMinecraftStderr] and [onMinecraftClose]. *)
Definition startMinecraftServer (fuel : nat) : M unit :=
  running <- gets minecraftProcess ;;
  match running with
  | Some _ => broadcastLog "⚠️ Server already running" Warn
  | None =>
      seedCheck <- checkSeedChange fuel ;;
      c <- gets config ;;
      when (SeedCheck.shouldCreateNew seedCheck)
        (match SeedCheck.reason seedCheck with
         | seed_changed =>
             broadcastLog ("🎉 New world will be generated with seed: "
                           ++ Config.seed (Config.server c)) Success ;;
             broadcastLog ("📦 Previous world backed up as: "
                           ++ Js.template (SeedCheck.backupPath seedCheck)) Info
         | no_world_exists => broadcastLog "🆕 Generating new world..." Success
         | _ => ret tt
         end) ;;
      modify (set_serverStatus starting) ;;
      modify (set_serverReady false) ;;
      now <- gets clock ;;
      modify (set_startTime (Some (millis now))) ;;
      broadcastLog "🚀 STARTING MINECRAFT CROSSPLAY SERVER" Success ;;
      ip <- gets localIP ;;
      broadcastLog ("🏠 Local IP: " ++ ip) Info ;;
      pub <- gets publicIP ;;
      broadcastLog ("🌐 Public IP: "
                    ++ match pub with
                       | Some a => Js.or_default a "Detecting..."
                       | None => "Detecting..."
                       end) Info ;;
      let server := Config.server c in
      broadcastLog ("🎮 Game mode: " ++ Config.gamemode server
                    ++ ", Difficulty: " ++ Config.difficulty server) Info ;;
      broadcastLog ("👥 Max players: " ++ Js.template_Z (Config.maxPlayers server)) Info ;;
      when (negb (Re.is_empty (Config.seed server)))
        (broadcastLog ("🌱 World seed: " ++ Config.seed server) Info) ;;
      installed <- gets playitInstalled ;;
      tunnel <- and_then installed
                  (property (Config.playit c) "autoStart" Config.autoStart) ;;
      (if tunnel then
         broadcastLog "🌐 Playit.gg detected - Starting public tunnels..." Success ;;
         startPlayitTunnel
       else
         broadcastLog "⚠️ Playit.gg not installed - Server will only be available locally/LAN" Warn) ;;
      broadcastLog "⏳ Please wait while server initializes..." Info ;;
      let performance := Config.performance c in
      maxMemory <- property performance "maxMemory" Config.maxMemory ;;
      minMemory <- property performance "minMemory" Config.minMemory ;;
      let javaArgs :=
        [ "-Xmx" ++ maxMemory;
          "-Xms" ++ minMemory;
          "-XX:+UseG1GC";
          "-XX:+UnlockExperimentalVMOptions";
          "-XX:MaxGCPauseMillis=100";
          "-jar";
          jarFile;
          "nogui" ] in
      h <- spawn "java" javaArgs ;;
      modify (set_minecraftProcess (Some h))
  end.

(** [stopMinecraftServer()] *)
Definition stopMinecraftServer : M unit :=
  running <- gets minecraftProcess ;;
  match running with
  | Some h =>
      modify (set_serverStatus stopping) ;;
      broadcastLog "⏹️ Stopping Minecraft server..." Info ;;
      resetPlayitState ;;
      stopPlayitTunnel ;;
      stdin_write h ("stop" ++ String "010"%char EmptyString)
  | None => ret tt
  end.

(** [executeCommand(command)] *)
Definition executeCommand (command : string) : M unit :=
  running <- gets minecraftProcess ;;
  ready <- gets serverReady ;;
  match running with
  | Some h =>
      when ready
        (stdin_write h (command ++ String "010"%char EmptyString) ;;
         broadcastLog ("📤 Command executed: " ++ command) Info)
  | None => ret tt
  end.

(** ** The routes that drive the supervisor *)

Module Response.
Record t : Type := mk {
  success : bool;
  message : string;
  status : option string
}.
End Response.

(** [POST /start] *)
Definition postStart (fuel : nat) : M Response.t :=
  st <- gets serverStatus ;;
  if Status_eqb st starting || Status_eqb st online then
    ret (Response.mk false "Server is already starting or running" None)
  else
    startMinecraftServer fuel ;;
    ret (Response.mk true "Server is starting..." (Some "starting")).

(** [POST /stop] *)
Definition postStop : M Response.t :=
  st <- gets serverStatus ;;
  if Status_eqb st offline then
    ret (Response.mk false "Server is already offline" None)
  else
    stopMinecraftServer ;;
    ret (Response.mk true "Server is stopping..." (Some "stopping")).

(** [POST /command] *)
Definition postCommand (command : string) : M Response.t :=
  st <- gets serverStatus ;;
  if negb (Status_eqb st online) then
    ret (Response.mk false "Server must be online to send commands" None)
  else
    executeCommand command ;;
    ret (Response.mk true ("Command executed: " ++ command) None).

(** ** A manager as the constructor leaves its fields, before the first log
    line, over a given environment *)

Definition defaultConfig : Config.t :=
  Config.mk
    (Config.mkServer "" 20 "survival" "easy" "world")
    (Some (Config.mkPerformance "3G" "1G"))
    (Some (Config.mkPlayit true))
    (Some (Config.mkWorld (Some "") (Some "") (Some false))).

Definition fresh (c : Config.t) (now : Clock) (d : Fs.node) : State :=
  {| minecraftProcess := None;
     playitProcess := None;
     localIP := "localhost";
     publicIP := None;
     serverStatus := offline;
     startTime := None;
     serverReady := false;
     logs := [];
     config := c;
     playitInstalled := false;
     playitPath := "playit";
     playitAddresses := mkAddresses None None;
     lastPlayitOutput := "";
     playitTunnelsDetected := false;
     playitSetupUrl := None;
     clock := now;
     disk := d;
     configFile := Some c;
     configFileWritable := true;
     alive := [];
     nextHandle := 0;
     events := [] |}.

(** ** The environment between two calls *)

(** One call of [broadcastLog], with the reading of the clock at which it is
    made. *)
Definition LogCall : Type := (Clock * (string * LogType))%type.

(** The entry the call appends. *)
Definition logEntryOf (call : LogCall) : LogEntry.t :=
  let '(now, (message, type)) := call in
  LogEntry.mk (iso now) message type (localTime now).

(** A sequence of appends. *)
Definition appendAll (calls : list LogCall) : M unit :=
  forEach calls (fun call =>
    modify (set_clock (fst call)) ;;
    broadcastLog (fst (snd call)) (snd (snd call))).

(** The snapshot handed to a client that connects:
    [socket.emit('recent-logs', this.logs)]. *)
Definition snapshot (s : State) : list LogEntry.t := logs s.

(** ** Notions used to state the theorems *)

(** *** Lines and patterns *)

(** [w] is a capture of [(\w+)lit] in [s]: a non-empty run of word characters
    that [lit] follows. *)
Definition captures (lit s w : string) : Prop :=
  exists pre post,
    s = pre ++ w ++ lit ++ post /\ w <> "" /\ Js.all_chars Js.is_word w = true.

(** A character that is not white space. *)
Definition no_space (c : ascii) : bool := negb (Js.is_space c).

(** *** The file system and the events *)

(** Events of the copy: what [copyDirectorySync] and the creation of the
    backup directory call. *)
Definition is_copy_event (e : Event) : bool :=
  match e with
  | FsMkdir _ | FsStat _ | FsReaddir _ | FsCopyFile _ _ => true
  | _ => false
  end.

(** Events that remove something. *)
Definition is_rm_event (e : Event) : bool :=
  match e with
  | FsRm _ => true
  | _ => false
  end.

(** The entries of the server directory. *)
Definition root_entries (d : Fs.node) : list (string * Fs.node) :=
  match d with
  | Fs.Dir _ es => es
  | Fs.File _ _ => []
  end.

(** Depth of a tree: the number of recursive calls a walk of it nests. *)
Fixpoint height (n : Fs.node) : nat :=
  match n with
  | Fs.File _ _ => 0
  | Fs.Dir _ es =>
      S ((fix heights (es : list (string * Fs.node)) : nat :=
            match es with
            | [] => 0
            | (_, c) :: rest => Nat.max (height c) (heights rest)
            end) es)
  end.

(** Depth of what is at a path; nothing is there, no depth. *)
Definition depth_at (p : Fs.path) (d : Fs.node) : nat :=
  match Fs.lookup p d with
  | Some n => height n
  | None => 0
  end.

(** A call that works under the entry [k] of the server directory leaves the
    other entries as they are. *)
Definition keeps_other_entries (k : string) (d d' : Fs.node) : Prop :=
  forall name, name <> k ->
    Fs.find_entry name (root_entries d') = Fs.find_entry name (root_entries d).

(** Two paths part ways: after a common prefix, their next names differ. *)
Inductive diverge : Fs.path -> Fs.path -> Prop :=
| diverge_here (a b : string) (p q : Fs.path) :
    a <> b -> diverge (a :: p) (b :: q)
| diverge_next (x : string) (p q : Fs.path) :
    diverge p q -> diverge (x :: p) (x :: q).

(** There is a directory at [p]. *)
Definition is_dir_at (p : Fs.path) (d : Fs.node) : Prop :=
  exists w es, Fs.lookup p d = Some (Fs.Dir w es).

(** A copy of a node: a file with the same data, or a directory. *)
Definition same_kind (n n' : Fs.node) : Prop :=
  match n, n' with
  | Fs.File data _, Fs.File data' _ => data = data'
  | Fs.Dir _ _, Fs.Dir _ _ => True
  | _, _ => False
  end.

(** A step of the copy into [dest]: of the manager and its environment only
    the server directory and the events change; what is at a path that parts
    ways with [dest] stays as it is; a directory above [dest] stays a
    directory; the new events are events of the copy. *)
Definition copy_step (dest : Fs.path) (s s' : State) : Prop :=
  s' = set_events (events s') (set_disk (disk s') s)
  /\ (forall q, diverge dest q -> Fs.lookup q (disk s') = Fs.lookup q (disk s))
  /\ (forall above x below,
         dest = (above ++ x :: below)%list ->
         is_dir_at above (disk s) -> is_dir_at above (disk s'))
  /\ exists evs, events s' = (events s ++ evs)%list
                 /\ forallb is_copy_event evs = true.

(** *** The phases of the backup *)

(** The state in which the copy phase makes its calls: the announcement of
    the backup has been logged. *)
Definition announced (s : State) : State :=
  let e := logEntryOf (clock s, ("📦 Creating backup of existing world...", Info)) in
  set_events (events s ++ [Emit e]) (set_logs (slice_last maxLogs (logs s ++ [e])) s).

(** The copy phase of the backup: the announcement, the backup directory,
    the recursive copy. *)
Definition copy_phase (fuel : nat) : M unit :=
  c <- gets config ;;
  now <- gets clock ;;
  broadcastLog "📦 Creating backup of existing world..." Info ;;
  fs_mkdirSync [backupName c now] ;;
  copyDirectorySync fuel (worldPath c) [backupName c now].

(** What [backupExistingWorld] does after the copy phase, when that phase
    returned without error. *)
Definition removal_phase (c : Config.t) (now : Clock) : M BackupResult.t :=
  broadcastLog ("✅ World backup created: " ++ backupName c now) Success ;;
  broadcastLog ("📁 Backup location: " ++ path_join serverPath (backupName c now)) Info ;;
  removeDirectorySync (worldPath c) ;;
  broadcastLog "🗑️ Original world removed to make space for new world" Info ;;
  ret (BackupResult.mk true (Some (backupName c now)) None).

(** The events of the removal phase, started in [s1]. *)
Definition removal_events (c : Config.t) (now : Clock) (s1 : State) : list Event :=
  let created :=
    logEntryOf (clock s1, ("✅ World backup created: " ++ backupName c now, Success)) in
  let location :=
    logEntryOf (clock s1, ("📁 Backup location: "
                           ++ path_join serverPath (backupName c now), Info)) in
  let removed :=
    logEntryOf (clock s1, ("🗑️ Original world removed to make space for new world", Info)) in
  [Emit created; Emit location; FsExists (worldPath c)]
  ++ (if Fs.existsSync (worldPath c) (disk s1) then
        FsRm (worldPath c)
        :: match snd (Fs.rmSync (worldPath c) (disk s1)) with
           | None => [Emit removed]
           | Some _ => []
           end
      else [Emit removed]).

(** The state in which [checkSeedChange] calls the backup: the world was
    found and the change of seed has been logged. *)
Definition seed_change_detected (s : State) : State :=
  let c := config s in
  let entries :=
    [ logEntryOf (clock s, ("🌱 Checking world seed configuration...", Info));
      logEntryOf (clock s, ("🔄 Seed change detected!", Warn));
      logEntryOf (clock s, ("📊 Previous seed: " ++ Js.dquote ++ recordedSeed c ++ Js.dquote, Info));
      logEntryOf (clock s, ("🆕 New seed: " ++ Js.dquote ++ configuredSeed c ++ Js.dquote, Info)) ] in
  set_events (events s ++ FsExists (worldPath c) :: map Emit entries)
    (set_logs (slice_last maxLogs (logs s ++ entries)) s).

(** What [checkSeedChange] does with the result of the backup. *)
Definition after_backup (currentSeed : string) (backupResult : BackupResult.t)
  : M SeedCheck.t :=
  if BackupResult.success backupResult then
    updateWorldConfig currentSeed ;;
    ret (SeedCheck.mk true seed_changed (BackupResult.backupPath backupResult))
  else
    broadcastLog ("❌ Failed to backup world: "
                  ++ Js.template (BackupResult.error backupResult)) Error ;;
    broadcastLog "⚠️ Keeping existing world to prevent data loss" Warn ;;
    ret (SeedCheck.mk false backup_failed None).

(** ** Scenarios used to exercise the statements *)

(** [n] appends, numbered in their order. *)
Definition numbered_calls (n : nat) : list LogCall :=
  map (fun i => (mkClock (Z.of_nat i) "" "", (Js.template_Z (Z.of_nat i), Info)))
      (seq 0 n).

(** A reading of the clock. *)
Definition clock0 : Clock := mkClock 1704164645678 "2024-01-02T03:04:05.678Z" "03:04:05".

(** A manager on an empty server directory, with the tunnel binary found. *)
Definition manager0 : State :=
  set_playitInstalled true (fresh defaultConfig clock0 (Fs.Dir true [])).

(** The server was started from the route. *)
Definition manager_starting : State := snd (postStart 1 manager0).

(** The tunnel then asked for its setup. *)
Definition manager_setup_pending : State :=
  snd (onPlayitStdout "Visit link to setup https://playit.gg/claim/abc123"
         manager_starting).

(** The tunnel, with its setup pending, printed a binding of the Java
    port. *)
Definition manager_tunnel_bound : State :=
  snd (onPlayitStdout "myaddr.playit.gg => 127.0.0.1:25565" manager_setup_pending).

(** The server then printed its readiness banner. *)
Definition manager_online : State :=
  snd (onMinecraftStdout
         ("[03:04:09 INFO]: Done (3.2s)! For help, type "
          ++ Js.dquote ++ "help" ++ Js.dquote)
         manager_setup_pending).

(** A stop was then requested from the route; the process has not exited
    yet. *)
Definition manager_stopping : State := snd (postStop manager_online).

(** The default configuration with the seed set to 123, over a world that
    was generated without a seed. *)
Definition seed_123 : Config.t :=
  Config.mk
    (Config.mkServer "123" 20 "survival" "easy" "world")
    (Some (Config.mkPerformance "3G" "1G"))
    (Some (Config.mkPlayit true))
    (Some (Config.mkWorld (Some "") (Some "") (Some true))).

(** A manager on an empty server directory whose configuration file
    cannot be written. *)
Definition manager_readonly_config : State :=
  let 'mkState a b c d e f g h i j k l m n o p q r _ u w x :=
    fresh seed_123 clock0 (Fs.Dir true []) in
  mkState a b c d e f g h i j k l m n o p q r false u w x.

(** A manager, with the tunnel binary found, whose configuration has no
    [performance] block. *)
Definition manager_without_performance : State :=
  set_playitInstalled true
    (fresh (Config.mk (Config.server defaultConfig) None (Config.playit defaultConfig)
              (Config.world defaultConfig))
       clock0 (Fs.Dir true [])).

(** A world that can be backed up and removed. *)
Definition plain_world : Fs.node :=
  Fs.Dir true
    [ ("level.dat", Fs.File "level" true);
      ("region", Fs.Dir true [("r.0.0.mca", Fs.File "chunks" true)]) ].

(** The seed change is about to be detected. *)
Definition manager_seed_changed : State :=
  fresh seed_123 clock0 (Fs.Dir true [("world", plain_world)]).

(** A world with a region directory that does not let its entries be
    removed, and a server directory that holds it. *)
Definition locked_world : Fs.node :=
  Fs.Dir true
    [ ("level.dat", Fs.File "level" true);
      ("region", Fs.Dir false [("r.0.0.mca", Fs.File "chunks" true)]);
      ("session.lock", Fs.File "" true) ].

(** The seed change is about to be detected, over the locked world. *)
Definition manager_locked_region : State :=
  fresh seed_123 clock0 (Fs.Dir true [("world", locked_world)]).

(* ================================================================== *)
(** * Further parts of the program *)
(* ================================================================== *)

(** ** Notions used to state the further properties *)

(** *** Patterns *)

(** [w] is the capture of the leftmost match of [(\w+)lit] in
    [pre ++ w ++ lit ++ post]: it is a capture, and no capture starts
    inside [pre]. *)
Definition leftmost_capture (lit pre w post : string) : Prop :=
  w <> "" /\ Js.all_chars Js.is_word w = true
  /\ forall pre' w' post',
       pre ++ w ++ lit ++ post = pre' ++ w' ++ lit ++ post' ->
       w' <> "" -> Js.all_chars Js.is_word w' = true ->
       (String.length pre <= String.length pre')%nat.

(** A character that [.] accepts. *)
Definition not_terminator (c : ascii) : bool := negb (Js.is_line_terminator c).

(** [s] does not start with a character of the class [p]: a greedy run of
    [p] stops in front of it. *)
Definition stops (p : ascii -> bool) (s : string) : Prop :=
  match s with
  | String c _ => p c = false
  | EmptyString => True
  end.

(** The text of a tunnel binding: [\s+=>\s+127\.0\.0\.1:(\d+)] with the
    white space [ws1], [ws2] and the digits [port]. *)
Definition binding_text (ws1 ws2 port : string) : string :=
  ws1 ++ "=>" ++ ws2 ++ "127.0.0.1:" ++ port.

(** The text of a setup link with the token [tok]. *)
Definition setup_text (tok : string) : string :=
  "Visit link to setup " ++ Re.claim_prefix ++ tok.

(** *** What a computation changes *)

(** The manager after the entries [es] were logged, one call of
    [broadcastLog] each. *)
Definition logged (es : list LogEntry.t) (s : State) : State :=
  set_events (events s ++ map Emit es) (set_logs (slice_last maxLogs (logs s ++ es)) s).

(** The manager after the entries [es] were logged, or not, as [b] says. *)
Definition logged_when (b : bool) (es : list LogEntry.t) (s : State) : State :=
  set_events (events s ++ if b then map Emit es else [])
    (set_logs (if b then slice_last maxLogs (logs s ++ es) else logs s) s).

(** Every run of [m], whatever it returns, takes a state to one that [R]
    relates to it. *)
Definition respects (R : State -> State -> Prop) {A : Type} (m : M A) : Prop :=
  forall s r s', m s = (r, s') -> R s s'.

(** [m] always returns, without an exception, and takes a state to one
    that [R] relates to it. *)
Definition returns (R : State -> State -> Prop) {A : Type} (m : M A) : Prop :=
  forall s, exists a s', m s = (Ok a, s') /\ R s s'.

(** The log entries sent to the clients, in the order they were sent:
    [this.io.emit('new-log', logEntry)]. *)
Definition emitted (evs : list Event) : list LogEntry.t :=
  flat_map (fun e => match e with Emit entry => [entry] | _ => [] end) evs.

(** The buffer moves in step with what is sent: from a buffer within its
    capacity, the buffer stays within it and is the last [maxLogs] of the
    old one followed by the entries sent since. *)
Definition log_sync (s s' : State) : Prop :=
  (length (logs s) <= maxLogs)%nat ->
  (length (logs s') <= maxLogs)%nat
  /\ exists es, emitted (events s') = (emitted (events s) ++ es)%list
                /\ snapshot s' = slice_last maxLogs (snapshot s ++ es).

(** Events on processes: a child process spawned, signalled or written
    to, and a command run to its end. *)
Definition is_process_event (e : Event) : bool :=
  match e with
  | Spawn _ _ _ | Kill _ _ | StdinWrite _ _ | ExecSync _ => true
  | _ => false
  end.

Definition process_events (evs : list Event) : list Event :=
  filter is_process_event evs.

(** Two documents with the same settings: they differ in the world-tracking
    block at most. *)
Definition same_settings (c c' : Config.t) : Prop :=
  Config.server c' = Config.server c
  /\ Config.performance c' = Config.performance c
  /\ Config.playit c' = Config.playit c.

(** A step of the world and seed code: of the manager only the log and the
    world-tracking block change, of the environment only the server
    directory, the configuration file and the events; no child process
    is touched. *)
Definition world_step (s s' : State) : Prop :=
  s' = set_events (events s')
         (set_configFile (configFile s')
            (set_disk (disk s')
               (set_config (config s') (set_logs (logs s') s))))
  /\ same_settings (config s) (config s')
  /\ process_events (events s') = process_events (events s).

(** *** The tunnel *)

(** Whether a line of the tunnel's output is a binding line. *)
Definition is_tunnel_line (line : string) : bool :=
  match Re.tunnelMatch line with
  | Some _ => true
  | None => false
  end.

(** The binding for [port] after a line: the address of the line when it
    binds that port, the binding so far otherwise. *)
Definition binding_after (port : string) (stored : option string) (line : string)
  : option string :=
  match Re.tunnelMatch line with
  | Some (group1, p) => if (p =? port)%string then Some (Js.trim group1) else stored
  | None => stored
  end.

(** The binding for [port] after the lines of an output, in their order:
    the last line that binds the port decides. *)
Definition last_binding (port : string) (lines : list string) (stored : option string)
  : option string :=
  fold_left (binding_after port) lines stored.

(** A step of the reading of binding lines: of the manager only the bindings
    and the log change, of the environment only the events, by log lines. *)
Definition binding_step (s s' : State) : Prop :=
  s' = set_events (events s') (set_logs (logs s') (set_playitAddresses (playitAddresses s') s))
  /\ process_events (events s') = process_events (events s).

(** A step of the tunnel's output listener: of the manager only the tunnel's
    bindings, flags, setup link and last output and the log change; no
    child process is touched. *)
Definition tunnel_step (s s' : State) : Prop :=
  s' = set_events (events s')
         (set_logs (logs s')
            (set_playitSetupUrl (playitSetupUrl s')
               (set_playitTunnelsDetected (playitTunnelsDetected s')
                  (set_lastPlayitOutput (lastPlayitOutput s')
                     (set_playitAddresses (playitAddresses s') s)))))
  /\ process_events (events s') = process_events (events s).

(** [x === null] on a handle. *)
Definition is_null {A : Type} (x : option A) : bool :=
  match x with
  | Some _ => false
  | None => true
  end.

(** *** The server directory *)

(** The names of the entries of the server directory. *)
Definition root_names (d : Fs.node) : list string := map fst (root_entries d).

(** No name is listed twice in the server directory. *)
Definition names_once (s s' : State) : Prop :=
  NoDup (root_names (disk s)) -> NoDup (root_names (disk s')).

(** *** The server process *)

(** The arguments [startMinecraftServer] gives to [java]. *)
Definition javaArgs (performance : Config.Performance) : list string :=
  [ "-Xmx" ++ Config.maxMemory performance;
    "-Xms" ++ Config.minMemory performance;
    "-XX:+UseG1GC";
    "-XX:+UnlockExperimentalVMOptions";
    "-XX:MaxGCPauseMillis=100";
    "-jar";
    jarFile;
    "nogui" ].

(** What [startMinecraftServer] logs about the result of the seed check. *)
Definition start_announce (seedCheck : SeedCheck.t) (c : Config.t) : M unit :=
  when (SeedCheck.shouldCreateNew seedCheck)
    (match SeedCheck.reason seedCheck with
     | seed_changed =>
         broadcastLog ("🎉 New world will be generated with seed: "
                       ++ Config.seed (Config.server c)) Success ;;
         broadcastLog ("📦 Previous world backed up as: "
                       ++ Js.template (SeedCheck.backupPath seedCheck)) Info
     | no_world_exists => broadcastLog "🆕 Generating new world..." Success
     | _ => ret tt
     end).

(** What [startMinecraftServer] does after that: the state of the
    supervisor, the summary in the log, the tunnel, the server process. *)
Definition start_proceed (c : Config.t) : M unit :=
  modify (set_serverStatus starting) ;;
  modify (set_serverReady false) ;;
  now <- gets clock ;;
  modify (set_startTime (Some (millis now))) ;;
  broadcastLog "🚀 STARTING MINECRAFT CROSSPLAY SERVER" Success ;;
  ip <- gets localIP ;;
  broadcastLog ("🏠 Local IP: " ++ ip) Info ;;
  pub <- gets publicIP ;;
  broadcastLog ("🌐 Public IP: "
                ++ match pub with
                   | Some a => Js.or_default a "Detecting..."
                   | None => "Detecting..."
                   end) Info ;;
  broadcastLog ("🎮 Game mode: " ++ Config.gamemode (Config.server c)
                ++ ", Difficulty: " ++ Config.difficulty (Config.server c)) Info ;;
  broadcastLog ("👥 Max players: "
                ++ Js.template_Z (Config.maxPlayers (Config.server c))) Info ;;
  when (negb (Re.is_empty (Config.seed (Config.server c))))
    (broadcastLog ("🌱 World seed: " ++ Config.seed (Config.server c)) Info) ;;
  installed <- gets playitInstalled ;;
  tunnel <- and_then installed
              (property (Config.playit c) "autoStart" Config.autoStart) ;;
  (if tunnel then
     broadcastLog "🌐 Playit.gg detected - Starting public tunnels..." Success ;;
     startPlayitTunnel
   else
     broadcastLog "⚠️ Playit.gg not installed - Server will only be available locally/LAN" Warn) ;;
  broadcastLog "⏳ Please wait while server initializes..." Info ;;
  maxMemory <- property (Config.performance c) "maxMemory" Config.maxMemory ;;
  minMemory <- property (Config.performance c) "minMemory" Config.minMemory ;;
  h <- spawn "java"
         [ "-Xmx" ++ maxMemory;
           "-Xms" ++ minMemory;
           "-XX:+UseG1GC";
           "-XX:+UnlockExperimentalVMOptions";
           "-XX:MaxGCPauseMillis=100";
           "-jar";
           jarFile;
           "nogui" ] ;;
  modify (set_minecraftProcess (Some h)).

(** A step that only logs. *)
Definition log_step (s s' : State) : Prop :=
  s' = set_events (events s') (set_logs (logs s') s)
  /\ exists es, events s' = (events s ++ map Emit es)%list.

(** The world-tracking block after [markWorldAsGenerated]. *)
Definition generated (c : Config.t) : Config.t :=
  match Config.world c with
  | Some w =>
      Config.set_world
        (Some (Config.mkWorld (Config.currentSeed w) (Config.lastUsedSeed w) (Some true))) c
  | None => Config.set_world (Some (Config.mkWorld None None (Some true))) c
  end.

(** A line feed. *)
Definition LF : string := String "010"%char EmptyString.

(** ** The calls the environment makes

    The routes that drive the supervisor are called by the web clients, the
    listeners by the child processes.  The listeners of the server process
    are called between its spawn and its exit, that is, while the manager
    holds its handle.  The routes that read and replace the configuration
    ([/config]) and the one that reports ([/status], below) are not among
    these calls. *)

Inductive Request : Type :=
| PostStart (fuel : nat)
| PostStop
| PostCommand (command : string)
| MinecraftStdout (data : string)
| MinecraftStderr (data : string)
| MinecraftClose (code : option Z)
| PlayitStdout (data : string)
| PlayitStderr (data : string)
| PlayitClose (code : option Z).

(** A route handler, the answer left out.  When the handler throws,
    Express answers the request with an error and goes on serving. *)
Definition route {A : Type} (handler : M A) : M unit :=
  try_catch (handler ;; ret tt) (fun _ => ret tt).

Definition handle (req : Request) : M unit :=
  match req with
  | PostStart fuel => route (postStart fuel)
  | PostStop => route postStop
  | PostCommand command => route (postCommand command)
  | MinecraftStdout data => onMinecraftStdout data
  | MinecraftStderr data => onMinecraftStderr data
  | MinecraftClose code => onMinecraftClose code
  | PlayitStdout data => onPlayitStdout data
  | PlayitStderr data => onPlayitStderr data
  | PlayitClose code => onPlayitClose code
  end.

Definition enabled (req : Request) (s : State) : bool :=
  match req with
  | MinecraftStdout _ | MinecraftStderr _ | MinecraftClose _ =>
      negb (is_null (minecraftProcess s))
  | _ => true
  end.

(** The requests of a list, one after the other; one that cannot be made in
    the state reached is not made. *)
Definition serve (reqs : list Request) : M unit :=
  forEach reqs (fun req =>
    e <- gets (enabled req) ;;
    when e (handle req)).

Definition is_start (req : Request) : bool :=
  match req with
  | PostStart _ => true
  | _ => false
  end.

(** The status says offline exactly when the manager holds no server
    process, and then the server is not ready and has no start time. *)
Definition status_matches_process (s : State) : Prop :=
  (minecraftProcess s = None <-> serverStatus s = offline)
  /\ (minecraftProcess s = None -> serverReady s = false /\ startTime s = None).

(** The configuration has the blocks that a start reads. *)
Definition complete (c : Config.t) : Prop :=
  Config.performance c <> None /\ Config.playit c <> None.

(** A step that preserves both. *)
Definition keeps_status_matching (s s' : State) : Prop :=
  status_matches_process s /\ complete (config s) ->
  status_matches_process s' /\ complete (config s').

(** A step that leaves the server supervisor's fields and the settings
    alone. *)
Definition server_kept (s s' : State) : Prop :=
  minecraftProcess s' = minecraftProcess s
  /\ serverStatus s' = serverStatus s
  /\ serverReady s' = serverReady s
  /\ startTime s' = startTime s
  /\ same_settings (config s) (config s').

(** What a start that threw leaves: the status says [starting] and no
    server process is held. *)
Definition start_failed (s : State) : Prop :=
  serverStatus s = starting /\ minecraftProcess s = None.

Definition is_spawn (e : Event) : bool :=
  match e with
  | Spawn _ _ _ => true
  | _ => false
  end.

(** A step that spawns nothing. *)
Definition spawns_nothing (s s' : State) : Prop :=
  filter is_spawn (events s') = filter is_spawn (events s)
  /\ alive s' = alive s
  /\ nextHandle s' = nextHandle s.

(** ** Loading the configuration

    The constructor calls [loadConfig] once the log buffer exists.  Reading
    the configuration file is not recorded as an event. *)

(** [createDefaultConfig()]; the default document is [defaultConfig]. *)
Definition createDefaultConfig : M Config.t :=
  try_catch
    (fs_writeConfig defaultConfig ;;
     broadcastLog "📄 Default config.json created" Success)
    (fun error =>
       broadcastLog ("❌ Failed to create config file: " ++ Exn_message error) Error) ;;
  ret defaultConfig.

(** The document with the world-tracking block that [loadConfig] adds to a
    document without one. *)
Definition migrated (doc : Config.t) : Config.t :=
  let seed := Js.or_default (Config.seed (Config.server doc)) "" in
  Config.set_world (Some (Config.mkWorld (Some seed) (Some seed) (Some true))) doc.

(** [loadConfig()]; [read] is what [fs.readFileSync] followed by
    [JSON.parse] gives on the file when it exists: the document, or the
    exception that one of them throws. *)
Definition loadConfig (read : Exn + Config.t) : M Config.t :=
  try_catch
    (present <- gets (fun s => negb (is_null (configFile s))) ;;
     if present then
       config <- match read with
                 | inr doc => ret doc
                 | inl error => throw error
                 end ;;
       config <- match Config.world config with
                 | Some _ => ret config
                 | None =>
                     fs_writeConfig (migrated config) ;;
                     broadcastLog "🔄 Config migrated to support seed change detection" Info ;;
                     ret (migrated config)
                 end ;;
       broadcastLog "✅ Configuration loaded successfully" Success ;;
       ret config
     else
       broadcastLog "⚠️ Config file not found, creating default config.json" Warn ;;
       createDefaultConfig)
    (fun error =>
       broadcastLog ("❌ Error loading config: " ++ Exn_message error) Error ;;
       broadcastLog "📝 Using default configuration" Info ;;
       createDefaultConfig).

(** A step of the loading: of the manager only the log changes, of the
    environment only the configuration file and the events. *)
Definition load_step (s s' : State) : Prop :=
  s' = set_events (events s') (set_configFile (configFile s') (set_logs (logs s') s))
  /\ process_events (events s') = process_events (events s).

(** ** Looking for the tunnel binary

    Whether a file exists at a place ([present]) and whether a command ends
    with exit code 0 ([runs]) is for the environment to say; the places are
    relative to the working directory of the manager, not to the server
    directory. *)

Definition set_playitPath (v : string) (s : State) : State :=
  let 'mkState a b c d e f g h i j _ l m n o p q r t u w x := s in
  mkState a b c d e f g h i j v l m n o p q r t u w x.

Definition playitPaths : list string :=
  [ "./playit.exe"; "./playit"; "playit.exe"; "playit" ].

(** [require('child_process').execSync(command, { stdio: 'ignore' })]: the
    command is run to its end, and the call throws unless the command ends
    with exit code 0. *)
Definition execSync (runs : string -> bool) (command : string) : M unit :=
  emit (ExecSync command) ;;
  if runs command then ret tt else throw (CommandFailed command).

(** [commandExists(command)] *)
Definition commandExists (runs : string -> bool) (command : string) : M bool :=
  try_catch
    (execSync runs (command ++ " --version") ;;
     ret true)
    (fun error => ret false).

(** [a || b] on booleans: [b] is evaluated only when [a] is false. *)
Definition or_else (a : bool) (b : M bool) : M bool :=
  if a then ret true else b.

(** The loop of [checkPlayitInstallation]; the result of a turn says
    whether the loop was left by [break]. *)
Fixpoint findPlayit (present runs : string -> bool) (paths : list string) : M unit :=
  match paths with
  | [] => ret tt
  | playitPath :: rest =>
      found <- try_catch
                 (available <- or_else (present playitPath)
                                 (commandExists runs playitPath) ;;
                  if available then
                    modify (set_playitInstalled true) ;;
                    modify (set_playitPath playitPath) ;;
                    broadcastLog "✅ Playit.gg is installed - Public tunneling available!"
                      Success ;;
                    ret true
                  else ret false)
                 (fun error => ret false) ;;
      if found then ret tt else findPlayit present runs rest
  end.

(** [checkPlayitInstallation()] *)
Definition checkPlayitInstallation (present runs : string -> bool) : M unit :=
  findPlayit present runs playitPaths ;;
  installed <- gets playitInstalled ;;
  when (negb installed)
    (broadcastLog "❌ Playit.gg is not installed - Server won't be available to the internet" Warn ;;
     broadcastLog "📥 Download Playit.gg from: https://playit.gg/download" Info).

(** The binary is available at a place when a file is there or the place,
    taken as a command and asked for its version, ends with exit code 0. *)
Definition available (present runs : string -> bool) (place : string) : bool :=
  present place || runs (place ++ " --version").

(** The commands that the search runs: one for each place where no file
    is, up to the first place where the binary is available. *)
Fixpoint probes (present runs : string -> bool) (places : list string) : list string :=
  match places with
  | [] => []
  | place :: rest =>
      if present place then []
      else (place ++ " --version")
           :: (if runs (place ++ " --version") then [] else probes present runs rest)
  end.

(** ** The status route *)

Module StatusReport.

Module Playit.
Record t : Type := mk {
  installed : bool;
  running : bool;
  addresses : Addresses;
  setupUrl : option string;
  tunnelsActive : bool
}.
End Playit.

Module Endpoints.
Record t : Type := mk {
  java : string;
  bedrock : string
}.
End Endpoints.

Module PlayitEndpoints.
Record t : Type := mk {
  java : option string;
  bedrock : option string;
  note : string
}.
End PlayitEndpoints.

Module Connections.
Record t : Type := mk {
  local : Endpoints.t;
  network : Endpoints.t;
  playit : option PlayitEndpoints.t
}.
End Connections.

Record t : Type := mk {
  status : Status;
  running : bool;
  ready : bool;
  uptime : Z;
  localIP : string;
  publicIP : option string;
  javaPort : Z;
  bedrockPort : Z;
  config : Config.t;
  playit : Playit.t;
  connections : Connections.t
}.

End StatusReport.

(** [this.startTime ? Math.floor((Date.now() - this.startTime) / 1000) : 0];
    a start time of zero is falsy. *)
Definition uptimeOf (startTime : option Z) (now : Z) : Z :=
  match startTime with
  | Some t => if (t =? 0)%Z then 0%Z else ((now - t) / 1000)%Z
  | None => 0%Z
  end.

(** [GET /status]: the document of the answer. *)
Definition getStatus (s : State) : StatusReport.t :=
  StatusReport.mk
    (serverStatus s)
    (negb (is_null (minecraftProcess s)))
    (serverReady s)
    (uptimeOf (startTime s) (millis (clock s)))
    (localIP s)
    (publicIP s)
    javaPort
    bedrockPort
    (config s)
    (StatusReport.Playit.mk
       (playitInstalled s)
       (negb (is_null (playitProcess s)))
       (playitAddresses s)
       (playitSetupUrl s)
       (playitTunnelsDetected s))
    (StatusReport.Connections.mk
       (StatusReport.Endpoints.mk
          ("localhost:" ++ Js.template_Z javaPort)
          ("localhost:" ++ Js.template_Z bedrockPort))
       (StatusReport.Endpoints.mk
          (localIP s ++ ":" ++ Js.template_Z javaPort)
          (localIP s ++ ":" ++ Js.template_Z bedrockPort))
       (if playitInstalled s then
          Some (StatusReport.PlayitEndpoints.mk
                  (java (playitAddresses s))
                  (bedrock (playitAddresses s))
                  "Playit.gg tunneling")
        else None)).

(** ** The address on the local network *)

Record NetworkInterface : Type := mkNetworkInterface {
  family : string;
  internal : bool;
  address : string
}.

(** [networkInterface.family === 'IPv4' && !networkInterface.internal] *)
Definition is_external_IPv4 (i : NetworkInterface) : bool :=
  (family i =? "IPv4")%string && negb (internal i).

(** [getLocalIP()], on what [os.networkInterfaces()] gives: the interfaces
    by name, in the order of the names. *)
Fixpoint getLocalIP (interfaces : list (string * list NetworkInterface)) : string :=
  match interfaces with
  | [] => "localhost"
  | (_, group) :: rest =>
      match find is_external_IPv4 group with
      | Some i => address i
      | None => getLocalIP rest
      end
  end.

(* ================================================================== *)
(** * Theorems *)
(* ================================================================== *)

(** ** Strings *)

Lemma append_empty_r (s : string) : s ++ "" = s.
Proof. induction s as [|c s IH]; simpl; [reflexivity | now rewrite IH]. Qed.

Lemma append_assoc (a b c : string) : (a ++ b) ++ c = a ++ (b ++ c).
Proof. induction a as [|x a IH]; simpl; [reflexivity | now rewrite IH]. Qed.

Lemma prefix_iff (p s : string) :
  prefix p s = true <-> exists r, s = p ++ r.
Proof.
  revert s; induction p as [|a p IH]; intros s.
  - split; [intros _; now exists s | now destruct s].
  - destruct s as [|b s]; simpl.
    + split; [discriminate | intros [r H]; discriminate].
    + destruct (ascii_dec a b) as [->|Hab].
      * rewrite IH. split; intros [r H]; exists r; [now rewrite H | now injection H].
      * split; [discriminate | intros [r H]; injection H; intros; congruence].
Qed.

Lemma includes_eq (s sub : string) :
  Js.includes s sub
  = if prefix sub s then true
    else match s with
         | EmptyString => false
         | String _ s' => Js.includes s' sub
         end.
Proof. destruct s; reflexivity. Qed.

Lemma includes_iff (s sub : string) :
  Js.includes s sub = true <-> exists pre post, s = pre ++ sub ++ post.
Proof.
  induction s as [|c s IH]; rewrite includes_eq.
  - destruct (prefix sub "") eqn:P.
    + apply prefix_iff in P as [r P]. split; [intros _ | reflexivity].
      exists "", r. exact P.
    + split; [discriminate|]. intros [pre [post H]].
      destruct pre; [|discriminate]. simpl in H.
      assert (prefix sub "" = true) by (apply prefix_iff; now exists post).
      congruence.
  - destruct (prefix sub (String c s)) eqn:P.
    + apply prefix_iff in P as [r P]. split; [intros _ | reflexivity].
      exists "", r. exact P.
    + rewrite IH. split.
      * intros [pre [post H]]. exists (String c pre), post. simpl. now rewrite H.
      * intros [pre [post H]]. destruct pre as [|a pre].
        -- simpl in H.
           assert (prefix sub (String c s) = true) by (apply prefix_iff; now exists post).
           congruence.
        -- simpl in H. injection H as _ H. now exists pre, post.
Qed.

(** ** The regular expressions of the classifier: what a match is *)

Lemma match_at_sound (lit s w : string) :
  WordThenLit.match_at lit s = Some w ->
  w <> "" /\ Js.all_chars Js.is_word w = true /\ exists post, s = w ++ lit ++ post.
Proof.
  revert w; induction s as [|c s IH]; intros w; simpl; [discriminate|].
  destruct (Js.is_word c) eqn:Hc; [|discriminate].
  destruct (WordThenLit.match_at lit s) as [w'|] eqn:Hm.
  - intros [= <-]. destruct (IH w' eq_refl) as (_ & Hall & post & ->).
    repeat split; [discriminate | simpl; now rewrite Hc | now exists post].
  - destruct (prefix lit s) eqn:P; [|discriminate].
    intros [= <-]. apply prefix_iff in P as [r ->].
    repeat split; [discriminate | simpl; now rewrite Hc | now exists r].
Qed.

Lemma match_at_complete (lit w post : string) :
  w <> "" -> Js.all_chars Js.is_word w = true ->
  WordThenLit.match_at lit (w ++ lit ++ post) <> None.
Proof.
  induction w as [|c w IH]; intros Hne Hall; [congruence|].
  simpl in *. apply andb_prop in Hall as [Hc Hall]. rewrite Hc.
  destruct w as [|c' w].
  - simpl. destruct (WordThenLit.match_at lit (lit ++ post)); [discriminate|].
    assert (P : prefix lit (lit ++ post) = true) by (apply prefix_iff; now exists post).
    rewrite P. discriminate.
  - destruct (WordThenLit.match_at lit (String c' w ++ lit ++ post)) eqn:E.
    + discriminate.
    + exfalso. apply IH; [discriminate | exact Hall | reflexivity].
Qed.

Lemma exec_eq (lit s : string) :
  WordThenLit.exec lit s
  = match WordThenLit.match_at lit s with
    | Some w => Some w
    | None =>
        match s with
        | EmptyString => None
        | String _ s' => WordThenLit.exec lit s'
        end
    end.
Proof. destruct s; reflexivity. Qed.

Lemma exec_sound (lit s w : string) :
  WordThenLit.exec lit s = Some w -> captures lit s w.
Proof.
  induction s as [|c s IH]; rewrite exec_eq.
  - discriminate.
  - destruct (WordThenLit.match_at lit (String c s)) as [w'|] eqn:Hm.
    + intros [= <-]. apply match_at_sound in Hm as (Hne & Hall & post & Hs).
      exists "", post. now rewrite Hs.
    + intros H. destruct (IH H) as (pre & post & -> & Hne & Hall).
      now exists (String c pre), post.
Qed.

Lemma exec_complete (lit s w : string) :
  captures lit s w -> WordThenLit.exec lit s <> None.
Proof.
  intros (pre & post & -> & Hne & Hall).
  induction pre as [|c pre IH]; rewrite exec_eq.
  - pose proof (match_at_complete lit w post Hne Hall) as H. simpl.
    destruct (WordThenLit.match_at lit (w ++ lit ++ post)); [discriminate | congruence].
  - destruct (WordThenLit.match_at lit _); [discriminate | exact IH].
Qed.

(** A line has a capture exactly when the search finds one. *)
Lemma exec_none_iff (lit s : string) :
  WordThenLit.exec lit s = None <-> forall w, ~ captures lit s w.
Proof.
  split.
  - intros H w Hw. now apply (exec_complete lit s w).
  - intros H. destruct (WordThenLit.exec lit s) as [w|] eqn:E; [|reflexivity].
    exfalso. apply (H w). now apply exec_sound.
Qed.

(** ** The classifier *)

Example parse_alice :
  parseMinecraftLog "Alice joined the game"
  = ParsedLog.mk Player "🟢 Alice joined the game" "Alice joined the game".
Proof. reflexivity. Qed.

Example parse_bare :
  parseMinecraftLog "joined the game"
  = ParsedLog.mk Player "🟢 undefined joined the game" "joined the game".
Proof. reflexivity. Qed.

(** The leftmost name is the one reported, whatever follows it. *)
Example parse_two_joins :
  ParsedLog.message
    (parseMinecraftLog "[12:00:01 INFO]: Bob joined the game, Eve joined the game")
  = "🟢 Bob joined the game".
Proof. reflexivity. Qed.

(** A join line that carries a chat bracket or an error marker is a join
    line: the earlier rule wins. *)
Example parse_join_before_chat_and_error :
  ParsedLog.type (parseMinecraftLog "<ERROR> Carol joined the game") = Player
  /\ ParsedLog.message (parseMinecraftLog "<ERROR> Carol joined the game")
     = "🟢 Carol joined the game".
Proof. split; reflexivity. Qed.

(** The reading of an ordered table: the rule at position [i] decides as soon
    as none before it applies. *)
Lemma first_match_at (rs : list RuleTable.rule) (m : string) (i : nat) (r : RuleTable.rule) :
  nth_error rs i = Some r ->
  RuleTable.applies r m = true ->
  (forall j r', (j < i)%nat -> nth_error rs j = Some r' -> RuleTable.applies r' m = false) ->
  RuleTable.first_match rs m = (RuleTable.category r, RuleTable.decorate r m).
Proof.
  revert i; induction rs as [|r0 rs IH]; intros i Hi Hr Hbefore.
  - destruct i; discriminate.
  - destruct i as [|i]; simpl in *.
    + injection Hi as ->. now rewrite Hr.
    + rewrite (Hbefore 0%nat r0); [|lia|reflexivity].
      apply (IH i); [exact Hi | exact Hr |].
      intros j r' Hj Hn. apply (Hbefore (S j) r'); [lia | exact Hn].
Qed.

Lemma first_match_default (rs : list RuleTable.rule) (m : string) :
  (forall r, In r rs -> RuleTable.applies r m = false) ->
  RuleTable.first_match rs m = (Info, m).
Proof.
  induction rs as [|r0 rs IH]; intros H; simpl; [reflexivity|].
  rewrite (H r0) by now left. apply IH. intros r Hr. apply H. now right.
Qed.

Lemma parseMinecraftLog_classify (message : string) :
  (ParsedLog.type (parseMinecraftLog message),
   ParsedLog.message (parseMinecraftLog message))
  = RuleTable.classify message.
Proof.
  cbv [parseMinecraftLog RuleTable.classify RuleTable.classify_rules
       RuleTable.first_match RuleTable.applies RuleTable.category
       RuleTable.decorate RuleTable.help_prompt].
  repeat match goal with
         | |- context [if ?b then _ else _] => destruct b; [reflexivity|]
         end.
  reflexivity.
Qed.

Lemma parseMinecraftLog_original (message : string) :
  ParsedLog.original (parseMinecraftLog message) = message.
Proof.
  unfold parseMinecraftLog.
  repeat match goal with
         | |- context [if ?b then _ else _] => destruct b; [reflexivity|]
         end.
  reflexivity.
Qed.

(** C6. The classifier is a total function of the line alone: every line,
    the empty one included, gets a category and a decorated message, which are
    those of the first rule of the ordered table that applies (the line
    itself, as info, when none does); the raw line is kept beside them; and
    "Alice joined the game" is a player line whose decorated message contains
    "Alice" and "joined". *)
Theorem classifier_total_first_match_wins :
  (forall message : string,
      (ParsedLog.type (parseMinecraftLog message),
       ParsedLog.message (parseMinecraftLog message))
      = RuleTable.classify message
      /\ ParsedLog.original (parseMinecraftLog message) = message)
  /\ parseMinecraftLog "" = ParsedLog.mk Info "" ""
  /\ ParsedLog.type (parseMinecraftLog "Alice joined the game") = Player
  /\ Js.includes (ParsedLog.message (parseMinecraftLog "Alice joined the game")) "Alice" = true
  /\ Js.includes (ParsedLog.message (parseMinecraftLog "Alice joined the game")) "joined" = true.
Proof.
  split; [|repeat split].
  intros message. split.
  - apply parseMinecraftLog_classify.
  - apply parseMinecraftLog_original.
Qed.

(** C10. A line that contains "joined the game" and in which no non-empty run
    of word characters is followed by " joined the game" is still a player
    line, and its decorated message has the text "undefined" where the name
    would be. *)
Theorem join_without_name_reads_undefined (message : string) :
  (exists pre post, message = pre ++ "joined the game" ++ post) ->
  (forall w, ~ captures " joined the game" message w) ->
  ParsedLog.type (parseMinecraftLog message) = Player
  /\ ParsedLog.message (parseMinecraftLog message) = "🟢 undefined joined the game"
  /\ Js.includes (ParsedLog.message (parseMinecraftLog message)) "undefined" = true.
Proof.
  intros Hin Hno.
  apply includes_iff in Hin. apply exec_none_iff in Hno.
  unfold parseMinecraftLog. rewrite Hin, Hno. repeat split.
Qed.

Lemma join_without_name_reads_undefined_witness :
  ParsedLog.type (parseMinecraftLog "?! joined the game") = Player
  /\ ParsedLog.message (parseMinecraftLog "?! joined the game")
     = "🟢 undefined joined the game"
  /\ Js.includes (ParsedLog.message (parseMinecraftLog "?! joined the game")) "undefined" = true.
Proof.
  apply (join_without_name_reads_undefined "?! joined the game").
  - exists "?! ", "". reflexivity.
  - apply exec_none_iff. reflexivity.
Defined.

(** ** The log buffer *)

Lemma slice_last_short {A : Type} (n : nat) (l : list A) :
  (length l <= n)%nat -> slice_last n l = l.
Proof.
  intros H. unfold slice_last. replace (length l - n)%nat with 0%nat by lia.
  reflexivity.
Qed.

Lemma slice_last_length {A : Type} (n : nat) (l : list A) :
  length (slice_last n l) = Nat.min n (length l).
Proof. unfold slice_last. rewrite length_skipn. lia. Qed.

Lemma slice_last_app {A : Type} (n : nat) (l l2 : list A) :
  slice_last n (slice_last n l ++ l2) = slice_last n (l ++ l2).
Proof.
  unfold slice_last.
  assert (E : (skipn (length l - n) l ++ l2 = skipn (length l - n) (l ++ l2))%list).
  { rewrite skipn_app. replace (length l - n - length l)%nat with 0%nat by lia.
    reflexivity. }
  rewrite E, skipn_skipn, length_skipn, !length_app. f_equal. lia.
Qed.

(** What one call of [broadcastLog] does: the entry is appended, the buffer
    is cut back to its last [maxLogs] entries, and the entry is emitted. *)
Lemma broadcastLog_run (message : string) (type : LogType) (s : State) :
  broadcastLog message type s
  = (Ok tt,
     let e := LogEntry.mk (iso (clock s)) message type (localTime (clock s)) in
     set_events (events s ++ [Emit e]) (set_logs (slice_last maxLogs (logs s ++ [e])) s)).
Proof.
  destruct s as [a b c d e f g h i j k l m n o p q r t u w x].
  unfold broadcastLog, bind, gets, modify, when, emit, ret. cbn [logs set_logs clock].
  cbn [logs set_logs events set_events clock].
  destruct (maxLogs <? length (h ++ _))%nat eqn:E; cbn [logs set_logs events set_events].
  - reflexivity.
  - apply Nat.ltb_ge in E. now rewrite slice_last_short.
Qed.

Lemma appendAll_cons (call : LogCall) (rest : list LogCall) (s : State) :
  appendAll (call :: rest) s
  = appendAll rest
      (set_events (events s ++ [Emit (logEntryOf call)])
         (set_logs (slice_last maxLogs (logs s ++ [logEntryOf call]))
            (set_clock (fst call) s))).
Proof.
  destruct call as [now [message type]].
  unfold appendAll at 1. cbn [forEach]. unfold bind at 1. unfold bind at 1.
  unfold modify at 1. rewrite broadcastLog_run.
  destruct s; reflexivity.
Qed.

Lemma appendAll_logs (calls : list LogCall) :
  forall s : State,
    fst (appendAll calls s) = Ok tt
    /\ logs (snd (appendAll calls s))
       = match calls with
         | [] => logs s
         | _ :: _ => slice_last maxLogs (logs s ++ map logEntryOf calls)
         end.
Proof.
  induction calls as [|call rest IH]; intros s.
  - split; reflexivity.
  - rewrite appendAll_cons.
    destruct (IH (set_events (events s ++ [Emit (logEntryOf call)])
                    (set_logs (slice_last maxLogs (logs s ++ [logEntryOf call]))
                       (set_clock (fst call) s)))) as [Hok Hlogs].
    split; [exact Hok|]. rewrite Hlogs.
    replace (logs (set_events (events s ++ [Emit (logEntryOf call)])
                    (set_logs (slice_last maxLogs (logs s ++ [logEntryOf call]))
                       (set_clock (fst call) s))))
      with (slice_last maxLogs (logs s ++ [logEntryOf call]))
      by (destruct s; reflexivity).
    destruct rest as [|call' rest'].
    + reflexivity.
    + rewrite slice_last_app, <- app_assoc. reflexivity.
Qed.

Lemma appendAll_within_capacity (s : State) (calls : list LogCall) :
  (length (logs s) <= maxLogs)%nat ->
  (length (logs (snd (appendAll calls s))) <= maxLogs)%nat
  /\ logs (snd (appendAll calls s)) = slice_last maxLogs (logs s ++ map logEntryOf calls).
Proof.
  intros H. destruct (appendAll_logs calls s) as [_ Hlogs]. rewrite Hlogs.
  destruct calls as [|call rest].
  - rewrite app_nil_r, slice_last_short by exact H. split; [exact H | reflexivity].
  - split; [|reflexivity]. rewrite slice_last_length. lia.
Qed.

Lemma appendAll_beyond_capacity (s : State) (calls : list LogCall) (extra : nat) :
  length calls = (maxLogs + extra)%nat ->
  logs (snd (appendAll calls s)) = map logEntryOf (skipn extra calls).
Proof.
  intros H. destruct (appendAll_logs calls s) as [_ Hlogs]. rewrite Hlogs.
  destruct calls as [|call rest].
  - simpl in H. assert (E : extra = 0%nat) by lia. subst extra.
    unfold maxLogs in H. discriminate.
  - unfold slice_last. rewrite skipn_app, length_app, length_map, H.
    rewrite (skipn_all2 (logs s)) by lia.
    replace (length (logs s) + (maxLogs + extra) - maxLogs - length (logs s))%nat
      with extra by lia.
    now rewrite skipn_map.
Qed.

(** C7. Appending never leaves more than 1000 entries in the buffer: after
    any sequence of appends to a buffer within its capacity, the buffer holds
    the last 1000 entries of what it held followed by what was appended, in
    that order (the oldest ones are the ones dropped); and after 1500 appends
    to any buffer the snapshot has exactly 1000 entries, the last 1000 that
    were appended, in the order of the appends. *)
Theorem log_buffer_keeps_the_last_1000 :
  (forall (s : State) (calls : list LogCall),
      (length (logs s) <= 1000)%nat ->
      fst (appendAll calls s) = Ok tt
      /\ (length (snapshot (snd (appendAll calls s))) <= 1000)%nat
      /\ snapshot (snd (appendAll calls s))
         = skipn (length (logs s ++ map logEntryOf calls) - 1000)
             (logs s ++ map logEntryOf calls))
  /\ (forall (s : State) (calls : list LogCall),
         length calls = 1500%nat ->
         length (snapshot (snd (appendAll calls s))) = 1000%nat
         /\ snapshot (snd (appendAll calls s)) = map logEntryOf (skipn 500 calls)).
Proof.
  split; intros s calls H.
  - split; [apply appendAll_logs|]. exact (appendAll_within_capacity s calls H).
  - pose proof (appendAll_beyond_capacity s calls 500 H) as E.
    unfold snapshot. rewrite E. split; [|reflexivity].
    rewrite length_map, length_skipn, H. reflexivity.
Qed.

Lemma log_buffer_keeps_the_last_1000_witness :
  let s := fresh defaultConfig (mkClock 0 "" "") (Fs.Dir true []) in
  (fst (appendAll (numbered_calls 3) s) = Ok tt
   /\ (length (snapshot (snd (appendAll (numbered_calls 3) s))) <= 1000)%nat
   /\ snapshot (snd (appendAll (numbered_calls 3) s))
      = skipn (length (logs s ++ map logEntryOf (numbered_calls 3)) - 1000)
          (logs s ++ map logEntryOf (numbered_calls 3)))
  /\ (length (snapshot (snd (appendAll (numbered_calls 1500) s))) = 1000%nat
      /\ snapshot (snd (appendAll (numbered_calls 1500) s))
         = map logEntryOf (skipn 500 (numbered_calls 1500))).
Proof.
  intros s. split.
  - apply (proj1 log_buffer_keeps_the_last_1000 s (numbered_calls 3)).
    simpl. lia.
  - apply (proj2 log_buffer_keeps_the_last_1000 s (numbered_calls 1500)).
    vm_compute. reflexivity.
Defined.

(** ** The tunnel supervisor: binding lines *)

Lemma line_terminator_is_space (c : ascii) :
  Js.is_line_terminator c = true -> Js.is_space c = true.
Proof.
  unfold Js.is_line_terminator, Js.is_space, Js.in_range.
  intros H. apply orb_prop in H as [H|H]; apply Nat.eqb_eq in H; rewrite H; reflexivity.
Qed.

Lemma arrow_local_port_no_space (c : ascii) (s : string) :
  Js.is_space c = false -> Re.arrow_local_port (String c s) = None.
Proof. intros H. unfold Re.arrow_local_port. simpl. now rewrite H. Qed.

(** An address without white space, followed by the arrow and the local
    end point, is what the lazy group stops at. *)
Lemma tunnel_from_address (tail port : string) :
  Re.arrow_local_port tail = Some port ->
  forall addr acc,
    addr <> "" -> Js.all_chars no_space addr = true ->
    Re.tunnel_from acc (addr ++ tail) = Some (acc ++ addr, port).
Proof.
  intros Htail addr. induction addr as [|c addr IH]; intros acc Hne Hall; [congruence|].
  simpl in Hall. apply andb_prop in Hall as [Hc Hall].
  unfold no_space in Hc. apply negb_true_iff in Hc.
  simpl. destruct (Js.is_line_terminator c) eqn:Hlt.
  { apply line_terminator_is_space in Hlt. congruence. }
  destruct addr as [|c' addr].
  - simpl. now rewrite Htail.
  - simpl in Hall. pose proof Hall as Hall'. apply andb_prop in Hall' as [Hc' _].
    unfold no_space in Hc'. apply negb_true_iff in Hc'.
    change (String c' addr ++ tail) with (String c' (addr ++ tail)).
    rewrite (arrow_local_port_no_space c' _ Hc').
    change (String c' (addr ++ tail)) with (String c' addr ++ tail).
    rewrite IH by (discriminate || exact Hall).
    now rewrite append_assoc.
Qed.

Lemma trimStart_no_space (s : string) :
  Js.all_chars no_space s = true -> Js.trimStart s = s.
Proof.
  destruct s as [|c s]; simpl; [reflexivity|].
  intros H. apply andb_prop in H as [Hc _].
  unfold no_space in Hc. apply negb_true_iff in Hc. now rewrite Hc.
Qed.

Lemma trimEnd_no_space (s : string) :
  Js.all_chars no_space s = true -> Js.trimEnd s = s.
Proof.
  induction s as [|c s IH]; simpl; [reflexivity|].
  intros H. apply andb_prop in H as [Hc Hs].
  unfold no_space in Hc. apply negb_true_iff in Hc.
  rewrite (IH Hs), Hc. now destruct s.
Qed.

Lemma trim_no_space (s : string) :
  Js.all_chars no_space s = true -> Js.trim s = s.
Proof.
  intros H. unfold Js.trim. rewrite trimStart_no_space by exact H.
  now apply trimEnd_no_space.
Qed.

Lemma split_lines_no_space (addr tail : string) :
  Js.all_chars no_space addr = true ->
  Js.split_lines tail = [tail] ->
  Js.split_lines (addr ++ tail) = [addr ++ tail].
Proof.
  intros Hall Htail. induction addr as [|c addr IH]; simpl; [exact Htail|].
  simpl in Hall. apply andb_prop in Hall as [Hc Hall].
  rewrite (IH Hall).
  destruct (nat_of_ascii c =? 10)%nat eqn:E; [|reflexivity].
  unfold no_space, Js.is_space, Js.in_range in Hc.
  apply Nat.eqb_eq in E. rewrite E in Hc. discriminate.
Qed.

(** One line that binds the Java port. *)
Lemma parsePlayitLine_java (line group1 : string) (found : bool) (s : State) :
  Re.tunnelMatch line = Some (group1, "25565") ->
  parsePlayitLine line found s
  = (Ok true,
     let address := Js.trim group1 in
     if differs (java (playitAddresses s)) address then
       let e := LogEntry.mk (iso (clock s)) ("🎮 Java tunnel ready: " ++ address)
                  Success (localTime (clock s)) in
       set_events (events s ++ [Emit e])
         (set_logs (slice_last maxLogs (logs s ++ [e]))
            (set_playitAddresses
               (mkAddresses (Some address) (bedrock (playitAddresses s))) s))
     else s).
Proof.
  intros H. unfold parsePlayitLine. rewrite H.
  change ("25565" =? "25565")%string with true. cbv iota.
  unfold bind at 1. unfold bind at 1. unfold gets at 1. cbv iota beta.
  destruct (differs (java (playitAddresses s)) (Js.trim group1)); unfold when.
  - unfold bind at 1. unfold modify at 1. cbv iota beta.
    rewrite broadcastLog_run. destruct s; reflexivity.
  - reflexivity.
Qed.

(** One line that binds the Bedrock port. *)
Lemma parsePlayitLine_bedrock (line group1 : string) (found : bool) (s : State) :
  Re.tunnelMatch line = Some (group1, "19132") ->
  parsePlayitLine line found s
  = (Ok true,
     let address := Js.trim group1 in
     if differs (bedrock (playitAddresses s)) address then
       let e := LogEntry.mk (iso (clock s)) ("📱 Bedrock tunnel ready: " ++ address)
                  Success (localTime (clock s)) in
       set_events (events s ++ [Emit e])
         (set_logs (slice_last maxLogs (logs s ++ [e]))
            (set_playitAddresses
               (mkAddresses (java (playitAddresses s)) (Some address)) s))
     else s).
Proof.
  intros H. unfold parsePlayitLine. rewrite H.
  change ("19132" =? "25565")%string with false.
  change ("19132" =? "19132")%string with true. cbv iota.
  unfold bind at 1. unfold bind at 1. unfold gets at 1. cbv iota beta.
  destruct (differs (bedrock (playitAddresses s)) (Js.trim group1)); unfold when.
  - unfold bind at 1. unfold modify at 1. cbv iota beta.
    rewrite broadcastLog_run. destruct s; reflexivity.
  - reflexivity.
Qed.

Lemma tunnelMatch_address (addr tail port : string) :
  Re.arrow_local_port tail = Some port ->
  addr <> "" -> Js.all_chars no_space addr = true ->
  Re.tunnelMatch (addr ++ tail) = Some (addr, port).
Proof.
  intros Htail Hne Hall. unfold Re.tunnelMatch.
  now rewrite (tunnel_from_address tail port Htail addr "" Hne Hall).
Qed.

Lemma differs_false (stored : option string) (address : string) :
  differs stored address = false -> stored = Some address.
Proof.
  destruct stored as [a|]; simpl; [|discriminate].
  intros H. apply negb_false_iff, String.eqb_eq in H. now subst.
Qed.

Lemma parsePlayitOutput_one_line (output : string) (s : State) :
  Js.split_lines output = [output] ->
  parsePlayitOutput output s = parsePlayitLine output false s.
Proof.
  intros H. unfold parsePlayitOutput. rewrite H. cbn [parsePlayitLines].
  unfold bind. destruct (parsePlayitLine output false s) as [[found| |] s']; reflexivity.
Qed.

Lemma parsePlayitOutput_java_line (s : State) (addr : string) :
  addr <> "" ->
  Js.all_chars no_space addr = true ->
  parsePlayitOutput (addr ++ " => 127.0.0.1:25565") s
  = (Ok true,
     if differs (java (playitAddresses s)) addr then
       let e := logEntryOf (clock s, ("🎮 Java tunnel ready: " ++ addr, Success)) in
       set_events (events s ++ [Emit e])
         (set_logs (slice_last maxLogs (logs s ++ [e]))
            (set_playitAddresses
               (mkAddresses (Some addr) (bedrock (playitAddresses s))) s))
     else s).
Proof.
  intros Hne Hall.
  rewrite parsePlayitOutput_one_line
    by (apply split_lines_no_space; [exact Hall | reflexivity]).
  rewrite (parsePlayitLine_java _ addr)
    by (apply tunnelMatch_address; [reflexivity | exact Hne | exact Hall]).
  cbv zeta. now rewrite (trim_no_space addr Hall).
Qed.

Lemma parsePlayitOutput_bedrock_line (s : State) (addr : string) :
  addr <> "" ->
  Js.all_chars no_space addr = true ->
  parsePlayitOutput (addr ++ " => 127.0.0.1:19132") s
  = (Ok true,
     if differs (bedrock (playitAddresses s)) addr then
       let e := logEntryOf (clock s, ("📱 Bedrock tunnel ready: " ++ addr, Success)) in
       set_events (events s ++ [Emit e])
         (set_logs (slice_last maxLogs (logs s ++ [e]))
            (set_playitAddresses
               (mkAddresses (java (playitAddresses s)) (Some addr)) s))
     else s).
Proof.
  intros Hne Hall.
  rewrite parsePlayitOutput_one_line
    by (apply split_lines_no_space; [exact Hall | reflexivity]).
  rewrite (parsePlayitLine_bedrock _ addr)
    by (apply tunnelMatch_address; [reflexivity | exact Hne | exact Hall]).
  cbv zeta. now rewrite (trim_no_space addr Hall).
Qed.

Lemma differs_true (stored : option string) (address : string) :
  differs stored address = true -> stored <> Some address.
Proof.
  destruct stored as [a|]; simpl; [|discriminate].
  intros H [= ->]. now rewrite String.eqb_refl in H.
Qed.

(** C8. A tunnel line made of an address (ASCII, without white space), the
    arrow and the local end point 127.0.0.1:25565 sets the Java binding to
    that address and leaves the Bedrock binding as it was; with
    127.0.0.1:19132 it sets the Bedrock binding and leaves the Java binding
    as it was.  When the address is the one stored before, nothing is logged:
    the log and what was sent are as they were.  When it is not, one success
    entry is appended and sent. *)
Theorem tunnel_line_sets_one_binding (s : State) (addr : string) :
  addr <> "" ->
  Js.is_ascii addr = true ->
  Js.all_chars no_space addr = true ->
  (let r := parsePlayitOutput (addr ++ " => 127.0.0.1:25565") s in
   let e := logEntryOf (clock s, ("🎮 Java tunnel ready: " ++ addr, Success)) in
   fst r = Ok true
   /\ java (playitAddresses (snd r)) = Some addr
   /\ bedrock (playitAddresses (snd r)) = bedrock (playitAddresses s)
   /\ (java (playitAddresses s) = Some addr ->
       events (snd r) = events s /\ logs (snd r) = logs s)
   /\ (java (playitAddresses s) <> Some addr ->
       events (snd r) = (events s ++ [Emit e])%list
       /\ logs (snd r) = slice_last maxLogs (logs s ++ [e])))
  /\
  (let r := parsePlayitOutput (addr ++ " => 127.0.0.1:19132") s in
   let e := logEntryOf (clock s, ("📱 Bedrock tunnel ready: " ++ addr, Success)) in
   fst r = Ok true
   /\ bedrock (playitAddresses (snd r)) = Some addr
   /\ java (playitAddresses (snd r)) = java (playitAddresses s)
   /\ (bedrock (playitAddresses s) = Some addr ->
       events (snd r) = events s /\ logs (snd r) = logs s)
   /\ (bedrock (playitAddresses s) <> Some addr ->
       events (snd r) = (events s ++ [Emit e])%list
       /\ logs (snd r) = slice_last maxLogs (logs s ++ [e]))).
Proof.
  intros Hne _ Hall. split.
  - rewrite (parsePlayitOutput_java_line s addr Hne Hall). cbv zeta.
    destruct (differs (java (playitAddresses s)) addr) eqn:D.
    + apply differs_true in D. cbn [fst snd].
      destruct s as [a b c d e f g h i j k l m n o p q r t u w x].
      simpl in D.
      split; [reflexivity|]. split; [reflexivity|]. split; [reflexivity|].
      split; [intros Heq; contradiction | intros _; split; reflexivity].
    + apply differs_false in D. cbn [fst snd].
      split; [reflexivity|]. split; [exact D|]. split; [reflexivity|].
      split; [intros _; split; reflexivity | intros Hd; contradiction].
  - rewrite (parsePlayitOutput_bedrock_line s addr Hne Hall). cbv zeta.
    destruct (differs (bedrock (playitAddresses s)) addr) eqn:D.
    + apply differs_true in D. cbn [fst snd].
      destruct s as [a b c d e f g h i j k l m n o p q r t u w x].
      simpl in D.
      split; [reflexivity|]. split; [reflexivity|]. split; [reflexivity|].
      split; [intros Heq; contradiction | intros _; split; reflexivity].
    + apply differs_false in D. cbn [fst snd].
      split; [reflexivity|]. split; [exact D|]. split; [reflexivity|].
      split; [intros _; split; reflexivity | intros Hd; contradiction].
Qed.

Lemma tunnel_line_sets_one_binding_witness :
  let s := manager_tunnel_bound in
  let addr := "myaddr.playit.gg" in
  (let r := parsePlayitOutput (addr ++ " => 127.0.0.1:25565") s in
   let e := logEntryOf (clock s, ("🎮 Java tunnel ready: " ++ addr, Success)) in
   fst r = Ok true
   /\ java (playitAddresses (snd r)) = Some addr
   /\ bedrock (playitAddresses (snd r)) = bedrock (playitAddresses s)
   /\ (java (playitAddresses s) = Some addr ->
       events (snd r) = events s /\ logs (snd r) = logs s)
   /\ (java (playitAddresses s) <> Some addr ->
       events (snd r) = (events s ++ [Emit e])%list
       /\ logs (snd r) = slice_last maxLogs (logs s ++ [e])))
  /\
  (let r := parsePlayitOutput (addr ++ " => 127.0.0.1:19132") s in
   let e := logEntryOf (clock s, ("📱 Bedrock tunnel ready: " ++ addr, Success)) in
   fst r = Ok true
   /\ bedrock (playitAddresses (snd r)) = Some addr
   /\ java (playitAddresses (snd r)) = java (playitAddresses s)
   /\ (bedrock (playitAddresses s) = Some addr ->
       events (snd r) = events s /\ logs (snd r) = logs s)
   /\ (bedrock (playitAddresses s) <> Some addr ->
       events (snd r) = (events s ++ [Emit e])%list
       /\ logs (snd r) = slice_last maxLogs (logs s ++ [e]))).
Proof.
  intros s addr. apply (tunnel_line_sets_one_binding manager_tunnel_bound "myaddr.playit.gg").
  - discriminate.
  - reflexivity.
  - reflexivity.
Defined.

(** At [manager_tunnel_bound] the Java binding is the address of the line
    and the Bedrock port is not bound: the first line logs nothing, the
    second logs the Bedrock binding. *)
Example tunnel_line_logged_when_new :
  let s := manager_tunnel_bound in
  java (playitAddresses s) = Some "myaddr.playit.gg"
  /\ bedrock (playitAddresses s) = None
  /\ events (snd (parsePlayitOutput "myaddr.playit.gg => 127.0.0.1:25565" s)) = events s
  /\ events (snd (parsePlayitOutput "myaddr.playit.gg => 127.0.0.1:19132" s))
     = (events s
        ++ [Emit (logEntryOf (clock s, ("📱 Bedrock tunnel ready: myaddr.playit.gg",
                                       Success)))])%list.
Proof. vm_compute. repeat split. Qed.

(** The same line once more changes nothing and logs nothing. *)
Lemma tunnel_line_repeated (s : State) (addr : string) :
  addr <> "" ->
  Js.all_chars no_space addr = true ->
  let line := addr ++ " => 127.0.0.1:25565" in
  let s1 := snd (parsePlayitOutput line s) in
  parsePlayitOutput line s1 = (Ok true, s1).
Proof.
  intros Hne Hall line s1. unfold line.
  rewrite (parsePlayitOutput_java_line s1 addr Hne Hall).
  replace (java (playitAddresses s1)) with (Some addr).
  - unfold differs. now rewrite String.eqb_refl.
  - unfold s1, line. rewrite (parsePlayitOutput_java_line s addr Hne Hall).
    destruct (differs (java (playitAddresses s)) addr) eqn:D.
    + destruct s; reflexivity.
    + apply differs_false in D. cbn [snd]. now rewrite D.
Qed.

(** ** Running a method on a symbolic state *)

Ltac simp_state :=
  cbn [minecraftProcess playitProcess localIP publicIP serverStatus startTime
       serverReady logs config playitInstalled playitPath playitAddresses
       lastPlayitOutput playitTunnelsDetected playitSetupUrl clock disk
       configFile configFileWritable alive nextHandle events
       set_minecraftProcess set_playitProcess set_serverStatus set_startTime
       set_serverReady set_logs set_config set_playitAddresses
       set_lastPlayitOutput set_playitTunnelsDetected set_playitSetupUrl
       set_disk set_configFile set_alive set_nextHandle set_events set_clock
       set_playitInstalled java bedrock fst snd].

Create Rewrite HintDb run.
#[local] Hint Rewrite broadcastLog_run : run.

Ltac run :=
  repeat first
    [ progress unfold bind, ret, gets, modify, when, emit, kill, stdin_write,
        throw, try_catch, out_of_fuel, lift_fs
    | progress autorewrite with run
    | progress simp_state
    | progress cbv beta iota zeta ].

Example scenario_states :
  serverStatus manager_starting = starting
  /\ playitSetupUrl manager_setup_pending = Some "https://playit.gg/claim/abc123"
  /\ serverStatus manager_online = online
  /\ serverStatus manager_stopping = stopping
  /\ minecraftProcess manager_stopping = Some 1%nat
  /\ alive manager_stopping = [1%nat; 0%nat].
Proof. vm_compute. repeat split. Qed.

(** ** The tunnel supervisor: stopping *)

Lemma clear_addresses_run (s : State) :
  clear_addresses s = (Ok tt, set_playitAddresses (mkAddresses None None) s).
Proof. destruct s. reflexivity. Qed.
#[local] Hint Rewrite clear_addresses_run : run.

Lemma resetPlayitState_run (s : State) :
  resetPlayitState s
  = (Ok tt,
     set_playitSetupUrl None
       (set_playitTunnelsDetected false
          (set_playitAddresses (mkAddresses None None) s))).
Proof. destruct s. reflexivity. Qed.
#[local] Hint Rewrite resetPlayitState_run : run.

Lemma stopPlayitTunnel_run (s : State) :
  stopPlayitTunnel s
  = (Ok tt,
     match playitProcess s with
     | Some h =>
         let e := logEntryOf (clock s, ("🌐 Stopping Playit tunnels...", Info)) in
         set_playitTunnelsDetected false
           (set_playitAddresses (mkAddresses None None)
              (set_playitProcess None
                 (set_events (events s ++ [Emit e; Kill h "SIGTERM"])
                    (set_logs (slice_last maxLogs (logs s ++ [e])) s))))
     | None => s
     end).
Proof.
  destruct s as [a b c d e f g h i j k l m n o p q r t u w x].
  unfold stopPlayitTunnel. destruct b as [hd|]; run; [|reflexivity].
  now rewrite <- app_assoc.
Qed.
#[local] Hint Rewrite stopPlayitTunnel_run : run.

(** [stopPlayitTunnel] by itself does not touch the setup URL; the manager
    never calls it by itself. *)
Example stop_tunnel_keeps_setup_url :
  playitProcess manager_setup_pending = Some 0%nat
  /\ playitSetupUrl (snd (stopPlayitTunnel manager_setup_pending))
     = Some "https://playit.gg/claim/abc123".
Proof. vm_compute. repeat split. Qed.

(** C9. The manager stops the tunnel by [resetPlayitState] followed by
    [stopPlayitTunnel], at both places where it does: in
    [stopMinecraftServer] and in the exit listener of the server.  While a
    tunnel process runs, that sequence logs the stop, sends SIGTERM to the
    process and, in the same call, without waiting for the process to exit,
    clears the process handle, both port bindings, the tunnels-detected flag
    and the setup URL.  So it is after [stopMinecraftServer], when a server
    process is held, and after the exit listener: the tunnel was sent
    SIGTERM, and neither a binding nor a setup URL is left. *)
Theorem stop_tunnel_clears_bindings (s : State) (h : Handle) :
  playitProcess s = Some h ->
  (let r := (resetPlayitState ;; stopPlayitTunnel) s in
   fst r = Ok tt
   /\ events (snd r)
      = (events s
         ++ [Emit (logEntryOf (clock s, ("🌐 Stopping Playit tunnels...", Info)));
             Kill h "SIGTERM"])%list
   /\ playitProcess (snd r) = None
   /\ playitAddresses (snd r) = mkAddresses None None
   /\ playitTunnelsDetected (snd r) = false
   /\ playitSetupUrl (snd r) = None
   /\ alive (snd r) = alive s)
  /\ (forall m, minecraftProcess s = Some m ->
        let r := stopMinecraftServer s in
        fst r = Ok tt
        /\ In (Kill h "SIGTERM") (events (snd r))
        /\ playitProcess (snd r) = None
        /\ playitAddresses (snd r) = mkAddresses None None
        /\ playitSetupUrl (snd r) = None)
  /\ (forall code,
        let r := onMinecraftClose code s in
        fst r = Ok tt
        /\ In (Kill h "SIGTERM") (events (snd r))
        /\ playitProcess (snd r) = None
        /\ playitAddresses (snd r) = mkAddresses None None
        /\ playitSetupUrl (snd r) = None).
Proof.
  intros H.
  destruct s as [a b c d e f g hh i j k l m n o p q r t u w x].
  simpl in H. subst b. split; [|split].
  - cbv zeta. unfold bind. rewrite resetPlayitState_run, stopPlayitTunnel_run.
    simp_state. cbv zeta. simp_state. now repeat split.
  - intros mc Hm. simpl in Hm. subst a. cbv zeta.
    unfold stopMinecraftServer. run. rewrite <- !app_assoc.
    repeat split. apply in_or_app. right. cbn. auto.
  - intros code. cbv zeta.
    unfold onMinecraftClose. run.
    destruct (code_is_zero code); cbn [negb]; run; rewrite <- !app_assoc;
      (repeat split; apply in_or_app; right; cbn; auto).
Qed.

Lemma stop_tunnel_clears_bindings_witness :
  let s := manager_tunnel_bound in
  (playitProcess s = Some 0%nat
   /\ minecraftProcess s = Some 1%nat
   /\ playitAddresses s = mkAddresses (Some "myaddr.playit.gg") None
   /\ playitSetupUrl s = Some "https://playit.gg/claim/abc123")
  /\ (let r := (resetPlayitState ;; stopPlayitTunnel) s in
      fst r = Ok tt
      /\ events (snd r)
         = (events s
            ++ [Emit (logEntryOf (clock s, ("🌐 Stopping Playit tunnels...", Info)));
                Kill 0%nat "SIGTERM"])%list
      /\ playitProcess (snd r) = None
      /\ playitAddresses (snd r) = mkAddresses None None
      /\ playitTunnelsDetected (snd r) = false
      /\ playitSetupUrl (snd r) = None
      /\ alive (snd r) = alive s)
  /\ (let r := stopMinecraftServer s in
      fst r = Ok tt
      /\ In (Kill 0%nat "SIGTERM") (events (snd r))
      /\ playitProcess (snd r) = None
      /\ playitAddresses (snd r) = mkAddresses None None
      /\ playitSetupUrl (snd r) = None)
  /\ (let r := onMinecraftClose (Some 0%Z) s in
      fst r = Ok tt
      /\ In (Kill 0%nat "SIGTERM") (events (snd r))
      /\ playitProcess (snd r) = None
      /\ playitAddresses (snd r) = mkAddresses None None
      /\ playitSetupUrl (snd r) = None).
Proof.
  intros s.
  pose proof (stop_tunnel_clears_bindings manager_tunnel_bound 0%nat eq_refl)
    as (A & B & C).
  split; [vm_compute; repeat split|].
  split; [exact A|].
  split; [exact (B 1%nat eq_refl) | exact (C (Some 0%Z))].
Defined.

(** ** The server supervisor: exit of the managed process *)

Lemma onMinecraftClose_run (code : option Z) (s : State) :
  onMinecraftClose code s
  = (Ok tt,
     let e_exit :=
       logEntryOf (clock s,
                   ("⏹️ Minecraft server exited with code " ++ template_code code,
                    if code_is_zero code then Info else Error)) in
     let e_tunnel := logEntryOf (clock s, ("🌐 Stopping Playit tunnels...", Info)) in
     let e_last :=
       logEntryOf (clock s,
                   if code_is_zero code
                   then ("✅ Server stopped normally.", Success)
                   else ("💥 Server crashed! Check the error messages above.", Error)) in
     let appended :=
       match playitProcess s with
       | Some _ => [e_exit; e_tunnel; e_last]
       | None => [e_exit; e_last]
       end in
     let done :=
       match playitProcess s with
       | Some h => [Emit e_exit; Emit e_tunnel; Kill h "SIGTERM"; Emit e_last]
       | None => [Emit e_exit; Emit e_last]
       end in
     set_events (events s ++ done)
       (set_logs (slice_last maxLogs (logs s ++ appended))
          (set_playitSetupUrl None
             (set_playitTunnelsDetected false
                (set_playitAddresses (mkAddresses None None)
                   (set_playitProcess None
                      (set_startTime None
                         (set_serverReady false
                            (set_serverStatus offline
                               (set_minecraftProcess None s)))))))))).
Proof.
  destruct s as [a b c d e f g h i j k l m n o p q r t u w x].
  unfold onMinecraftClose. run.
  destruct b as [hd|]; destruct (code_is_zero code); run; cbn [logEntryOf negb];
    run; repeat (rewrite slice_last_app || rewrite <- app_assoc); reflexivity.
Qed.

(** C5 (as the code has it). Whenever the managed process ends, in whatever
    state the manager is, the handler leaves the server offline with no
    process handle, no start time and the ready flag down; the tunnel has no
    process handle, no binding, no setup URL and its tunnels-detected flag
    down (a running tunnel is sent SIGTERM).  An exit code 0 is logged as an
    info entry "exited with code 0" followed by a success entry "Server
    stopped normally."; any other exit is logged as an error entry "exited
    with code ..." followed by an error entry "Server crashed! ...".  Nothing
    is spawned: the handler restarts nothing. *)
Theorem process_exit_resets_supervisor (s : State) (code : option Z) :
  let r := onMinecraftClose code s in
  let e_exit :=
    logEntryOf (clock s,
                ("⏹️ Minecraft server exited with code " ++ template_code code,
                 if code_is_zero code then Info else Error)) in
  let e_tunnel := logEntryOf (clock s, ("🌐 Stopping Playit tunnels...", Info)) in
  let e_last :=
    logEntryOf (clock s,
                if code_is_zero code
                then ("✅ Server stopped normally.", Success)
                else ("💥 Server crashed! Check the error messages above.", Error)) in
  fst r = Ok tt
  /\ serverStatus (snd r) = offline
  /\ minecraftProcess (snd r) = None
  /\ startTime (snd r) = None
  /\ serverReady (snd r) = false
  /\ playitProcess (snd r) = None
  /\ playitAddresses (snd r) = mkAddresses None None
  /\ playitTunnelsDetected (snd r) = false
  /\ playitSetupUrl (snd r) = None
  /\ events (snd r)
     = (events s
        ++ match playitProcess s with
           | Some h => [Emit e_exit; Emit e_tunnel; Kill h "SIGTERM"; Emit e_last]
           | None => [Emit e_exit; Emit e_last]
           end)%list
  /\ logs (snd r)
     = slice_last maxLogs
         (logs s ++ match playitProcess s with
                    | Some _ => [e_exit; e_tunnel; e_last]
                    | None => [e_exit; e_last]
                    end)
  /\ alive (snd r) = alive s
  /\ nextHandle (snd r) = nextHandle s.
Proof.
  cbv zeta. rewrite onMinecraftClose_run. cbv zeta.
  destruct s as [a b c d e f g h i j k l m n o p q r t u w x].
  simp_state. now repeat split.
Qed.

(** C5 as stated fails at exit code 0: the entry "Server stopped normally."
    is a success entry, and no info entry of the buffer speaks of a normal
    stop. *)
Lemma normal_exit_is_logged_as_success :
  let s' := snd (onMinecraftClose (Some 0%Z) manager_stopping) in
  (exists e, In e (logs s')
             /\ LogEntry.message e = "✅ Server stopped normally."
             /\ LogEntry.type e = Success)
  /\ ~ (exists e, In e (logs s')
                  /\ LogEntry.type e = Info
                  /\ Js.includes (LogEntry.message e) "stopped normally" = true).
Proof.
  cbv zeta. split.
  - exists (logEntryOf (clock0, ("✅ Server stopped normally.", Success))).
    split; [|split; reflexivity].
    vm_compute. repeat (first [left; reflexivity | right]).
  - intros [e [Hin [Hty Hmsg]]].
    assert (F : existsb (fun e => LogType_eqb (LogEntry.type e) Info
                                  && Js.includes (LogEntry.message e) "stopped normally")
                  (logs (snd (onMinecraftClose (Some 0%Z) manager_stopping))) = false)
      by (vm_compute; reflexivity).
    assert (T : existsb (fun e => LogType_eqb (LogEntry.type e) Info
                                  && Js.includes (LogEntry.message e) "stopped normally")
                  (logs (snd (onMinecraftClose (Some 0%Z) manager_stopping))) = true).
    { apply existsb_exists. exists e. split; [exact Hin|]. rewrite Hty, Hmsg. reflexivity. }
    rewrite F in T. discriminate T.
Qed.

(** ** The server supervisor: a start while the process is alive *)

Lemma startMinecraftServer_running (fuel : nat) (s : State) (h : Handle) :
  minecraftProcess s = Some h ->
  startMinecraftServer fuel s = broadcastLog "⚠️ Server already running" Warn s.
Proof.
  intros H. unfold startMinecraftServer. unfold bind at 1. unfold gets at 1.
  now rewrite H.
Qed.

(** In the states [starting] and [online] the route refuses and touches
    nothing. *)
Lemma postStart_refused (fuel : nat) (s : State) :
  serverStatus s = starting \/ serverStatus s = online ->
  postStart fuel s
  = (Ok (Response.mk false "Server is already starting or running" None), s).
Proof.
  intros H. unfold postStart. unfold bind at 1. unfold gets at 1.
  destruct H as [-> | ->]; reflexivity.
Qed.

Lemma postStart_stopping_run (fuel : nat) (s : State) (h : Handle) :
  serverStatus s = stopping ->
  minecraftProcess s = Some h ->
  postStart fuel s
  = (Ok (Response.mk true "Server is starting..." (Some "starting")),
     let e := logEntryOf (clock s, ("⚠️ Server already running", Warn)) in
     set_events (events s ++ [Emit e]) (set_logs (slice_last maxLogs (logs s ++ [e])) s)).
Proof.
  intros Hst Hproc. unfold postStart. unfold bind at 1. unfold gets at 1.
  rewrite Hst. cbn [Status_eqb orb]. unfold bind at 1.
  rewrite (startMinecraftServer_running fuel s h Hproc), broadcastLog_run.
  reflexivity.
Qed.

(** C4, at the state the code gets wrong.  While the server is stopping and
    its process is still alive, [POST /start] starts nothing: the status, the
    process handle and the processes alive are as before, and the only event
    is the warning "Server already running".  Yet the route answers with
    success, "Server is starting...", status "starting". *)
Theorem start_while_stopping_answers_success (fuel : nat) (s : State) (h : Handle) :
  serverStatus s = stopping ->
  minecraftProcess s = Some h ->
  let r := postStart fuel s in
  fst r = Ok (Response.mk true "Server is starting..." (Some "starting"))
  /\ serverStatus (snd r) = stopping
  /\ minecraftProcess (snd r) = Some h
  /\ alive (snd r) = alive s
  /\ nextHandle (snd r) = nextHandle s
  /\ events (snd r)
     = (events s ++ [Emit (logEntryOf (clock s, ("⚠️ Server already running", Warn)))])%list.
Proof.
  intros Hst Hproc. cbv zeta. rewrite (postStart_stopping_run fuel s h Hst Hproc).
  destruct s as [a b c d e f g hh i j k l m n o p q r t u w x].
  simpl in Hst, Hproc. subst. now repeat split.
Qed.

Lemma start_while_stopping_answers_success_witness :
  let r := postStart 1 manager_stopping in
  fst r = Ok (Response.mk true "Server is starting..." (Some "starting"))
  /\ serverStatus (snd r) = stopping
  /\ minecraftProcess (snd r) = Some 1%nat
  /\ alive (snd r) = alive manager_stopping
  /\ nextHandle (snd r) = nextHandle manager_stopping
  /\ events (snd r)
     = (events manager_stopping
        ++ [Emit (logEntryOf (clock manager_stopping,
                              ("⚠️ Server already running", Warn)))])%list.
Proof.
  apply (start_while_stopping_answers_success 1 manager_stopping 1%nat).
  - reflexivity.
  - reflexivity.
Defined.

(** ** World and seed: no world yet *)

Lemma saveConfig_run (s : State) :
  saveConfig s
  = if configFileWritable s then
      (Ok true,
       let e := logEntryOf (clock s, ("💾 Configuration saved successfully", Success)) in
       set_events (events s ++ [FsWriteConfig (config s); Emit e])
         (set_logs (slice_last maxLogs (logs s ++ [e]))
            (set_configFile (Some (config s)) s)))
    else
      (Ok false,
       let e := logEntryOf (clock s,
                            ("❌ Failed to save config: " ++ Fs.message Fs.EACCES, Error)) in
       set_events (events s ++ [FsWriteConfig (config s); Emit e])
         (set_logs (slice_last maxLogs (logs s ++ [e])) s)).
Proof.
  destruct s as [a b c d e f g h i j k l m n o p q r t u w x].
  unfold saveConfig, try_catch, fs_writeConfig. run.
  destruct t; run; rewrite <- app_assoc; reflexivity.
Qed.

Lemma updateWorldConfig_run (seed : string) (s : State) :
  updateWorldConfig seed s
  = (Ok tt,
     snd (saveConfig
            (set_config
               (Config.set_world
                  (Some (Config.mkWorld (Some seed) (Some seed) (Some false)))
                  (config s)) s))).
Proof.
  destruct s as [a b c d e f g h i j k l m n o p q r t u w x].
  unfold updateWorldConfig, ensure_world, assign_world. run.
  rewrite !saveConfig_run. simp_state.
  destruct i as [sv pf pl [wb|]]; cbn [Config.world Config.set_world]; run;
    cbn [Config.world Config.set_world Config.server Config.performance Config.playit
         Config.currentSeed Config.lastUsedSeed Config.worldGenerated Config.empty_block];
    destruct t; reflexivity.
Qed.

Lemma checkSeedChange_no_world (fuel : nat) (s : State) :
  Fs.existsSync (worldPath (config s)) (disk s) = false ->
  checkSeedChange fuel s
  = (Ok (SeedCheck.mk true no_world_exists None),
     let seed := configuredSeed (config s) in
     let e1 := logEntryOf (clock s, ("🌱 Checking world seed configuration...", Info)) in
     let e2 := logEntryOf (clock s, ("🆕 No existing world found - will generate new world", Info)) in
     let e3 := logEntryOf (clock s,
                           (if negb (seed =? "")%string
                            then "🌱 New world will use seed: " ++ seed
                            else "🎲 New world will use random seed", Info)) in
     snd (saveConfig
            (set_config
               (Config.set_world
                  (Some (Config.mkWorld (Some seed) (Some seed) (Some false)))
                  (config s))
               (set_events (events s ++ [FsExists (worldPath (config s));
                                         Emit e1; Emit e2; Emit e3])
                  (set_logs (slice_last maxLogs (logs s ++ [e1; e2; e3])) s))))).
Proof.
  intros H.
  destruct s as [a b c d e f g h i j k l m n o p q r t u w x].
  simp_state. simpl in H.
  unfold checkSeedChange, fs_existsSync. run. rewrite H. cbn [negb]. run.
  destruct (negb (configuredSeed i =? "")%string); run;
    rewrite updateWorldConfig_run; run;
    repeat (rewrite slice_last_app || rewrite <- app_assoc); reflexivity.
Qed.

Lemma or_default_empty (v : string) : Js.or_default v "" = v.
Proof.
  unfold Js.or_default. destruct (v =? "")%string eqn:E; [|reflexivity].
  now apply String.eqb_eq in E.
Qed.

(** C3 (with the condition under which the file is written).  When the
    world directory does not exist, whatever the seeds are, the evaluation
    answers [shouldCreateNew = true] with reason [no_world_exists]; the
    configuration of the manager keeps its settings and gets, as its
    world-tracking block, the [seed] setting of the [server] block (empty
    when none is configured) as both current and last-used seed, with
    [worldGenerated = false]; and that configuration is handed to the file
    system to be written.  The file holds it when the write is accepted; a
    refused write leaves the file as it was and is logged as an error.  The
    server directory is not touched. *)
Theorem no_world_means_new_world (fuel : nat) (s : State) :
  Fs.existsSync (worldPath (config s)) (disk s) = false ->
  let r := checkSeedChange fuel s in
  let seed := Config.seed (Config.server (config s)) in
  let updated :=
    Config.mk (Config.server (config s)) (Config.performance (config s))
      (Config.playit (config s))
      (Some (Config.mkWorld (Some seed) (Some seed) (Some false))) in
  fst r = Ok (SeedCheck.mk true no_world_exists None)
  /\ config (snd r) = updated
  /\ In (FsWriteConfig updated) (events (snd r))
  /\ (configFileWritable s = true -> configFile (snd r) = Some updated)
  /\ (configFileWritable s = false ->
      configFile (snd r) = configFile s
      /\ exists e, In (Emit e) (events (snd r)) /\ LogEntry.type e = Error)
  /\ disk (snd r) = disk s.
Proof.
  intros H. cbv zeta. rewrite (checkSeedChange_no_world fuel s H). cbv zeta.
  rewrite saveConfig_run. unfold configuredSeed. rewrite or_default_empty.
  destruct s as [a b c d e f g h i j k l m n o p q r t u w x].
  simp_state. unfold Config.set_world.
  destruct t; simp_state;
    (split; [reflexivity|]; split; [reflexivity|];
     split; [apply in_or_app; right; left; reflexivity|];
     split; [intros Hw; (reflexivity || discriminate Hw)|];
     split; [intros Hw | reflexivity]).
  - discriminate Hw.
  - split; [reflexivity|].
    eexists. split; [apply in_or_app; right; right; left; reflexivity | reflexivity].
Qed.

Lemma no_world_means_new_world_witness :
  let s := fresh seed_123 clock0 (Fs.Dir true []) in
  let r := checkSeedChange 0 s in
  let seed := Config.seed (Config.server (config s)) in
  let updated :=
    Config.mk (Config.server (config s)) (Config.performance (config s))
      (Config.playit (config s))
      (Some (Config.mkWorld (Some seed) (Some seed) (Some false))) in
  fst r = Ok (SeedCheck.mk true no_world_exists None)
  /\ config (snd r) = updated
  /\ In (FsWriteConfig updated) (events (snd r))
  /\ (configFileWritable s = true -> configFile (snd r) = Some updated)
  /\ (configFileWritable s = false ->
      configFile (snd r) = configFile s
      /\ exists e, In (Emit e) (events (snd r)) /\ LogEntry.type e = Error)
  /\ disk (snd r) = disk s.
Proof.
  apply (no_world_means_new_world 0 (fresh seed_123 clock0 (Fs.Dir true []))).
  reflexivity.
Defined.

(** C3 as stated fails where the configuration file cannot be written: there
    is no world, the evaluation answers [no_world_exists] and updates the
    world-tracking block of the manager, the write is attempted and refused,
    and the file still holds the block it held, with the seeds and
    [worldGenerated] of before: the configuration is not persisted. *)
Lemma refused_write_is_not_persisted :
  let s := manager_readonly_config in
  let r := checkSeedChange 0 s in
  Fs.existsSync (worldPath (config s)) (disk s) = false
  /\ fst r = Ok (SeedCheck.mk true no_world_exists None)
  /\ Config.world (config (snd r))
     = Some (Config.mkWorld (Some "123") (Some "123") (Some false))
  /\ In (FsWriteConfig (config (snd r))) (events (snd r))
  /\ configFile (snd r) = Some seed_123
  /\ Config.world seed_123 = Some (Config.mkWorld (Some "") (Some "") (Some true))
  /\ configFile (snd r) <> Some (config (snd r))
  /\ configFileWritable s = false.
Proof.
  vm_compute.
  split; [reflexivity|]. split; [reflexivity|]. split; [reflexivity|].
  split; [right; right; right; right; left; reflexivity|].
  split; [reflexivity|]. split; [reflexivity|]. split; [discriminate | reflexivity].
Qed.

(** Equal seeds make no difference when there is no world. *)
Example no_world_equal_seeds :
  let r := checkSeedChange 0 (fresh defaultConfig clock0 (Fs.Dir true [])) in
  fst r = Ok (SeedCheck.mk true no_world_exists None)
  /\ Config.world (config (snd r))
     = Some (Config.mkWorld (Some "") (Some "") (Some false)).
Proof. vm_compute. split; reflexivity. Qed.

(** ** World and seed: a backup that fails *)

(** C1, at a state the code gets wrong.  The seed changed and the world
    exists; every file of the world can be read, so the copy succeeds, but
    the region directory does not let its entries be removed, so the removal
    of the original fails half-way.  The evaluation answers
    [shouldCreateNew = false] with reason [backup_failed], logs that the
    existing world is kept, and neither updates the configuration nor writes
    its file; but the world directory is no longer what it was: [level.dat]
    is gone from it. *)
Theorem failed_removal_leaves_world_damaged :
  let s := manager_locked_region in
  let r := checkSeedChange 3 s in
  Fs.existsSync ["world"] (disk s) = true
  /\ configuredSeed (config s) <> recordedSeed (config s)
  /\ fst r = Ok (SeedCheck.mk false backup_failed None)
  /\ config (snd r) = config s
  /\ configFile (snd r) = configFile s
  /\ (forall c, ~ In (FsWriteConfig c) (events (snd r)))
  /\ (exists e, In e (logs (snd r))
                /\ LogEntry.message e = "⚠️ Keeping existing world to prevent data loss")
  /\ Fs.lookup ["world"; "level.dat"] (disk s) = Some (Fs.File "level" true)
  /\ Fs.lookup ["world"; "level.dat"] (disk (snd r)) = None
  /\ Fs.lookup ["world"] (disk (snd r)) <> Fs.lookup ["world"] (disk s).
Proof.
  cbv zeta. repeat split; try (vm_compute; reflexivity); try (vm_compute; discriminate).
  - intros c Hin. vm_compute in Hin.
    repeat (destruct Hin as [Hin|Hin]; [discriminate Hin|]). exact Hin.
  - exists (logEntryOf (clock0, ("⚠️ Keeping existing world to prevent data loss", Warn))).
    split; [|reflexivity]. vm_compute. repeat (first [left; reflexivity | right]).
Qed.

(** ** The file system: what a call leaves alone *)

Lemma find_entry_set_other (name k : string) (c : Fs.node) (es : list (string * Fs.node)) :
  name <> k ->
  Fs.find_entry name (Fs.set_entry k c es) = Fs.find_entry name es.
Proof.
  intros Hne. induction es as [|[k' d] es IH]; simpl.
  - destruct (k =? name)%string eqn:E; [|reflexivity].
    apply String.eqb_eq in E. congruence.
  - destruct (k' =? k)%string eqn:Ek; simpl.
    + apply String.eqb_eq in Ek. subst k'.
      destruct (k =? name)%string eqn:E; [|reflexivity].
      apply String.eqb_eq in E. congruence.
    + destruct (k' =? name)%string; [reflexivity | exact IH].
Qed.

Lemma find_entry_set_same (k : string) (c : Fs.node) (es : list (string * Fs.node)) :
  Fs.find_entry k (Fs.set_entry k c es) = Some c.
Proof.
  induction es as [|[k' d] es IH]; simpl.
  - now rewrite String.eqb_refl.
  - destruct (k' =? k)%string eqn:Ek; simpl; rewrite Ek; [reflexivity | exact IH].
Qed.

Lemma lookup_cons (name : string) (p : Fs.path) (d : Fs.node) :
  Fs.lookup (name :: p) d
  = match Fs.find_entry name (root_entries d) with
    | Some c => Fs.lookup p c
    | None => None
    end.
Proof. destruct d; reflexivity. Qed.

Lemma lookup_app (p q : Fs.path) (d : Fs.node) :
  Fs.lookup (p ++ q)%list d
  = match Fs.lookup p d with
    | Some n => Fs.lookup q n
    | None => None
    end.
Proof.
  revert d; induction p as [|name p IH]; intros d; simpl; [reflexivity|].
  destruct d as [data r|w es]; [reflexivity|].
  destruct (Fs.find_entry name es); [apply IH | reflexivity].
Qed.

Lemma keeps_other_entries_lookup (k name : string) (p : Fs.path) (d d' : Fs.node) :
  keeps_other_entries k d d' -> name <> k ->
  Fs.lookup (name :: p) d' = Fs.lookup (name :: p) d.
Proof. intros H Hne. now rewrite !lookup_cons, (H name Hne). Qed.

Lemma mkdirSync_keeps (k : string) (p : Fs.path) (d d' : Fs.node) :
  Fs.mkdirSync (k :: p) d = inr d' -> keeps_other_entries k d d'.
Proof.
  destruct d as [data r|w es]; simpl; [discriminate|].
  destruct (Fs.find_entry k es) as [c|].
  - destruct (Fs.mkdirSync p c) as [e|c']; [discriminate|].
    intros [= <-] name Hne. simpl. now apply find_entry_set_other.
  - destruct w; [|discriminate].
    destruct (Fs.mkdirSync p (Fs.Dir true [])) as [e|c']; [discriminate|].
    intros [= <-] name Hne. simpl. now apply find_entry_set_other.
Qed.

Lemma writeFile_keeps (k : string) (p : Fs.path) (data : string) (d d' : Fs.node) :
  Fs.writeFile (k :: p) data d = inr d' -> keeps_other_entries k d d'.
Proof.
  destruct d as [data0 r|w es]; simpl; [discriminate|].
  destruct (Fs.find_entry k es) as [c|].
  - destruct (Fs.writeFile p data c) as [e|c']; [discriminate|].
    intros [= <-] name Hne. simpl. now apply find_entry_set_other.
  - destruct p; [|discriminate]. destruct w; [|discriminate].
    intros [= <-] name Hne. simpl. now apply find_entry_set_other.
Qed.

Lemma diverge_nonempty (p q : Fs.path) :
  diverge p q -> exists b q', q = b :: q'.
Proof. intros H. destruct H; eauto. Qed.

Lemma diverge_app_l (p q r : Fs.path) :
  diverge p q -> diverge (p ++ r)%list q.
Proof.
  intros H. induction H as [a b p q Hab | x p q H IH]; simpl.
  - now apply diverge_here.
  - now apply diverge_next.
Qed.

Lemma diverge_siblings (above : Fs.path) (f g : string) (q : Fs.path) :
  f <> g -> diverge (above ++ [f])%list (above ++ g :: q)%list.
Proof.
  intros Hne. induction above as [|x above IH]; simpl.
  - now apply diverge_here.
  - now apply diverge_next.
Qed.

Lemma lookup_in_empty_dir (w : bool) (b : string) (q : Fs.path) :
  Fs.lookup (b :: q) (Fs.Dir w []) = None.
Proof. reflexivity. Qed.

(** [mkdirSync] leaves alone what is at a path that parts ways with its
    own. *)
Lemma mkdirSync_frame (p q : Fs.path) :
  diverge p q ->
  forall d d', Fs.mkdirSync p d = inr d' -> Fs.lookup q d' = Fs.lookup q d.
Proof.
  intros H. induction H as [a b p q Hab | x p q H IH]; intros d d' E.
  - apply (keeps_other_entries_lookup a); [exact (mkdirSync_keeps a p d d' E) | congruence].
  - destruct d as [data r|w es]; simpl in E; [discriminate|].
    destruct (Fs.find_entry x es) as [c|] eqn:Ex.
    + destruct (Fs.mkdirSync p c) as [e|c'] eqn:Ec; [discriminate|]. injection E as <-.
      simpl. rewrite find_entry_set_same, Ex. exact (IH c c' Ec).
    + destruct w; [|discriminate].
      destruct (Fs.mkdirSync p (Fs.Dir true [])) as [e|c'] eqn:Ec; [discriminate|].
      injection E as <-. simpl. rewrite find_entry_set_same, Ex.
      rewrite (IH _ _ Ec). destruct (diverge_nonempty p q H) as (b & q' & ->).
      reflexivity.
Qed.

Lemma writeFile_frame (p q : Fs.path) (data : string) :
  diverge p q ->
  forall d d', Fs.writeFile p data d = inr d' -> Fs.lookup q d' = Fs.lookup q d.
Proof.
  intros H. induction H as [a b p q Hab | x p q H IH]; intros d d' E.
  - apply (keeps_other_entries_lookup a); [exact (writeFile_keeps a p data d d' E) | congruence].
  - destruct d as [data0 r|w es]; simpl in E; [discriminate|].
    destruct (Fs.find_entry x es) as [c|] eqn:Ex.
    + destruct (Fs.writeFile p data c) as [e|c'] eqn:Ec; [discriminate|]. injection E as <-.
      simpl. rewrite find_entry_set_same, Ex. exact (IH c c' Ec).
    + destruct p as [|y p]; [inversion H | discriminate].
Qed.

Lemma copyFileSync_frame (src p q : Fs.path) (d d' : Fs.node) :
  diverge p q ->
  Fs.copyFileSync src p d = inr d' -> Fs.lookup q d' = Fs.lookup q d.
Proof.
  intros H. unfold Fs.copyFileSync. destruct (Fs.readFile src d) as [e|data]; [discriminate|].
  now apply writeFile_frame.
Qed.

Lemma mkdirSync_makes_dir (p : Fs.path) (d d' : Fs.node) :
  Fs.mkdirSync p d = inr d' -> exists w es, d' = Fs.Dir w es.
Proof.
  destruct p as [|x p]; simpl; destruct d as [data r|w es]; try discriminate.
  - intros [= <-]. eauto.
  - destruct (Fs.find_entry x es).
    + destruct (Fs.mkdirSync p n); [discriminate|]. intros [= <-]. eauto.
    + destruct w; [|discriminate].
      destruct (Fs.mkdirSync p (Fs.Dir true [])); [discriminate|]. intros [= <-]. eauto.
Qed.

(** After [mkdirSync], every path above or at the one it made is a
    directory. *)
Lemma mkdirSync_is_dir (above below : Fs.path) :
  forall d d', Fs.mkdirSync (above ++ below)%list d = inr d' -> is_dir_at above d'.
Proof.
  induction above as [|x above IH]; intros d d' E.
  - destruct (mkdirSync_makes_dir _ _ _ E) as (w & es & ->). now exists w, es.
  - simpl in E. destruct d as [data r|w es]; [discriminate|].
    destruct (Fs.find_entry x es) as [c|].
    + destruct (Fs.mkdirSync (above ++ below)%list c) as [e|c'] eqn:Ec; [discriminate|].
      injection E as <-. destruct (IH _ _ Ec) as (w' & es' & Hl).
      exists w', es'. simpl. now rewrite find_entry_set_same.
    + destruct w; [|discriminate].
      destruct (Fs.mkdirSync (above ++ below)%list (Fs.Dir true [])) as [e|c'] eqn:Ec; [discriminate|].
      injection E as <-. destruct (IH _ _ Ec) as (w' & es' & Hl).
      exists w', es'. simpl. now rewrite find_entry_set_same.
Qed.

(** After [writeFile], every path above the file is a directory. *)
Lemma writeFile_is_dir (above : Fs.path) (x : string) (below : Fs.path) (data : string) :
  forall d d', Fs.writeFile (above ++ x :: below)%list data d = inr d' -> is_dir_at above d'.
Proof.
  induction above as [|y above IH]; intros d d' E.
  - simpl in E. destruct d as [data0 r|w es]; [discriminate|].
    destruct (Fs.find_entry x es).
    + destruct (Fs.writeFile below data n); [discriminate|]. injection E as <-.
      eexists _, _. reflexivity.
    + destruct below; [|discriminate]. destruct w; [|discriminate]. injection E as <-.
      eexists _, _. reflexivity.
  - simpl in E. destruct d as [data0 r|w es]; [discriminate|].
    destruct (Fs.find_entry y es) as [c|].
    + destruct (Fs.writeFile (above ++ x :: below)%list data c) as [e|c'] eqn:Ec; [discriminate|].
      injection E as <-. destruct (IH _ _ Ec) as (w' & es' & Hl).
      exists w', es'. simpl. now rewrite find_entry_set_same.
    + destruct (above ++ x :: below)%list eqn:Ep; [destruct above; discriminate | discriminate].
Qed.

(** The file that [writeFile] wrote is there, with the data. *)
Lemma writeFile_lookup (p : Fs.path) (data : string) :
  forall d d', Fs.writeFile p data d = inr d' ->
               exists r, Fs.lookup p d' = Some (Fs.File data r).
Proof.
  induction p as [|x p IH]; intros d d' E; simpl in E.
  - destruct d as [data0 r|w es]; [|discriminate]. injection E as <-. now exists r.
  - destruct d as [data0 r|w es]; [discriminate|].
    destruct (Fs.find_entry x es) as [c|].
    + destruct (Fs.writeFile p data c) as [e|c'] eqn:Ec; [discriminate|].
      injection E as <-. destruct (IH _ _ Ec) as [r Hl].
      exists r. simpl. now rewrite find_entry_set_same.
    + destruct p; [|discriminate]. destruct w; [|discriminate]. injection E as <-.
      exists true. simpl. now rewrite find_entry_set_same.
Qed.

Lemma find_entry_height (name : string) (w : bool) (es : list (string * Fs.node)) (c : Fs.node) :
  Fs.find_entry name es = Some c -> (height c < height (Fs.Dir w es))%nat.
Proof.
  simpl. induction es as [|[k d] es IH]; simpl; [discriminate|].
  destruct (k =? name)%string.
  - intros [= ->]. lia.
  - intros H. specialize (IH H). lia.
Qed.

Lemma find_entry_listed (name : string) (es : list (string * Fs.node)) (c : Fs.node) :
  Fs.find_entry name es = Some c -> In name (map fst es).
Proof.
  induction es as [|[k d] es IH]; simpl; [discriminate|].
  destruct (k =? name)%string eqn:E.
  - apply String.eqb_eq in E. now left.
  - intros H. right. now apply IH.
Qed.

(** ** The copy, step by step *)

Lemma copy_step_refl (dest : Fs.path) (s : State) : copy_step dest s s.
Proof.
  split; [destruct s; reflexivity|]. split; [reflexivity|]. split; [auto|].
  exists []. now rewrite app_nil_r.
Qed.

Lemma copy_step_trans (dest : Fs.path) (s1 s2 s3 : State) :
  copy_step dest s1 s2 -> copy_step dest s2 s3 -> copy_step dest s1 s3.
Proof.
  intros (E12 & F12 & D12 & evs12 & Ev12 & C12) (E23 & F23 & D23 & evs23 & Ev23 & C23).
  split; [|split; [|split]].
  - rewrite E23 at 1. rewrite E12 at 1. destruct s1; reflexivity.
  - intros q Hq. now rewrite (F23 q Hq), (F12 q Hq).
  - intros above x below Hd H. exact (D23 _ _ _ Hd (D12 _ _ _ Hd H)).
  - exists (evs12 ++ evs23)%list. split.
    + now rewrite Ev23, Ev12, app_assoc.
    + now rewrite forallb_app, C12, C23.
Qed.

(** A step into a path below [dest] is a step into [dest]. *)
Lemma copy_step_above (dest below : Fs.path) (s s' : State) :
  copy_step (dest ++ below)%list s s' -> copy_step dest s s'.
Proof.
  intros (E & F & D & Ev). split; [exact E|]. split; [|split; [|exact Ev]].
  - intros q Hq. apply F. now apply diverge_app_l.
  - intros above x below' Hd. apply (D above x (below' ++ below)%list).
    subst dest. now rewrite <- app_assoc.
Qed.

(** A call that only adds an event of the copy. *)
Lemma copy_step_event (dest : Fs.path) (e : Event) (s : State) :
  is_copy_event e = true ->
  copy_step dest s (set_events (events s ++ [e]) s).
Proof.
  intros He. split; [destruct s; reflexivity|].
  split; [destruct s; reflexivity|]. split; [destruct s; auto|].
  exists [e]. split; [destruct s; reflexivity|]. simpl. now rewrite He.
Qed.

(** A call that adds an event of the copy and changes the directory below
    [dest]. *)
Lemma copy_step_disk (dest : Fs.path) (e : Event) (d' : Fs.node) (s : State) :
  is_copy_event e = true ->
  (forall q, diverge dest q -> Fs.lookup q d' = Fs.lookup q (disk s)) ->
  (forall above x below, dest = (above ++ x :: below)%list -> is_dir_at above d') ->
  copy_step dest s (set_disk d' (set_events (events s ++ [e]) s)).
Proof.
  intros He Hf Hd. split; [destruct s; reflexivity|].
  split; [destruct s; exact Hf|]. split.
  - intros above x below Hdest _. destruct s; exact (Hd above x below Hdest).
  - exists [e]. split; [destruct s; reflexivity|]. simpl. now rewrite He.
Qed.

Lemma fs_statSync_run (p : Fs.path) (s : State) :
  fs_statSync p s
  = (match Fs.statSync p (disk s) with
     | inr n => Ok n
     | inl e => Throw (FsError e)
     end,
     set_events (events s ++ [FsStat p]) s).
Proof.
  destruct s as [a b c d e f g h i j k l m n o p' q r t u w x].
  unfold fs_statSync. run. destruct (Fs.statSync p q); reflexivity.
Qed.

Lemma fs_readdirSync_run (p : Fs.path) (s : State) :
  fs_readdirSync p s
  = (match Fs.readdirSync p (disk s) with
     | inr l => Ok l
     | inl e => Throw (FsError e)
     end,
     set_events (events s ++ [FsReaddir p]) s).
Proof.
  destruct s as [a b c d e f g h i j k l m n o p' q r t u w x].
  unfold fs_readdirSync. run. destruct (Fs.readdirSync p q); reflexivity.
Qed.

Lemma fs_mkdirSync_run (p : Fs.path) (s : State) :
  fs_mkdirSync p s
  = match Fs.mkdirSync p (disk s) with
    | inr d' => (Ok tt, set_disk d' (set_events (events s ++ [FsMkdir p]) s))
    | inl e => (Throw (FsError e), set_events (events s ++ [FsMkdir p]) s)
    end.
Proof.
  destruct s as [a b c d e f g h i j k l m n o p' q r t u w x].
  unfold fs_mkdirSync. run. destruct (Fs.mkdirSync p q); reflexivity.
Qed.

Lemma fs_copyFileSync_run (src dest : Fs.path) (s : State) :
  fs_copyFileSync src dest s
  = match Fs.copyFileSync src dest (disk s) with
    | inr d' => (Ok tt, set_disk d' (set_events (events s ++ [FsCopyFile src dest]) s))
    | inl e => (Throw (FsError e), set_events (events s ++ [FsCopyFile src dest]) s)
    end.
Proof.
  destruct s as [a b c d e f g h i j k l m n o p' q r t u w x].
  unfold fs_copyFileSync. run. destruct (Fs.copyFileSync src dest q); reflexivity.
Qed.

Lemma fs_mkdirSync_step (dest : Fs.path) (s s' : State) (r : Result unit) :
  fs_mkdirSync dest s = (r, s') -> copy_step dest s s' /\ r <> OutOfFuel.
Proof.
  rewrite fs_mkdirSync_run.
  destruct (Fs.mkdirSync dest (disk s)) as [e|d'] eqn:E; intros [= <- <-].
  - split; [now apply copy_step_event | discriminate].
  - split; [|discriminate]. apply copy_step_disk; [reflexivity| |].
    + intros q Hq. exact (mkdirSync_frame dest q Hq _ _ E).
    + intros above x below Hd. subst dest. exact (mkdirSync_is_dir _ _ _ _ E).
Qed.

Lemma fs_copyFileSync_step (src dest : Fs.path) (s s' : State) (r : Result unit) :
  fs_copyFileSync src dest s = (r, s') -> copy_step dest s s' /\ r <> OutOfFuel.
Proof.
  rewrite fs_copyFileSync_run.
  destruct (Fs.copyFileSync src dest (disk s)) as [e|d'] eqn:E; intros [= <- <-].
  - split; [now apply copy_step_event | discriminate].
  - split; [|discriminate]. apply copy_step_disk; [reflexivity| |].
    + intros q Hq. exact (copyFileSync_frame src dest q _ _ Hq E).
    + intros above x below Hd. subst dest. unfold Fs.copyFileSync in E.
      destruct (Fs.readFile src (disk s)); [discriminate|].
      exact (writeFile_is_dir _ _ _ _ _ _ E).
Qed.

Lemma forEach_step {A : Type} (R : State -> State -> Prop) (f : A -> M unit) :
  (forall s, R s s) ->
  (forall s1 s2 s3, R s1 s2 -> R s2 s3 -> R s1 s3) ->
  (forall x s r s', f x s = (r, s') -> R s s') ->
  forall l s r s', forEach l f s = (r, s') -> R s s'.
Proof.
  intros Hrefl Htrans Hf. induction l as [|x l IH]; intros s r s'; simpl.
  - unfold ret. intros [= <- <-]. apply Hrefl.
  - unfold bind. destruct (f x s) as [[[]| e |] s1] eqn:E.
    + intros H. apply (Htrans s s1 s'); [exact (Hf _ _ _ _ E) | exact (IH _ _ _ H)].
    + intros [= <- <-]. exact (Hf _ _ _ _ E).
    + intros [= <- <-]. exact (Hf _ _ _ _ E).
Qed.

(** Whatever it returns, [copyDirectorySync] into [dest] is a step of the
    copy into [dest]. *)
Lemma copyDirectorySync_step (fuel : nat) :
  forall (src dest : Fs.path) (s s' : State) (r : Result unit),
    copyDirectorySync fuel src dest s = (r, s') -> copy_step dest s s'.
Proof.
  induction fuel as [|fuel IH]; intros src dest s s' r; simpl.
  - unfold out_of_fuel. intros [= <- <-]. apply copy_step_refl.
  - unfold bind at 1. rewrite fs_statSync_run.
    pose proof (copy_step_event dest (FsStat src) s eq_refl) as Hstat.
    destruct (Fs.statSync src (disk s)) as [e|n]; [intros [= <- <-]; exact Hstat|].
    destruct (Fs.isDirectory n).
    + unfold bind at 1.
      destruct (fs_mkdirSync dest (set_events (events s ++ [FsStat src]) s))
        as [[[]| e |] s1] eqn:Emk;
        apply fs_mkdirSync_step in Emk as [Hmk _];
        try (intros [= <- <-]; exact (copy_step_trans dest _ _ _ Hstat Hmk)).
      unfold bind at 1. rewrite fs_readdirSync_run.
      pose proof (copy_step_event dest (FsReaddir src) s1 eq_refl) as Hrd.
      destruct (Fs.readdirSync src (disk s1)) as [e|files].
      * intros [= <- <-].
        exact (copy_step_trans dest _ _ _ Hstat (copy_step_trans dest _ _ _ Hmk Hrd)).
      * intros H.
        apply (copy_step_trans dest _ _ _ Hstat).
        apply (copy_step_trans dest _ _ _ Hmk).
        apply (copy_step_trans dest _ _ _ Hrd).
        revert H. apply forEach_step.
        -- apply copy_step_refl.
        -- apply copy_step_trans.
        -- intros file s2 r2 s2' H. apply IH in H. exact (copy_step_above _ _ _ _ H).
    + intros H. apply fs_copyFileSync_step in H as [H _].
      exact (copy_step_trans dest _ _ _ Hstat H).
Qed.

Lemma copy_step_lookup (k name : string) (p q : Fs.path) (s s' : State) :
  copy_step (k :: p) s s' -> name <> k ->
  Fs.lookup (name :: q) (disk s') = Fs.lookup (name :: q) (disk s).
Proof.
  intros (_ & F & _) Hne. apply F. apply diverge_here. congruence.
Qed.

(** ** The copy returns, and is complete *)

Lemma bind_returns {A B : Type} (m : M A) (k : A -> M B) (s : State) :
  fst (m s) <> OutOfFuel ->
  (forall a s', m s = (Ok a, s') -> fst (k a s') <> OutOfFuel) ->
  fst (bind m k s) <> OutOfFuel.
Proof.
  unfold bind. destruct (m s) as [[a| e |] s']; simpl; intros H1 H2.
  - now apply H2.
  - discriminate.
  - congruence.
Qed.

Lemma forEach_step_in {A : Type} (R : State -> State -> Prop) (f : A -> M unit) (l : list A) :
  (forall s, R s s) ->
  (forall s1 s2 s3, R s1 s2 -> R s2 s3 -> R s1 s3) ->
  (forall x, In x l -> forall s r s', f x s = (r, s') -> R s s') ->
  forall s r s', forEach l f s = (r, s') -> R s s'.
Proof.
  intros Hrefl Htrans. induction l as [|x l IH]; intros Hf s r s'; simpl.
  - unfold ret. intros [= <- <-]. apply Hrefl.
  - unfold bind. destruct (f x s) as [[[]| e |] s1] eqn:E.
    + intros H. apply (Htrans s s1 s').
      * exact (Hf x (or_introl eq_refl) _ _ _ E).
      * apply (IH (fun y Hy => Hf y (or_intror Hy)) _ _ _ H).
    + intros [= <- <-]. exact (Hf x (or_introl eq_refl) _ _ _ E).
    + intros [= <- <-]. exact (Hf x (or_introl eq_refl) _ _ _ E).
Qed.

Lemma fs_mkdirSync_is_dir (dest : Fs.path) (s s' : State) :
  fs_mkdirSync dest s = (Ok tt, s') -> is_dir_at dest (disk s').
Proof.
  rewrite fs_mkdirSync_run.
  destruct (Fs.mkdirSync dest (disk s)) as [e|d'] eqn:E; intros [= <-].
  replace (disk (set_disk d' (set_events (events s ++ [FsMkdir dest]) s))) with d'
    by (destruct s; reflexivity).
  apply (mkdirSync_is_dir dest [] (disk s) d'). now rewrite app_nil_r.
Qed.

Lemma same_kind_file (data : string) (r r' : bool) :
  same_kind (Fs.File data r) (Fs.File data r').
Proof. reflexivity. Qed.

(** The copy from under one entry of the server directory, [name], to under
    another, [k]. *)
Section CopyBetweenEntries.

Variables k name : string.
Hypothesis Hne : name <> k.

(** With more fuel than the tree at the source is deep, the copy returns: a
    value or an exception. *)
Lemma copyDirectorySync_returns (fuel : nat) :
  forall (sp p : Fs.path) (s : State),
    (depth_at (name :: sp) (disk s) < fuel)%nat ->
    fst (copyDirectorySync fuel (name :: sp) (k :: p) s) <> OutOfFuel.
Proof.
  induction fuel as [|fuel IH]; intros sp p s Hd; [lia|].
  cbn [copyDirectorySync]. apply bind_returns.
  { rewrite fs_statSync_run. simpl. now destruct (Fs.statSync _ _). }
  intros n s0. rewrite fs_statSync_run. unfold Fs.statSync, depth_at in *.
  destruct (Fs.lookup (name :: sp) (disk s)) as [n0|] eqn:Hl; [|discriminate].
  intros [= -> <-].
  destruct n as [data r|w es]; cbn [Fs.isDirectory].
  { destruct (fs_copyFileSync (name :: sp) (k :: p) (set_events (events s ++ [FsStat (name :: sp)]) s))
      as [r0 s1] eqn:E.
    apply fs_copyFileSync_step in E as [_ E]. exact E. }
  assert (Hl0 : Fs.lookup (name :: sp) (disk (set_events (events s ++ [FsStat (name :: sp)]) s))
                = Some (Fs.Dir w es)) by (destruct s; exact Hl).
  apply bind_returns.
  { destruct (fs_mkdirSync (k :: p) _) as [r0 s1] eqn:E.
    apply fs_mkdirSync_step in E as [_ E]. exact E. }
  intros [] s1 Emk. apply fs_mkdirSync_step in Emk as [Hmk _].
  assert (Hl1 : Fs.lookup (name :: sp) (disk s1) = Some (Fs.Dir w es))
    by (rewrite (copy_step_lookup k name p sp _ _ Hmk Hne); exact Hl0).
  apply bind_returns.
  { rewrite fs_readdirSync_run. simpl. now destruct (Fs.readdirSync _ _). }
  intros files s2. rewrite fs_readdirSync_run.
  destruct (Fs.readdirSync (name :: sp) (disk s1)) as [e|files']; [discriminate|].
  intros [= -> <-].
  assert (Hl2 : Fs.lookup (name :: sp)
                  (disk (set_events (events s1 ++ [FsReaddir (name :: sp)]) s1))
                = Some (Fs.Dir w es)) by (destruct s1; exact Hl1).
  revert Hl2. generalize (set_events (events s1 ++ [FsReaddir (name :: sp)]) s1).
  clear - IH Hne Hd. induction files as [|file files IHf]; intros s Hl.
  - discriminate.
  - cbn [forEach]. apply bind_returns.
    + change ((name :: sp) ++ [file])%list with (name :: (sp ++ [file]))%list.
      change ((k :: p) ++ [file])%list with (k :: (p ++ [file]))%list.
      apply IH. unfold depth_at.
      change (name :: (sp ++ [file]))%list with ((name :: sp) ++ [file])%list.
      rewrite lookup_app, Hl. cbn [Fs.lookup].
      destruct (Fs.find_entry file es) as [c|] eqn:Ef.
      * cbn [Fs.lookup]. pose proof (find_entry_height file w es c Ef). lia.
      * simpl in Hd. lia.
    + intros [] s' E. apply IHf.
      change ((k :: p) ++ [file])%list with (k :: (p ++ [file]))%list in E.
      apply copyDirectorySync_step in E.
      rewrite (copy_step_lookup k name _ sp _ _ E Hne). exact Hl.
Qed.

(** When [copyDirectorySync] returns without error, whatever was under the
    source is under the destination: every file with its data, every
    directory as a directory. *)
Lemma copyDirectorySync_copies (fuel : nat) :
  forall (sp p : Fs.path) (s s' : State),
    copyDirectorySync fuel (name :: sp) (k :: p) s = (Ok tt, s') ->
    forall (q : Fs.path) (n : Fs.node),
      Fs.lookup ((name :: sp) ++ q)%list (disk s) = Some n ->
      exists n', Fs.lookup ((k :: p) ++ q)%list (disk s') = Some n' /\ same_kind n n'.
Proof.
  induction fuel as [|fuel IH]; intros sp p s s' H q n Hq; [discriminate|].
  cbn [copyDirectorySync] in H. unfold bind at 1 in H.
  rewrite fs_statSync_run in H. unfold Fs.statSync in H.
  rewrite lookup_app in Hq.
  destruct (Fs.lookup (name :: sp) (disk s)) as [n0|] eqn:Hl; [|discriminate].
  set (s0 := set_events (events s ++ [FsStat (name :: sp)]) s) in H.
  assert (Hl0 : Fs.lookup (name :: sp) (disk s0) = Some n0)
    by (subst s0; destruct s; exact Hl).
  destruct n0 as [data r|w es]; cbn [Fs.isDirectory] in H.
  - (* a file *)
    destruct q as [|x q]; [|discriminate]. injection Hq as <-.
    rewrite fs_copyFileSync_run in H.
    destruct (Fs.copyFileSync (name :: sp) (k :: p) (disk s0)) as [e|d'] eqn:Ec; [discriminate|].
    injection H as <-.
    replace (disk (set_disk d' (set_events (events s0 ++ [FsCopyFile (name :: sp) (k :: p)]) s0)))
      with d' by (destruct s0; reflexivity).
    unfold Fs.copyFileSync, Fs.readFile in Ec. rewrite Hl0 in Ec.
    destruct r; [|discriminate].
    destruct (writeFile_lookup _ _ _ _ Ec) as [r' Hw].
    exists (Fs.File data r'). rewrite app_nil_r. split; [exact Hw | reflexivity].
  - (* a directory *)
    unfold bind at 1 in H.
    destruct (fs_mkdirSync (k :: p) s0) as [[[]|e|] s1] eqn:Emk; try discriminate.
    pose proof (fs_mkdirSync_is_dir _ _ _ Emk) as Hdir1.
    apply fs_mkdirSync_step in Emk as [Hmk _].
    assert (Hl1 : Fs.lookup (name :: sp) (disk s1) = Some (Fs.Dir w es))
      by (rewrite (copy_step_lookup k name p sp _ _ Hmk Hne); exact Hl0).
    unfold bind at 1 in H. rewrite fs_readdirSync_run in H.
    unfold Fs.readdirSync in H. rewrite Hl1 in H.
    set (s2 := set_events (events s1 ++ [FsReaddir (name :: sp)]) s1) in H.
    assert (Hl2 : Fs.lookup (name :: sp) (disk s2) = Some (Fs.Dir w es))
      by (subst s2; destruct s1; exact Hl1).
    assert (Hdir2 : is_dir_at (k :: p) (disk s2))
      by (subst s2; destruct s1; exact Hdir1).
    clearbody s2. clear Hl0 Hl1 Hdir1 Hmk s1 s0 Hl.
    destruct q as [|f q'].
    + (* the directory itself *)
      injection Hq as <-. rewrite app_nil_r.
      assert (Hdir : is_dir_at (k :: p) (disk s')).
      { revert Hdir2. revert H.
        apply (forEach_step (fun a b => is_dir_at (k :: p) (disk a) -> is_dir_at (k :: p) (disk b))).
        - auto.
        - auto.
        - intros file a r b E. apply copyDirectorySync_step in E.
          destruct E as (_ & _ & D & _). exact (D (k :: p) file [] eq_refl). }
      destruct Hdir as (w' & es' & Hd). exists (Fs.Dir w' es'). split; [exact Hd | exact I].
    + (* something below *)
      cbn [Fs.lookup] in Hq.
      destruct (Fs.find_entry f es) as [c|] eqn:Ef; [|discriminate].
      pose proof (find_entry_listed f es c Ef) as Hin.
      revert H Hl2 Hin. clear Hdir2. generalize s2. generalize (map fst es).
      intros files. induction files as [|g rest IHr]; intros sa Hfe Hsa Hin; [destruct Hin|].
      cbn [forEach] in Hfe. unfold bind in Hfe.
      destruct (copyDirectorySync fuel ((name :: sp) ++ [g])%list ((k :: p) ++ [g])%list sa)
        as [[[]|e|] sm] eqn:Eg; try discriminate.
      pose proof (copyDirectorySync_step _ _ _ _ _ _ Eg) as Hstep.
      assert (Hsm : Fs.lookup (name :: sp) (disk sm) = Some (Fs.Dir w es)).
      { change ((k :: p) ++ [g])%list with (k :: (p ++ [g]))%list in Hstep.
        rewrite (copy_step_lookup k name _ sp _ _ Hstep Hne). exact Hsa. }
      destruct (in_dec string_dec f rest) as [Hrest|Hnrest].
      * exact (IHr sm Hfe Hsm Hrest).
      * destruct Hin as [->|Hin]; [|contradiction].
        (* the call for [f] copies it *)
        change ((name :: sp) ++ [f])%list with (name :: (sp ++ [f]))%list in Eg.
        change ((k :: p) ++ [f])%list with (k :: (p ++ [f]))%list in Eg.
        destruct (IH _ _ _ _ Eg q' n) as (n' & Hn' & Hk).
        { change (name :: (sp ++ [f]))%list with ((name :: sp) ++ [f])%list.
          rewrite !lookup_app, Hsa. cbn [Fs.lookup]. rewrite Ef. exact Hq. }
        exists n'. split; [|exact Hk].
        (* the calls after it leave it alone *)
        replace ((k :: p) ++ f :: q')%list with ((k :: (p ++ [f])) ++ q')%list
          by (simpl; now rewrite <- app_assoc).
        rewrite <- Hn'. revert Hfe.
        apply (forEach_step_in
                 (fun a b => Fs.lookup ((k :: (p ++ [f])) ++ q')%list (disk b)
                             = Fs.lookup ((k :: (p ++ [f])) ++ q')%list (disk a))).
        -- reflexivity.
        -- intros t1 t2 t3 H12 H23. now rewrite H23.
        -- intros g Hg a r b E. apply copyDirectorySync_step in E.
           destruct E as (_ & F & _). apply F.
           replace ((k :: (p ++ [f])) ++ q')%list with ((k :: p) ++ f :: q')%list
             by (simpl; now rewrite <- app_assoc).
           apply diverge_siblings. intros ->. contradiction.
Qed.

End CopyBetweenEntries.

(** ** The backup: copy, then removal *)

Lemma removeDirectorySync_run (p : Fs.path) (s : State) :
  removeDirectorySync p s
  = if Fs.existsSync p (disk s) then
      (match snd (Fs.rmSync p (disk s)) with
       | None => Ok tt
       | Some e => Throw (FsError e)
       end,
       set_disk (fst (Fs.rmSync p (disk s)))
         (set_events (events s ++ [FsExists p; FsRm p]) s))
    else (Ok tt, set_events (events s ++ [FsExists p]) s).
Proof.
  destruct s as [a b c d e f g h i j k l m n o p' q r t u w x].
  unfold removeDirectorySync, fs_existsSync, fs_rmSync. run.
  destruct (Fs.existsSync p q); run; [|reflexivity].
  destruct (Fs.rmSync p q) as [d' [err|]]; run; rewrite <- app_assoc; reflexivity.
Qed.

(** [backupExistingWorld] is its copy phase, then its removal phase, inside
    one [try]. *)
Lemma backupExistingWorld_phases (fuel : nat) (s : State) :
  backupExistingWorld fuel s
  = match copy_phase fuel s with
    | (Ok _, s1) =>
        match removal_phase (config s) (clock s) s1 with
        | (Throw e, s2) => (Ok (BackupResult.mk false None (Some (Exn_message e))), s2)
        | r => r
        end
    | (Throw e, s1) => (Ok (BackupResult.mk false None (Some (Exn_message e))), s1)
    | (OutOfFuel, s1) => (OutOfFuel, s1)
    end.
Proof.
  destruct s as [a b c d e f g h i j k l m n o p q r t u w x].
  unfold backupExistingWorld, copy_phase, removal_phase. run.
  destruct (fs_mkdirSync _ _) as [[[]|e0|] s1]; try reflexivity.
  destruct (copyDirectorySync _ _ _ _) as [[[]|e0|] s2]; reflexivity.
Qed.

Lemma removal_phase_events (c : Config.t) (now : Clock) (s1 : State) :
  events (snd (removal_phase c now s1)) = (events s1 ++ removal_events c now s1)%list
  /\ (fst (removal_phase c now s1) <> OutOfFuel).
Proof.
  destruct s1 as [a b c' d e f g h i j k l m n o p q r t u w x].
  unfold removal_phase, removal_events. run. rewrite removeDirectorySync_run. run.
  destruct (Fs.existsSync (worldPath c) q); run.
  - destruct (Fs.rmSync (worldPath c) q) as [d' [err|]]; run;
      repeat (rewrite <- app_assoc; cbn [app]); split; (reflexivity || discriminate).
  - repeat (rewrite <- app_assoc; cbn [app]); split; (reflexivity || discriminate).
Qed.

Lemma append_length (a b : string) :
  String.length (a ++ b) = (String.length a + String.length b)%nat.
Proof. induction a as [|c a IH]; simpl; [reflexivity | now rewrite IH]. Qed.

(** The backup is never made under the name of the world. *)
Lemma worldName_not_backupName (c : Config.t) (now : Clock) :
  worldName c <> backupName c now.
Proof.
  unfold backupName. intros H. apply (f_equal String.length) in H.
  rewrite !append_length in H. simpl in H. lia.
Qed.


(** The state in which the copy phase starts its calls: the announcement
    has been logged. *)
Lemma copy_phase_run (fuel : nat) (s : State) :
  copy_phase fuel s
  = (fs_mkdirSync [backupName (config s) (clock s)] ;;
     copyDirectorySync fuel (worldPath (config s)) [backupName (config s) (clock s)])
      (announced s).
Proof.
  unfold copy_phase, announced. unfold bind at 1. unfold gets at 1.
  unfold bind at 1. unfold gets at 1. unfold bind at 1.
  now rewrite broadcastLog_run.
Qed.

Lemma announced_fields (s : State) :
  disk (announced s) = disk s
  /\ config (announced s) = config s
  /\ configFile (announced s) = configFile s
  /\ events (announced s)
     = (events s ++ [Emit (logEntryOf (clock s, ("📦 Creating backup of existing world...", Info)))])%list.
Proof. destruct s. repeat split. Qed.

(** The copy phase changes the server directory under the backup entry only,
    calls nothing but the copy after its announcement, and leaves the rest of
    the manager alone. *)
Lemma copy_phase_step (fuel : nat) (s s1 : State) (r : Result unit) :
  copy_phase fuel s = (r, s1) ->
  copy_step [backupName (config s) (clock s)] (announced s) s1.
Proof.
  rewrite copy_phase_run. unfold bind.
  destruct (fs_mkdirSync _ (announced s)) as [[[]|e|] s'] eqn:Emk;
    pose proof (proj1 (fs_mkdirSync_step _ _ _ _ Emk)) as Hmk.
  - intros H. apply copyDirectorySync_step in H.
    exact (copy_step_trans _ _ _ _ Hmk H).
  - intros [= <- <-]. exact Hmk.
  - intros [= <- <-]. exact Hmk.
Qed.

Lemma copy_phase_returns (fuel : nat) (s : State) :
  (depth_at (worldPath (config s)) (disk s) < fuel)%nat ->
  fst (copy_phase fuel s) <> OutOfFuel.
Proof.
  intros Hd. rewrite copy_phase_run.
  assert (Hd0 : (depth_at (worldPath (config s)) (disk (announced s)) < fuel)%nat)
    by (now rewrite (proj1 (announced_fields s))).
  apply bind_returns.
  - destruct (fs_mkdirSync _ (announced s)) as [r s'] eqn:Emk.
    exact (proj2 (fs_mkdirSync_step _ _ _ _ Emk)).
  - intros [] s' Emk. apply fs_mkdirSync_step in Emk as [Hmk _].
    apply copyDirectorySync_returns; [apply worldName_not_backupName|].
    unfold depth_at in *. unfold worldPath in *.
    rewrite (copy_step_lookup _ _ _ _ _ _ Hmk (worldName_not_backupName _ _)).
    exact Hd0.
Qed.

(** The copy phase does not touch the world. *)
Lemma copy_phase_keeps_world (fuel : nat) (s s1 : State) (r : Result unit) :
  copy_phase fuel s = (r, s1) ->
  forall q, Fs.lookup (worldPath (config s) ++ q)%list (disk s1)
            = Fs.lookup (worldPath (config s) ++ q)%list (disk s).
Proof.
  intros H q. apply copy_phase_step in H. unfold worldPath. cbn [app].
  rewrite (copy_step_lookup _ _ _ _ _ _ H (worldName_not_backupName _ _)).
  now rewrite (proj1 (announced_fields s)).
Qed.

(** When the copy phase returns without error, the backup directory holds
    whatever the world holds: every file with its data, every directory. *)
Lemma copy_phase_copies (fuel : nat) (s s1 : State) :
  copy_phase fuel s = (Ok tt, s1) ->
  forall (q : Fs.path) (n : Fs.node),
    Fs.lookup (worldPath (config s) ++ q)%list (disk s) = Some n ->
    exists n', Fs.lookup (backupName (config s) (clock s) :: q) (disk s1) = Some n'
               /\ same_kind n n'.
Proof.
  rewrite copy_phase_run. unfold bind.
  destruct (fs_mkdirSync _ (announced s)) as [[[]|e|] s'] eqn:Emk; try discriminate.
  apply fs_mkdirSync_step in Emk as [Hmk _].
  intros H q n Hq.
  apply (copyDirectorySync_copies _ _ (worldName_not_backupName _ _) fuel [] [] s' s1 H q n).
  unfold worldPath in *. cbn [app] in *.
  rewrite (copy_step_lookup _ _ _ _ _ _ Hmk (worldName_not_backupName _ _)).
  now rewrite (proj1 (announced_fields s)).
Qed.

Lemma backupExistingWorld_events (fuel : nat) (s s1 : State) (rc : Result unit) :
  copy_phase fuel s = (rc, s1) ->
  events (snd (backupExistingWorld fuel s))
  = (events s1 ++ match rc with
                  | Ok _ => removal_events (config s) (clock s) s1
                  | _ => []
                  end)%list
  /\ (rc <> OutOfFuel -> fst (backupExistingWorld fuel s) <> OutOfFuel).
Proof.
  intros E. rewrite backupExistingWorld_phases, E.
  destruct rc as [[]|e|].
  - destruct (removal_phase_events (config s) (clock s) s1) as [Hev Hret].
    destruct (removal_phase (config s) (clock s) s1) as [[res|e|] s2];
      cbn [fst snd] in *; (split; [exact Hev | congruence || discriminate]).
  - cbn [snd fst]. rewrite app_nil_r. split; [reflexivity | discriminate].
  - cbn [snd fst]. rewrite app_nil_r. split; [reflexivity | congruence].
Qed.



(** The run of the witness: the copy, then the removal; the backup holds
    the world and the world is gone. *)
Example backup_of_plain_world :
  let r := backupExistingWorld 3 manager_seed_changed in
  fst r = Ok (BackupResult.mk true (Some "world_backup_2024-01-02T03-04-05-678Z") None)
  /\ disk (snd r)
     = Fs.Dir true [("world_backup_2024-01-02T03-04-05-678Z", plain_world)]
  /\ filter (fun e => is_copy_event e || is_rm_event e) (events (snd r))
     = [ FsMkdir ["world_backup_2024-01-02T03-04-05-678Z"];
         FsStat ["world"];
         FsMkdir ["world_backup_2024-01-02T03-04-05-678Z"];
         FsReaddir ["world"];
         FsStat ["world"; "level.dat"];
         FsCopyFile ["world"; "level.dat"]
                    ["world_backup_2024-01-02T03-04-05-678Z"; "level.dat"];
         FsStat ["world"; "region"];
         FsMkdir ["world_backup_2024-01-02T03-04-05-678Z"; "region"];
         FsReaddir ["world"; "region"];
         FsStat ["world"; "region"; "r.0.0.mca"];
         FsCopyFile ["world"; "region"; "r.0.0.mca"]
                    ["world_backup_2024-01-02T03-04-05-678Z"; "region"; "r.0.0.mca"];
         FsRm ["world"] ].
Proof. vm_compute. repeat split. Qed.

(** With too little fuel the model of the copy gives up, and says so. *)
Example backup_out_of_fuel :
  fst (backupExistingWorld 2 manager_seed_changed) = OutOfFuel.
Proof. reflexivity. Qed.

(** ** World and seed: what a failed backup leaves as it was *)

Lemma checkSeedChange_seed_changed (fuel : nat) (s : State) :
  Fs.existsSync (worldPath (config s)) (disk s) = true ->
  configuredSeed (config s) <> recordedSeed (config s) ->
  checkSeedChange fuel s
  = (backupResult <- backupExistingWorld fuel ;;
     after_backup (configuredSeed (config s)) backupResult) (seed_change_detected s).
Proof.
  intros Hex Hseed. apply String.eqb_neq in Hseed.
  destruct s as [a b c d e f g h i j k l m n o p q r t u w x].
  simp_state. simpl in Hex, Hseed.
  unfold checkSeedChange, after_backup, seed_change_detected, fs_existsSync. run.
  rewrite Hex, Hseed. cbn [negb]. run.
  repeat (rewrite slice_last_app || rewrite <- app_assoc). cbn [app map].
  reflexivity.
Qed.

Lemma removal_phase_keeps_config (c : Config.t) (now : Clock) (s1 : State) :
  config (snd (removal_phase c now s1)) = config s1
  /\ configFile (snd (removal_phase c now s1)) = configFile s1.
Proof.
  destruct s1 as [a b c' d e f g h i j k l m n o p q r t u w x].
  unfold removal_phase. run. rewrite removeDirectorySync_run. run.
  destruct (Fs.existsSync (worldPath c) q); run.
  - destruct (Fs.rmSync (worldPath c) q) as [d' [err|]]; run; split; reflexivity.
  - split; reflexivity.
Qed.

Lemma copy_step_keeps_config (dest : Fs.path) (s s' : State) :
  copy_step dest s s' -> config s' = config s /\ configFile s' = configFile s.
Proof. intros [E _]. rewrite E. destruct s; split; reflexivity. Qed.

(** The backup, whatever it returns, leaves the configuration and its
    file alone. *)
Lemma backupExistingWorld_keeps_config (fuel : nat) (s : State) :
  config (snd (backupExistingWorld fuel s)) = config s
  /\ configFile (snd (backupExistingWorld fuel s)) = configFile s.
Proof.
  rewrite backupExistingWorld_phases.
  destruct (copy_phase fuel s) as [rc s1] eqn:E.
  destruct (copy_step_keeps_config _ _ _ (copy_phase_step fuel s s1 rc E)) as [Hc Hf].
  destruct (announced_fields s) as (_ & Hc0 & Hf0 & _).
  rewrite Hc0 in Hc. rewrite Hf0 in Hf.
  destruct rc as [[]|e|]; cbn [snd]; [|now split|now split].
  destruct (removal_phase_keeps_config (config s) (clock s) s1) as [Hc2 Hf2].
  destruct (removal_phase (config s) (clock s) s1) as [[res|e|] s2]; cbn [snd] in *;
    split; congruence.
Qed.

(** A failure of the copy phase is a failed backup that left the world as
    it was. *)
Lemma failed_copy_keeps_world (fuel : nat) (s : State) (e : Exn) :
  fst (copy_phase fuel s) = Throw e ->
  fst (backupExistingWorld fuel s)
  = Ok (BackupResult.mk false None (Some (Exn_message e)))
  /\ forall q, Fs.lookup (worldPath (config s) ++ q)%list (disk (snd (backupExistingWorld fuel s)))
               = Fs.lookup (worldPath (config s) ++ q)%list (disk s).
Proof.
  intros H. rewrite backupExistingWorld_phases.
  destruct (copy_phase fuel s) as [rc s1] eqn:E. cbn [fst] in H. subst rc.
  cbn [fst snd]. split; [reflexivity|].
  exact (copy_phase_keeps_world fuel s s1 _ E).
Qed.

(** What of C1 holds for every failed backup: the decision is
    [shouldCreateNew = false] with reason [backup_failed], and neither the
    configuration nor its file is updated. *)
Lemma failed_backup_keeps_config (fuel : nat) (s : State) (res : BackupResult.t) :
  Fs.existsSync (worldPath (config s)) (disk s) = true ->
  configuredSeed (config s) <> recordedSeed (config s) ->
  fst (backupExistingWorld fuel (seed_change_detected s)) = Ok res ->
  BackupResult.success res = false ->
  fst (checkSeedChange fuel s) = Ok (SeedCheck.mk false backup_failed None)
  /\ config (snd (checkSeedChange fuel s)) = config s
  /\ configFile (snd (checkSeedChange fuel s)) = configFile s
  /\ disk (snd (checkSeedChange fuel s))
     = disk (snd (backupExistingWorld fuel (seed_change_detected s))).
Proof.
  intros Hex Hseed Hres Hfail.
  pose proof (checkSeedChange_seed_changed fuel s Hex Hseed) as E.
  unfold bind at 1 in E.
  destruct (backupExistingWorld_keeps_config fuel (seed_change_detected s)) as [Hc Hf].
  destruct (backupExistingWorld fuel (seed_change_detected s)) as [rb s1].
  cbn [fst snd] in *. subst rb. unfold after_backup in E. rewrite Hfail in E.
  unfold bind in E. rewrite !broadcastLog_run in E. cbv zeta in E. unfold ret in E.
  rewrite E. cbn [fst snd].
  assert (Hc' : config s1 = config s) by (rewrite Hc; destruct s; reflexivity).
  assert (Hf' : configFile s1 = configFile s) by (rewrite Hf; destruct s; reflexivity).
  clear E Hc Hf. destruct s1. simp_state. simpl in Hc', Hf'. now repeat split.
Qed.

(** What of C1 holds when the backup fails before its removal step: the
    world is as it was. *)
Lemma failed_copy_leaves_world_untouched (fuel : nat) (s : State) (e : Exn) :
  Fs.existsSync (worldPath (config s)) (disk s) = true ->
  configuredSeed (config s) <> recordedSeed (config s) ->
  fst (copy_phase fuel (seed_change_detected s)) = Throw e ->
  fst (checkSeedChange fuel s) = Ok (SeedCheck.mk false backup_failed None)
  /\ forall q, Fs.lookup (worldPath (config s) ++ q)%list (disk (snd (checkSeedChange fuel s)))
               = Fs.lookup (worldPath (config s) ++ q)%list (disk s).
Proof.
  intros Hex Hseed Hcopy.
  destruct (failed_copy_keeps_world fuel (seed_change_detected s) e Hcopy) as [Hres Hworld].
  destruct (failed_backup_keeps_config fuel s _ Hex Hseed Hres eq_refl) as (Hd & _ & _ & Hdisk).
  split; [exact Hd|]. intros q. rewrite Hdisk.
  replace (config s) with (config (seed_change_detected s)) by (destruct s; reflexivity).
  rewrite Hworld. destruct s; reflexivity.
Qed.

(** An unwritable server directory: the backup directory cannot be made,
    the backup fails, the world is as it was. *)
Example unwritable_destination :
  let s := fresh seed_123 clock0 (Fs.Dir false [("world", plain_world)]) in
  let r := checkSeedChange 3 s in
  fst r = Ok (SeedCheck.mk false backup_failed None)
  /\ disk (snd r) = disk s
  /\ config (snd r) = config s.
Proof. vm_compute. repeat split. Qed.

(* ================================================================== *)
(** * Further properties *)
(* ================================================================== *)

(** ** The classifier: the name a join or leave line reports *)

Lemma match_at_whole_word (lit : string) (c0 : ascii) (lit' : string) :
  lit = String c0 lit' -> Js.is_word c0 = false ->
  forall w post,
    w <> "" -> Js.all_chars Js.is_word w = true ->
    WordThenLit.match_at lit (w ++ lit ++ post) = Some w.
Proof.
  intros Hlit Hc0. induction w as [|c w IH]; intros post Hne Hall.
  - contradiction.
  - simpl in Hall. apply andb_true_iff in Hall as [Hc Hw].
    simpl. rewrite Hc. destruct w as [|c' w'].
    + simpl. replace (WordThenLit.match_at lit (lit ++ post)) with (@None string).
      * assert (P : prefix lit (lit ++ post) = true) by (apply prefix_iff; eauto).
        now rewrite P.
      * rewrite Hlit. simpl. now rewrite Hc0.
    + rewrite (IH post); [reflexivity | discriminate | assumption].
Qed.

Lemma exec_leftmost (lit : string) (c0 : ascii) (lit' : string) :
  lit = String c0 lit' -> Js.is_word c0 = false ->
  forall pre w post,
    leftmost_capture lit pre w post ->
    WordThenLit.exec lit (pre ++ w ++ lit ++ post) = Some w.
Proof.
  intros Hlit Hc0. induction pre as [|c pre IH]; intros w post (Hne & Hall & Hleft).
  - simpl. rewrite exec_eq.
    now rewrite (match_at_whole_word lit c0 lit' Hlit Hc0 w post Hne Hall).
  - rewrite exec_eq.
    destruct (WordThenLit.match_at lit (String c pre ++ w ++ lit ++ post)) as [w'|] eqn:E.
    + apply match_at_sound in E as (Hne' & Hall' & post' & Epost').
      specialize (Hleft "" w' post' Epost' Hne' Hall'). simpl in Hleft. lia.
    + simpl. apply IH. repeat split; try assumption.
      intros pre' w' post' Heq Hne' Hall'.
      assert (L : (String.length (String c pre) <= String.length (String c pre'))%nat).
      { apply (Hleft (String c pre') w' post'); [|assumption|assumption].
        simpl. now rewrite Heq. }
      simpl in L. lia.
Qed.

(** X1. A line reports the player of its leftmost join (or, without a
    join, leave) text: the whole word in front of it. *)
Theorem player_line_reports_leftmost_name (pre w post : string) :
  (leftmost_capture " joined the game" pre w post ->
   parseMinecraftLog (pre ++ w ++ " joined the game" ++ post)
   = ParsedLog.mk Player ("🟢 " ++ w ++ " joined the game")
       (pre ++ w ++ " joined the game" ++ post))
  /\ (leftmost_capture " left the game" pre w post ->
      Js.includes (pre ++ w ++ " left the game" ++ post) "joined the game" = false ->
      parseMinecraftLog (pre ++ w ++ " left the game" ++ post)
      = ParsedLog.mk Player ("🔴 " ++ w ++ " left the game")
          (pre ++ w ++ " left the game" ++ post)).
Proof.
  split.
  - intros H. unfold parseMinecraftLog.
    assert (I : Js.includes (pre ++ w ++ " joined the game" ++ post) "joined the game" = true).
    { apply includes_iff. exists (pre ++ w ++ " "), post.
      now rewrite !append_assoc. }
    rewrite I.
    rewrite (exec_leftmost " joined the game" " " "joined the game" eq_refl eq_refl pre w post H).
    reflexivity.
  - intros H J. unfold parseMinecraftLog. rewrite J.
    assert (I : Js.includes (pre ++ w ++ " left the game" ++ post) "left the game" = true).
    { apply includes_iff. exists (pre ++ w ++ " "), post.
      now rewrite !append_assoc. }
    rewrite I.
    rewrite (exec_leftmost " left the game" " " "left the game" eq_refl eq_refl pre w post H).
    reflexivity.
Qed.

Lemma leftmost_capture_at_start (lit w post : string) :
  w <> "" -> Js.all_chars Js.is_word w = true -> leftmost_capture lit "" w post.
Proof. intros Hne Hall. repeat split; try assumption. intros; simpl; lia. Qed.

Lemma player_line_reports_leftmost_name_witness :
  parseMinecraftLog ("" ++ "Steve_42" ++ " joined the game" ++ " (twice)")
  = ParsedLog.mk Player ("🟢 " ++ "Steve_42" ++ " joined the game")
      ("" ++ "Steve_42" ++ " joined the game" ++ " (twice)")
  /\ parseMinecraftLog ("" ++ "Bob" ++ " left the game" ++ "")
     = ParsedLog.mk Player ("🔴 " ++ "Bob" ++ " left the game")
         ("" ++ "Bob" ++ " left the game" ++ "").
Proof.
  split.
  - apply (proj1 (player_line_reports_leftmost_name "" "Steve_42" " (twice)")).
    apply leftmost_capture_at_start; [discriminate | reflexivity].
  - apply (proj2 (player_line_reports_leftmost_name "" "Bob" "")).
    + apply leftmost_capture_at_start; [discriminate | reflexivity].
    + reflexivity.
Defined.

(** ** The classifier: the decorated text keeps the line *)

Lemma includes_suffix (pre s : string) : Js.includes (pre ++ s) s = true.
Proof. apply includes_iff. exists pre, "". now rewrite append_empty_r. Qed.

(** X2. Except for the four rules that replace the text (join, leave, and
    the two bridge announcements), the decorated message contains the
    line as it came; the line itself is always kept as [original]. *)
Theorem decorated_message_keeps_line (message : string) :
  ParsedLog.original (parseMinecraftLog message) = message
  /\ (Js.includes (ParsedLog.message (parseMinecraftLog message)) message = true
      \/ Js.includes message "joined the game" = true
      \/ Js.includes message "left the game" = true
      \/ Js.includes message "Geyser" && Js.includes message "Started Geyser" = true
      \/ Js.includes message "ViaVersion" && Js.includes message "enabled" = true).
Proof.
  split; [apply parseMinecraftLog_original|].
  unfold parseMinecraftLog.
  destruct (Js.includes message "joined the game"); [auto|].
  destruct (Js.includes message "left the game"); [auto|].
  repeat match goal with
         | |- context [if ?b then _ else _] =>
             destruct b eqn:?; cbn [ParsedLog.message];
             [ first [ left; apply includes_suffix | auto 6 ] | ]
         end.
  left. apply (includes_suffix "").
Qed.

(** ** The patterns of the tunnel supervisor *)

Lemma strip_prefix_iff (lit s r : string) :
  Re.strip_prefix lit s = Some r <-> s = lit ++ r.
Proof.
  revert s. induction lit as [|a lit IH]; intros s; simpl.
  - split; [intros [= ->]; reflexivity | intros ->; reflexivity].
  - destruct s as [|b s].
    + split; discriminate.
    + destruct (Ascii.eqb a b) eqn:E.
      * apply Ascii.eqb_eq in E. subst b. rewrite IH.
        split; [intros ->; reflexivity | intros [= ->]; reflexivity].
      * apply Ascii.eqb_neq in E.
        split; [discriminate | intros [= -> _]; contradiction].
Qed.

Lemma span_spec (p : ascii -> bool) (s w r : string) :
  Re.span p s = (w, r) ->
  s = w ++ r /\ Js.all_chars p w = true /\ stops p r.
Proof.
  revert w r. induction s as [|c s IH]; intros w r; simpl.
  - intros [= <- <-]. repeat split.
  - destruct (p c) eqn:E.
    + destruct (Re.span p s) as [w' r'] eqn:Es. intros [= <- <-].
      destruct (IH w' r' eq_refl) as (Hs & Hall & Hr).
      simpl. rewrite E, Hall, <- Hs. repeat split. assumption.
    + intros [= <- <-]. simpl. repeat split. assumption.
Qed.

Lemma span_run (p : ascii -> bool) (w r : string) :
  Js.all_chars p w = true -> stops p r -> Re.span p (w ++ r) = (w, r).
Proof.
  induction w as [|c w IH]; simpl; intros Hall Hr.
  - destruct r as [|c r]; [reflexivity|]. simpl in Hr. simpl. now rewrite Hr.
  - apply andb_true_iff in Hall as [Hc Hw]. now rewrite Hc, (IH Hw Hr).
Qed.

Lemma span_starts (p : ascii -> bool) (c : ascii) (s : string) :
  p c = true -> fst (Re.span p (String c s)) <> "".
Proof. intros H. simpl. rewrite H. destruct (Re.span p s). discriminate. Qed.

Lemma is_empty_false (s : string) : Re.is_empty s = false <-> s <> "".
Proof. destruct s; simpl; split; congruence. Qed.

Lemma arrow_local_port_sound (s port : string) :
  Re.arrow_local_port s = Some port ->
  exists ws1 ws2 rest,
    s = binding_text ws1 ws2 port ++ rest
    /\ ws1 <> "" /\ Js.all_chars Js.is_space ws1 = true
    /\ ws2 <> "" /\ Js.all_chars Js.is_space ws2 = true
    /\ port <> "" /\ Js.all_chars Js.is_digit port = true
    /\ stops Js.is_digit rest.
Proof.
  unfold Re.arrow_local_port.
  destruct (Re.span Js.is_space s) as [ws1 r1] eqn:E1.
  destruct (Re.is_empty ws1) eqn:N1; [discriminate|].
  destruct (Re.strip_prefix "=>" r1) as [r2|] eqn:E2; [|discriminate].
  destruct (Re.span Js.is_space r2) as [ws2 r3] eqn:E3.
  destruct (Re.is_empty ws2) eqn:N2; [discriminate|].
  destruct (Re.strip_prefix "127.0.0.1:" r3) as [r4|] eqn:E4; [|discriminate].
  destruct (Re.span Js.is_digit r4) as [ds rest] eqn:E5.
  destruct (Re.is_empty ds) eqn:N3; [discriminate|].
  intros [= <-].
  apply span_spec in E1 as (-> & A1 & _).
  apply strip_prefix_iff in E2 as ->.
  apply span_spec in E3 as (-> & A2 & _).
  apply strip_prefix_iff in E4 as ->.
  apply span_spec in E5 as (-> & A3 & S3).
  apply is_empty_false in N1, N2, N3.
  exists ws1, ws2, rest. unfold binding_text.
  repeat split; try assumption.
  rewrite !append_assoc. reflexivity.
Qed.

Lemma arrow_local_port_complete (ws1 ws2 port rest : string) :
  ws1 <> "" -> Js.all_chars Js.is_space ws1 = true ->
  ws2 <> "" -> Js.all_chars Js.is_space ws2 = true ->
  port <> "" -> Js.all_chars Js.is_digit port = true ->
  stops Js.is_digit rest ->
  Re.arrow_local_port (binding_text ws1 ws2 port ++ rest) = Some port.
Proof.
  intros N1 A1 N2 A2 N3 A3 S3. unfold Re.arrow_local_port, binding_text.
  rewrite !append_assoc. cbn [append].
  rewrite span_run; [|assumption|reflexivity].
  apply is_empty_false in N1. rewrite N1.
  cbn [Re.strip_prefix Ascii.eqb Bool.eqb].
  rewrite span_run; [|assumption|reflexivity].
  apply is_empty_false in N2. rewrite N2.
  cbn [Re.strip_prefix Ascii.eqb Bool.eqb].
  rewrite (span_run Js.is_digit port rest A3 S3).
  apply is_empty_false in N3. now rewrite N3.
Qed.

Lemma all_chars_app (p : ascii -> bool) (a b : string) :
  Js.all_chars p (a ++ b) = Js.all_chars p a && Js.all_chars p b.
Proof. induction a as [|c a IH]; simpl; [reflexivity | now rewrite IH, andb_assoc]. Qed.

Lemma tunnel_from_sound (s : string) :
  forall acc group1 port,
    Re.tunnel_from acc s = Some (group1, port) ->
    exists g tail,
      group1 = acc ++ g /\ s = g ++ tail
      /\ g <> "" /\ Js.all_chars not_terminator g = true
      /\ Re.arrow_local_port tail = Some port.
Proof.
  induction s as [|c s IH]; intros acc group1 port; simpl; [discriminate|].
  destruct (Js.is_line_terminator c) eqn:T; [discriminate|].
  destruct (Re.arrow_local_port s) as [p|] eqn:A.
  - intros [= <- <-]. exists (String c ""), s. simpl.
    unfold not_terminator. rewrite T. repeat split; [discriminate | assumption].
  - intros H. apply IH in H as (g & tail & -> & -> & Hne & Hall & Hp).
    exists (String c g), tail. rewrite append_assoc. simpl.
    unfold not_terminator at 1. rewrite T, Hall.
    repeat split; [discriminate | assumption].
Qed.

(** X3. What a tunnel line is, among the lines of ASCII text: the text in
    front of the binding, which is not empty and holds no line terminator,
    then white space, [=>], white space, the local address and a port in
    digits.  Every line of that shape whose first part is ASCII text without
    white space is matched, with that part and that port. *)
Theorem tunnel_line_shape :
  (forall line group1 port,
      Js.is_ascii line = true ->
      Re.tunnelMatch line = Some (group1, port) ->
      group1 <> "" /\ Js.all_chars not_terminator group1 = true
      /\ port <> "" /\ Js.all_chars Js.is_digit port = true
      /\ exists ws1 ws2 rest,
           line = group1 ++ binding_text ws1 ws2 port ++ rest
           /\ ws1 <> "" /\ Js.all_chars Js.is_space ws1 = true
           /\ ws2 <> "" /\ Js.all_chars Js.is_space ws2 = true
           /\ stops Js.is_digit rest)
  /\ (forall addr ws1 ws2 port rest,
         addr <> "" -> Js.is_ascii addr = true ->
         Js.all_chars no_space addr = true ->
         ws1 <> "" -> Js.all_chars Js.is_space ws1 = true ->
         ws2 <> "" -> Js.all_chars Js.is_space ws2 = true ->
         port <> "" -> Js.all_chars Js.is_digit port = true ->
         stops Js.is_digit rest ->
         Re.tunnelMatch (addr ++ binding_text ws1 ws2 port ++ rest) = Some (addr, port)).
Proof.
  split.
  - intros line group1 port _ H. unfold Re.tunnelMatch in H.
    apply tunnel_from_sound in H as (g & tail & -> & -> & Hne & Hall & Hp).
    simpl. apply arrow_local_port_sound in Hp
      as (ws1 & ws2 & rest & -> & N1 & A1 & N2 & A2 & N3 & A3 & S3).
    repeat split; try assumption.
    exists ws1, ws2, rest. repeat split; assumption.
  - intros addr ws1 ws2 port rest Na _ Aa N1 A1 N2 A2 N3 A3 S3.
    apply tunnelMatch_address; [|assumption|assumption].
    now apply arrow_local_port_complete.
Qed.

Lemma tunnel_line_shape_witness :
  ("pale-tiger.gl.joinmc.link" <> ""
   /\ Js.all_chars not_terminator "pale-tiger.gl.joinmc.link" = true
   /\ "19132" <> "" /\ Js.all_chars Js.is_digit "19132" = true
   /\ exists ws1 ws2 rest,
        "pale-tiger.gl.joinmc.link => 127.0.0.1:19132 (udp)"
        = "pale-tiger.gl.joinmc.link" ++ binding_text ws1 ws2 "19132" ++ rest
        /\ ws1 <> "" /\ Js.all_chars Js.is_space ws1 = true
        /\ ws2 <> "" /\ Js.all_chars Js.is_space ws2 = true
        /\ stops Js.is_digit rest)
  /\ Re.tunnelMatch ("pale-tiger.gl.joinmc.link" ++ binding_text " " "  " "25565" ++ " (tcp)")
     = Some ("pale-tiger.gl.joinmc.link", "25565").
Proof.
  split.
  - apply (proj1 tunnel_line_shape); reflexivity.
  - apply (proj2 tunnel_line_shape); try discriminate; reflexivity.
Defined.

(** ** The setup link *)

Lemma setupUrlMatch_eq (s : string) :
  Re.setupUrlMatch s
  = match Re.setupUrl_at s with
    | Some u => Some u
    | None =>
        match s with
        | EmptyString => None
        | String _ s' => Re.setupUrlMatch s'
        end
    end.
Proof. destruct s; reflexivity. Qed.

Lemma setupUrl_at_sound (s u : string) :
  Re.setupUrl_at s = Some u ->
  exists tok rest,
    s = setup_text tok ++ rest /\ u = Re.claim_prefix ++ tok
    /\ tok <> "" /\ Js.all_chars Re.is_alnum tok = true /\ stops Re.is_alnum rest.
Proof.
  unfold Re.setupUrl_at.
  destruct (Re.strip_prefix ("Visit link to setup " ++ Re.claim_prefix) s) as [r|] eqn:E;
    [|discriminate].
  destruct (Re.span Re.is_alnum r) as [tok rest] eqn:Es.
  destruct (Re.is_empty tok) eqn:N; [discriminate|].
  intros [= <-].
  apply strip_prefix_iff in E as ->.
  apply span_spec in Es as (-> & A & S).
  apply is_empty_false in N.
  exists tok, rest. repeat split; assumption.
Qed.

Lemma setupUrl_at_complete (tok rest : string) :
  tok <> "" -> Js.all_chars Re.is_alnum tok = true ->
  Re.setupUrl_at (setup_text tok ++ rest) <> None.
Proof.
  intros N A. unfold Re.setupUrl_at.
  assert (P : Re.strip_prefix ("Visit link to setup " ++ Re.claim_prefix)
                (setup_text tok ++ rest) = Some (tok ++ rest))
    by (apply strip_prefix_iff; reflexivity).
  rewrite P.
  destruct tok as [|c tok]; [contradiction|].
  simpl in A. apply andb_true_iff in A as [Hc _].
  pose proof (span_starts Re.is_alnum c (tok ++ rest) Hc) as Q.
  change (String c tok ++ rest) with (String c (tok ++ rest)).
  destruct (Re.span Re.is_alnum (String c (tok ++ rest))) as [t r].
  simpl in Q. apply is_empty_false in Q. rewrite Q. discriminate.
Qed.

(** X4. The setup link the tunnel supervisor extracts: a claim address with
    a token of letters and digits, as long as the letters and digits go,
    taken where the output says to visit it; an output that says so with
    such a token always yields a link. *)
Theorem setup_link_capture :
  (forall output url,
      Re.setupUrlMatch output = Some url ->
      exists pre tok rest,
        output = pre ++ setup_text tok ++ rest
        /\ url = Re.claim_prefix ++ tok
        /\ tok <> "" /\ Js.all_chars Re.is_alnum tok = true
        /\ stops Re.is_alnum rest)
  /\ (forall pre tok rest,
         tok <> "" -> Js.all_chars Re.is_alnum tok = true ->
         Re.setupUrlMatch (pre ++ setup_text tok ++ rest) <> None).
Proof.
  split.
  - induction output as [|c output IH]; intros url; rewrite setupUrlMatch_eq.
    + discriminate.
    + destruct (Re.setupUrl_at (String c output)) eqn:E.
      * intros [= <-]. apply setupUrl_at_sound in E as (tok & rest & E & H).
        exists "", tok, rest. split; assumption.
      * intros H. apply IH in H as (pre & tok & rest & -> & H).
        exists (String c pre), tok, rest. split; [reflexivity | assumption].
  - intros pre tok rest N A. induction pre as [|c pre IH]; rewrite setupUrlMatch_eq.
    + change ("" ++ setup_text tok ++ rest) with (setup_text tok ++ rest).
      pose proof (setupUrl_at_complete tok rest N A) as Q.
      destruct (Re.setupUrl_at (setup_text tok ++ rest)); [discriminate | contradiction].
    + destruct (Re.setupUrl_at (String c pre ++ setup_text tok ++ rest));
        [discriminate | exact IH].
Qed.

Lemma setup_link_capture_witness :
  (exists pre tok rest,
      "Visit link to setup https://playit.gg/claim/09f3ab, then wait"
      = pre ++ setup_text tok ++ rest
      /\ "https://playit.gg/claim/09f3ab" = Re.claim_prefix ++ tok
      /\ tok <> "" /\ Js.all_chars Re.is_alnum tok = true
      /\ stops Re.is_alnum rest)
  /\ Re.setupUrlMatch ("[playit] " ++ setup_text "a1B2c3" ++ " to continue") <> None.
Proof.
  split.
  - apply (proj1 setup_link_capture). reflexivity.
  - apply (proj2 setup_link_capture); [discriminate | reflexivity].
Defined.

(** ** Running a method, one call at a time *)

Ltac crun_step :=
  cbv beta iota zeta delta
    [bind ret gets modify when emit kill stdin_write throw try_catch out_of_fuel
     lift_fs spawn and_then property
     minecraftProcess playitProcess localIP publicIP serverStatus startTime
     serverReady logs config playitInstalled playitPath playitAddresses
     lastPlayitOutput playitTunnelsDetected playitSetupUrl clock disk
     configFile configFileWritable alive nextHandle events
     set_minecraftProcess set_playitProcess set_serverStatus set_startTime
     set_serverReady set_logs set_config set_playitAddresses
     set_lastPlayitOutput set_playitTunnelsDetected set_playitSetupUrl
     set_disk set_configFile set_alive set_nextHandle set_events set_clock
     set_playitInstalled java bedrock fst snd logged logEntryOf negb].

Ltac crun := crun_step; repeat (rewrite broadcastLog_run; crun_step).

Ltac simp_state_in H :=
  cbn [minecraftProcess playitProcess localIP publicIP serverStatus startTime
       serverReady logs config playitInstalled playitPath playitAddresses
       lastPlayitOutput playitTunnelsDetected playitSetupUrl clock disk
       configFile configFileWritable alive nextHandle events
       set_minecraftProcess set_playitProcess set_serverStatus set_startTime
       set_serverReady set_logs set_config set_playitAddresses
       set_lastPlayitOutput set_playitTunnelsDetected set_playitSetupUrl
       set_disk set_configFile set_alive set_nextHandle set_events set_clock
       set_playitInstalled java bedrock fst snd] in H.

Ltac slices := repeat (rewrite slice_last_app || rewrite <- app_assoc); cbn [app map].

Lemma broadcastLog_logged (message : string) (type : LogType) (s : State) :
  broadcastLog message type s = (Ok tt, logged [logEntryOf (clock s, (message, type))] s).
Proof. rewrite broadcastLog_run. reflexivity. Qed.

Lemma logged_logged (es1 es2 : list LogEntry.t) (s : State) :
  logged es2 (logged es1 s) = logged (es1 ++ es2) s.
Proof.
  destruct s. unfold logged. simp_state.
  now rewrite slice_last_app, map_app, !app_assoc.
Qed.

(** *** A method run on a state given by its fields

    The program stays as it is written; each step runs the first call of a
    sequence on the state and leaves the rest of the sequence applied to
    the new state. *)

Lemma bind_assoc {A B C : Type} (m : M A) (f : A -> M B) (g : B -> M C) (s : State) :
  bind (bind m f) g s = bind m (fun a => bind (f a) g) s.
Proof. unfold bind. destruct (m s) as [[a|e|] s1]; reflexivity. Qed.

Lemma bind_ok {A B : Type} (m : M A) (k : A -> M B) (s : State) (a : A) (s' : State) :
  m s = (Ok a, s') -> bind m k s = k a s'.
Proof. intros H. unfold bind. now rewrite H. Qed.

Lemma bind_broadcastLog {B : Type} (message : string) (type : LogType)
    (k : unit -> M B) (s : State) :
  bind (broadcastLog message type) k s
  = k tt (logged [logEntryOf (clock s, (message, type))] s).
Proof. apply bind_ok, broadcastLog_logged. Qed.

Lemma logged_when_eq (b : bool) (es : list LogEntry.t) (s : State) :
  logged_when b es s = if b then logged es s else s.
Proof. destruct s, b; unfold logged_when, logged; simp_state; now rewrite ?app_nil_r. Qed.

Lemma bind_when_log {B : Type} (b : bool) (message : string) (type : LogType)
    (k : unit -> M B) (s : State) :
  bind (when b (broadcastLog message type)) k s
  = k tt (logged_when b [logEntryOf (clock s, (message, type))] s).
Proof.
  rewrite logged_when_eq. destruct b; [apply bind_broadcastLog | reflexivity].
Qed.

Lemma bind_modify {B : Type} (f : State -> State) (k : unit -> M B) (s : State) :
  bind (modify f) k s = k tt (f s).
Proof. reflexivity. Qed.

Lemma bind_gets {A B : Type} (f : State -> A) (k : A -> M B) (s : State) :
  bind (gets f) k s = k (f s) s.
Proof. reflexivity. Qed.

Lemma spawn_run (command : string) (args : list string) (s : State) :
  spawn command args s
  = (Ok (nextHandle s),
     set_alive (nextHandle s :: alive s)
       (set_nextHandle (S (nextHandle s))
          (set_events (events s ++ [Spawn (nextHandle s) command args]) s))).
Proof. destruct s; reflexivity. Qed.

Lemma bind_spawn {B : Type} (command : string) (args : list string)
    (k : Handle -> M B) (s : State) :
  bind (spawn command args) k s
  = k (nextHandle s)
      (set_alive (nextHandle s :: alive s)
         (set_nextHandle (S (nextHandle s))
            (set_events (events s ++ [Spawn (nextHandle s) command args]) s))).
Proof. apply bind_ok, spawn_run. Qed.

Lemma bind_property_missing {A B C : Type} (name : string) (f : A -> B)
    (k : B -> M C) (s : State) :
  bind (property None name f) k s
  = (Throw (TypeError ("Cannot read properties of undefined (reading '" ++ name ++ "')")),
     s).
Proof. reflexivity. Qed.

Ltac field_norm t :=
  eval cbv beta iota zeta delta
    [minecraftProcess playitProcess localIP publicIP serverStatus startTime
     serverReady logs config playitInstalled playitPath playitAddresses
     lastPlayitOutput playitTunnelsDetected playitSetupUrl clock disk
     configFile configFileWritable alive nextHandle events
     set_minecraftProcess set_playitProcess set_serverStatus set_startTime
     set_serverReady set_logs set_config set_playitAddresses
     set_lastPlayitOutput set_playitTunnelsDetected set_playitSetupUrl
     set_disk set_configFile set_alive set_nextHandle set_events set_clock
     set_playitInstalled java bedrock fst snd logged logged_when logEntryOf] in t.

(** A step by a call whose run is known: [lemma] is [m s = (Ok a, s')]. *)
Ltac mstep_by lemma :=
  let H := fresh "Hrun" in
  pose proof lemma as H;
  lazymatch type of H with
  | _ = (Ok _, ?st1) => let st' := field_norm st1 in change st1 with st' in H
  end;
  first [ rewrite (bind_ok _ _ _ _ _ H) | rewrite H ];
  clear H.

Ltac mstep :=
  cbv beta iota delta [java bedrock];
  lazymatch goal with
  | |- context [bind (bind ?m ?f) ?k ?st] => rewrite (bind_assoc m f k st)
  | |- context [bind (gets ?f) ?k ?st] =>
      let v := field_norm (f st) in change (bind (gets f) k st) with (k v st)
  | |- context [bind (modify ?f) ?k ?st] =>
      let st' := field_norm (f st) in change (bind (modify f) k st) with (k tt st')
  | |- context [bind (emit ?e) ?k ?st] =>
      let st' := field_norm (set_events (events st ++ [e]) st) in
      change (bind (emit e) k st) with (k tt st')
  | |- context [bind (kill ?h ?sig) ?k ?st] =>
      let st' := field_norm (set_events (events st ++ [Kill h sig]) st) in
      change (bind (kill h sig) k st) with (k tt st')
  | |- context [bind (stdin_write ?h ?d) ?k ?st] =>
      let st' := field_norm (set_events (events st ++ [StdinWrite h d]) st) in
      change (bind (stdin_write h d) k st) with (k tt st')
  | |- context [bind (ret ?a) ?k ?st] => change (bind (ret a) k st) with (k a st)
  | |- context [bind (broadcastLog ?m ?t) ?k ?st] =>
      rewrite (bind_broadcastLog m t k st);
      let e := field_norm (logEntryOf (clock st, (m, t))) in
      let st' := field_norm (set_events (events st ++ [Emit e])
                               (set_logs (slice_last maxLogs (logs st ++ [e])) st)) in
      change (logged [logEntryOf (clock st, (m, t))] st) with st'
  | |- context [bind (when ?b ?m) ?k ?st] =>
      let b' := eval cbv beta iota delta [negb andb orb Status_eqb] in b in
      lazymatch b' with
      | true => change (bind (when b m) k st) with (bind m k st)
      | false => change (bind (when b m) k st) with (k tt st)
      | _ =>
          lazymatch m with
          | broadcastLog ?msg ?t =>
              rewrite (bind_when_log b msg t k st);
              let e := field_norm (logEntryOf (clock st, (msg, t))) in
              let st' := field_norm (set_events (events st ++ if b then [Emit e] else [])
                                       (set_logs (if b then slice_last maxLogs (logs st ++ [e])
                                                  else logs st) st)) in
              change (logged_when b [logEntryOf (clock st, (msg, t))] st) with st'
          end
      end
  | |- context [bind (if ?b then ?m1 else ?m2) ?k ?st] =>
      let b' := eval cbv beta iota delta [negb andb orb Status_eqb] in b in
      lazymatch b' with
      | true => change (bind (if b then m1 else m2) k st) with (bind m1 k st)
      | false => change (bind (if b then m1 else m2) k st) with (bind m2 k st)
      end
  | |- context [bind (and_then ?a ?m) ?k ?st] =>
      let a' := eval cbv beta iota delta [negb andb orb Status_eqb] in a in
      lazymatch a' with
      | true => change (bind (and_then a m) k st) with (bind m k st)
      | false => change (bind (and_then a m) k st) with (k false st)
      end
  | |- context [bind (property (Some ?b) ?n ?f) ?k ?st] =>
      change (bind (property (Some b) n f) k st) with (k (f b) st)
  | |- context [bind (property None ?n ?f) ?k ?st] =>
      rewrite (bind_property_missing n f k st)
  | |- context [bind resetPlayitState ?k ?st] => mstep_by (resetPlayitState_run st)
  | |- context [bind stopPlayitTunnel ?k ?st] => mstep_by (stopPlayitTunnel_run st)
  | |- context [bind (spawn ?c ?a) ?k ?st] =>
      rewrite (bind_spawn c a k st);
      let h := field_norm (nextHandle st) in
      let st' := field_norm (set_alive (nextHandle st :: alive st)
                               (set_nextHandle (S (nextHandle st))
                                  (set_events (events st ++ [Spawn (nextHandle st) c a]) st))) in
      change (nextHandle st) with h;
      change (set_alive (h :: alive st)
                (set_nextHandle (S h) (set_events (events st ++ [Spawn h c a]) st)))
        with st'
  | |- context [broadcastLog ?m ?t ?st] =>
      rewrite (broadcastLog_logged m t st);
      let e := field_norm (logEntryOf (clock st, (m, t))) in
      let st' := field_norm (set_events (events st ++ [Emit e])
                               (set_logs (slice_last maxLogs (logs st ++ [e])) st)) in
      change (logged [logEntryOf (clock st, (m, t))] st) with st'
  | |- context [modify ?f ?st] =>
      let st' := field_norm (f st) in change (modify f st) with (Ok tt, st')
  | |- context [emit ?e ?st] =>
      let st' := field_norm (set_events (events st ++ [e]) st) in
      change (emit e st) with (Ok tt, st')
  | |- context [stdin_write ?h ?d ?st] =>
      let st' := field_norm (set_events (events st ++ [StdinWrite h d]) st) in
      change (stdin_write h d st) with (Ok tt, st')
  | |- context [@ret ?A ?a ?st] => change (@ret A a st) with (Ok a, st)
  | |- context [when ?b ?m ?st] =>
      let b' := eval cbv beta iota delta [negb andb orb Status_eqb] in b in
      lazymatch b' with
      | true => change (when b m st) with (m st)
      | false => change (when b m st) with (Ok tt, st)
      end
  end.

Ltac mrun := repeat mstep; cbv beta iota delta [java bedrock].

(** ** What a computation is built from, and what it keeps *)

Section Respects.

Variable R : State -> State -> Prop.
Hypothesis R_refl : forall s, R s s.
Hypothesis R_trans : forall s1 s2 s3, R s1 s2 -> R s2 s3 -> R s1 s3.

Lemma respects_ret {A : Type} (a : A) : respects R (ret a).
Proof. intros s r s' [= _ <-]. apply R_refl. Qed.

Lemma respects_gets {A : Type} (f : State -> A) : respects R (gets f).
Proof. intros s r s' [= _ <-]. apply R_refl. Qed.

Lemma respects_throw {A : Type} (e : Exn) : respects R (@throw A e).
Proof. intros s r s' [= _ <-]. apply R_refl. Qed.

Lemma respects_out_of_fuel {A : Type} : respects R (@out_of_fuel A).
Proof. intros s r s' [= _ <-]. apply R_refl. Qed.

Lemma respects_lift_fs {A : Type} (r : Fs.Errno + A) : respects R (lift_fs r).
Proof. destruct r; [apply respects_throw | apply respects_ret]. Qed.

Lemma respects_bind {A B : Type} (m : M A) (k : A -> M B) :
  respects R m -> (forall a, respects R (k a)) -> respects R (bind m k).
Proof.
  intros Hm Hk s r s' E. unfold bind in E.
  destruct (m s) as [[a|e|] s1] eqn:Em.
  - eapply R_trans; [eapply Hm; eassumption | eapply Hk; eassumption].
  - injection E as _ <-. eapply Hm; eassumption.
  - injection E as _ <-. eapply Hm; eassumption.
Qed.

Lemma respects_try_catch {A : Type} (body : M A) (handler : Exn -> M A) :
  respects R body -> (forall e, respects R (handler e)) ->
  respects R (try_catch body handler).
Proof.
  intros Hb Hh s r s' E. unfold try_catch in E.
  destruct (body s) as [[a|e|] s1] eqn:Eb.
  - injection E as _ <-. eapply Hb; eassumption.
  - eapply R_trans; [eapply Hb; eassumption | eapply Hh; eassumption].
  - injection E as _ <-. eapply Hb; eassumption.
Qed.

Lemma respects_when (b : bool) (m : M unit) :
  respects R m -> respects R (when b m).
Proof. intros H. destruct b; [exact H | apply respects_ret]. Qed.

Lemma respects_forEach {A : Type} (l : list A) (f : A -> M unit) :
  (forall x, respects R (f x)) -> respects R (forEach l f).
Proof.
  intros H. induction l as [|x l IH]; simpl.
  - apply respects_ret.
  - apply respects_bind; [apply H | intros _; exact IH].
Qed.

End Respects.

Section Returns.

Variable R : State -> State -> Prop.
Hypothesis R_refl : forall s, R s s.
Hypothesis R_trans : forall s1 s2 s3, R s1 s2 -> R s2 s3 -> R s1 s3.

Lemma returns_ret {A : Type} (a : A) : returns R (ret a).
Proof. intros s. exists a, s. split; [reflexivity | apply R_refl]. Qed.

Lemma returns_gets {A : Type} (f : State -> A) : returns R (gets f).
Proof. intros s. exists (f s), s. split; [reflexivity | apply R_refl]. Qed.

Lemma returns_bind {A B : Type} (m : M A) (k : A -> M B) :
  returns R m -> (forall a, returns R (k a)) -> returns R (bind m k).
Proof.
  intros Hm Hk s. destruct (Hm s) as (a & s1 & E1 & R1).
  destruct (Hk a s1) as (b & s2 & E2 & R2).
  exists b, s2. split; [|exact (R_trans _ _ _ R1 R2)].
  unfold bind. now rewrite E1.
Qed.

Lemma returns_when (b : bool) (m : M unit) : returns R m -> returns R (when b m).
Proof. intros H. destruct b; [exact H | apply returns_ret]. Qed.

End Returns.

Ltac returns_with Hrefl Htrans prim :=
  idtac; repeat match goal with
    | |- returns _ (bind _ _) => apply (returns_bind _ Htrans); [ | intros ? ]
    | |- returns _ (ret _) => apply (returns_ret _ Hrefl)
    | |- returns _ (gets _) => apply (returns_gets _ Hrefl)
    | |- returns _ (when _ _) => apply (returns_when _ Hrefl)
    | |- returns _ (if ?b then _ else _) => destruct b
    | |- returns _ (match ?x with _ => _ end) => destruct x
    | |- returns _ (let _ := _ in _) => cbv zeta
    | |- returns _ _ => prim
    end.

(** Takes a computation apart, down to the calls that [prim] knows. *)
Ltac respects_with Hrefl Htrans prim :=
  idtac; repeat match goal with
    | |- respects _ (bind _ _) => apply (respects_bind _ Htrans); [ | intros ? ]
    | |- respects _ (ret _) => apply (respects_ret _ Hrefl)
    | |- respects _ (gets _) => apply (respects_gets _ Hrefl)
    | |- respects _ (throw _) => apply (respects_throw _ Hrefl)
    | |- respects _ out_of_fuel => apply (respects_out_of_fuel _ Hrefl)
    | |- respects _ (lift_fs _) => apply (respects_lift_fs _ Hrefl)
    | |- respects _ (when _ _) => apply (respects_when _ Hrefl)
    | |- respects _ (and_then _ _) => unfold and_then
    | |- respects _ (property _ _ _) => unfold property
    | |- respects _ (try_catch _ _) => apply (respects_try_catch _ Htrans); [ | intros ? ]
    | |- respects _ (forEach _ _) => apply (respects_forEach _ Hrefl Htrans); intros ?
    | |- respects _ (if ?b then _ else _) => destruct b
    | |- respects _ (match ?x with _ => _ end) => destruct x
    | |- respects _ (let _ := _ in _) => cbv zeta
    | |- respects _ _ => prim
    end.

(** ** The log buffer and what is sent *)

Lemma emitted_app (a b : list Event) : emitted (a ++ b) = (emitted a ++ emitted b)%list.
Proof. apply flat_map_app. Qed.

Lemma emitted_Emit (es : list LogEntry.t) : emitted (map Emit es) = es.
Proof. induction es as [|e es IH]; simpl; [reflexivity | now rewrite IH]. Qed.

Lemma log_sync_refl (s : State) : log_sync s s.
Proof.
  intros H. split; [exact H|]. exists []. rewrite !app_nil_r. split; [reflexivity|].
  unfold snapshot. now rewrite slice_last_short.
Qed.

Lemma log_sync_trans (s1 s2 s3 : State) :
  log_sync s1 s2 -> log_sync s2 s3 -> log_sync s1 s3.
Proof.
  intros H12 H23 H1. destruct (H12 H1) as (H2 & es1 & E1 & L1).
  destruct (H23 H2) as (H3 & es2 & E2 & L2). split; [exact H3|].
  exists (es1 ++ es2)%list. rewrite E2, E1, L2, L1, slice_last_app, !app_assoc.
  split; reflexivity.
Qed.

Lemma log_sync_logged (es : list LogEntry.t) (s : State) : log_sync s (logged es s).
Proof.
  intros _. destruct s. unfold logged, snapshot. simp_state. split.
  - rewrite slice_last_length. lia.
  - exists es. now rewrite emitted_app, emitted_Emit.
Qed.

Lemma log_sync_broadcastLog (message : string) (type : LogType) :
  respects log_sync (broadcastLog message type).
Proof.
  intros s r s' E. rewrite broadcastLog_logged in E. injection E as _ <-.
  apply log_sync_logged.
Qed.

Lemma log_sync_same (s s' : State) :
  logs s' = logs s -> emitted (events s') = emitted (events s) -> log_sync s s'.
Proof.
  intros L E H. unfold snapshot. rewrite L, E. split; [exact H|].
  exists []. rewrite !app_nil_r. now rewrite slice_last_short.
Qed.

Lemma log_sync_modify (f : State -> State) :
  (forall s, logs (f s) = logs s /\ events (f s) = events s) ->
  respects log_sync (modify f).
Proof.
  intros H s r s' [= _ <-]. destruct (H s) as [L E].
  apply log_sync_same; [exact L | now rewrite E].
Qed.

Lemma log_sync_emit (e : Event) :
  emitted [e] = [] -> respects log_sync (emit e).
Proof.
  intros H s r s' [= _ <-]. apply log_sync_same.
  - destruct s; reflexivity.
  - destruct s; simp_state. now rewrite emitted_app, H, app_nil_r.
Qed.

(** A modification that leaves the log and the events alone. *)
Ltac keeps_log :=
  apply log_sync_modify; intros [? ? ? ? ? ? ? ? ? ? ? ? ? ? ? ? ? ? ? ? ? ?]; simp_state;
  repeat match goal with |- context [match ?x with _ => _ end] => destruct x end;
  split; reflexivity.

Create HintDb log_sync_db.
#[local] Hint Resolve log_sync_broadcastLog : log_sync_db.

Ltac log_sync_prim :=
  idtac; match goal with
  | |- respects _ (modify _) => keeps_log
  | |- respects _ (emit _) => apply log_sync_emit; reflexivity
  | |- _ => solve [auto 1 with log_sync_db nocore]
  end.

Ltac log_sync_tac := idtac; respects_with log_sync_refl log_sync_trans ltac:(log_sync_prim).

Lemma log_sync_fs_existsSync (p : Fs.path) : respects log_sync (fs_existsSync p).
Proof. unfold fs_existsSync. log_sync_tac. Qed.

Lemma log_sync_fs_mkdirSync (p : Fs.path) : respects log_sync (fs_mkdirSync p).
Proof. unfold fs_mkdirSync. log_sync_tac. Qed.

Lemma log_sync_fs_statSync (p : Fs.path) : respects log_sync (fs_statSync p).
Proof. unfold fs_statSync. log_sync_tac. Qed.

Lemma log_sync_fs_readdirSync (p : Fs.path) : respects log_sync (fs_readdirSync p).
Proof. unfold fs_readdirSync. log_sync_tac. Qed.

Lemma log_sync_fs_copyFileSync (src dest : Fs.path) :
  respects log_sync (fs_copyFileSync src dest).
Proof. unfold fs_copyFileSync. log_sync_tac. Qed.

Lemma log_sync_fs_rmSync (p : Fs.path) : respects log_sync (fs_rmSync p).
Proof. unfold fs_rmSync. log_sync_tac. Qed.

Lemma log_sync_fs_writeConfig (c : Config.t) : respects log_sync (fs_writeConfig c).
Proof. unfold fs_writeConfig. log_sync_tac. Qed.

#[local] Hint Resolve log_sync_fs_existsSync log_sync_fs_mkdirSync log_sync_fs_statSync
  log_sync_fs_readdirSync log_sync_fs_copyFileSync log_sync_fs_rmSync
  log_sync_fs_writeConfig : log_sync_db.

Lemma log_sync_saveConfig : respects log_sync saveConfig.
Proof. unfold saveConfig. log_sync_tac. Qed.
#[local] Hint Resolve log_sync_saveConfig : log_sync_db.

Lemma log_sync_updateWorldConfig (seed : string) : respects log_sync (updateWorldConfig seed).
Proof. unfold updateWorldConfig, ensure_world, assign_world. log_sync_tac. Qed.

Lemma log_sync_markWorldAsGenerated : respects log_sync markWorldAsGenerated.
Proof. unfold markWorldAsGenerated, ensure_world, assign_world. log_sync_tac. Qed.

Lemma log_sync_copyDirectorySync (fuel : nat) :
  forall src dest, respects log_sync (copyDirectorySync fuel src dest).
Proof.
  induction fuel as [|fuel IH]; intros src dest; simpl.
  - apply respects_out_of_fuel, log_sync_refl.
  - respects_with log_sync_refl log_sync_trans ltac:(first [apply IH | log_sync_prim]).
Qed.

Lemma log_sync_removeDirectorySync (p : Fs.path) : respects log_sync (removeDirectorySync p).
Proof. unfold removeDirectorySync. log_sync_tac. Qed.

#[local] Hint Resolve log_sync_updateWorldConfig log_sync_markWorldAsGenerated
  log_sync_copyDirectorySync log_sync_removeDirectorySync : log_sync_db.

Lemma log_sync_backupExistingWorld (fuel : nat) : respects log_sync (backupExistingWorld fuel).
Proof. unfold backupExistingWorld. log_sync_tac. Qed.
#[local] Hint Resolve log_sync_backupExistingWorld : log_sync_db.

Lemma log_sync_checkSeedChange (fuel : nat) : respects log_sync (checkSeedChange fuel).
Proof. unfold checkSeedChange. log_sync_tac. Qed.
#[local] Hint Resolve log_sync_checkSeedChange : log_sync_db.

(** ** Steps of the world and seed code *)

Lemma same_settings_refl (c : Config.t) : same_settings c c.
Proof. repeat split. Qed.

Lemma same_settings_trans (c1 c2 c3 : Config.t) :
  same_settings c1 c2 -> same_settings c2 c3 -> same_settings c1 c3.
Proof.
  intros (A1 & B1 & C1) (A2 & B2 & C2).
  repeat split; [now rewrite A2 | now rewrite B2 | now rewrite C2].
Qed.

Lemma world_step_refl (s : State) : world_step s s.
Proof. split; [destruct s; reflexivity|]. split; [apply same_settings_refl | reflexivity]. Qed.

Lemma world_step_trans (s1 s2 s3 : State) :
  world_step s1 s2 -> world_step s2 s3 -> world_step s1 s3.
Proof.
  intros (E12 & S12 & P12) (E23 & S23 & P23). split; [|split].
  - rewrite E23 at 1. rewrite E12 at 1. destruct s1; reflexivity.
  - exact (same_settings_trans _ _ _ S12 S23).
  - now rewrite P23.
Qed.

Lemma world_step_modify (f : State -> State) :
  (forall s, world_step s (f s)) -> respects world_step (modify f).
Proof. intros H s r s' [= _ <-]. apply H. Qed.

Lemma process_events_snoc (evs : list Event) (e : Event) :
  process_events (evs ++ [e]) = (process_events evs ++ if is_process_event e then [e] else [])%list.
Proof. unfold process_events. rewrite filter_app. simpl. now destruct (is_process_event e). Qed.

Lemma world_step_emit (e : Event) :
  is_process_event e = false -> respects world_step (emit e).
Proof.
  intros H s r s' [= _ <-]. split; [destruct s; reflexivity|].
  split; [destruct s; apply same_settings_refl|].
  destruct s; simp_state. now rewrite process_events_snoc, H, app_nil_r.
Qed.

Lemma process_events_Emit (es : list LogEntry.t) : process_events (map Emit es) = [].
Proof. induction es as [|e es IH]; [reflexivity | exact IH]. Qed.

Lemma world_step_logged (es : list LogEntry.t) (s : State) : world_step s (logged es s).
Proof.
  split; [destruct s; reflexivity|]. split; [destruct s; apply same_settings_refl|].
  destruct s; unfold logged, process_events; simp_state.
  rewrite filter_app. fold (process_events (map Emit es)).
  now rewrite process_events_Emit, app_nil_r.
Qed.

Lemma world_step_broadcastLog (message : string) (type : LogType) :
  respects world_step (broadcastLog message type).
Proof.
  intros s r s' E. rewrite broadcastLog_logged in E. injection E as _ <-.
  apply world_step_logged.
Qed.

(** A modification of the log, the world-tracking block, the server
    directory or the configuration file. *)
Ltac keeps_manager :=
  apply world_step_modify; intros [? ? ? ? ? ? ? ? ? ? ? ? ? ? ? ? ? ? ? ? ? ?];
  unfold world_step; simp_state;
  repeat match goal with |- context [match ?x with _ => _ end] => destruct x end;
  simp_state; repeat split.

Create HintDb world_step_db.
#[local] Hint Resolve world_step_broadcastLog : world_step_db.

Ltac world_step_prim :=
  idtac; match goal with
  | |- respects _ (modify _) => keeps_manager
  | |- respects _ (emit _) => apply world_step_emit; reflexivity
  | |- _ => solve [auto 1 with world_step_db nocore]
  end.

Ltac world_step_tac := idtac; respects_with world_step_refl world_step_trans ltac:(world_step_prim).

Lemma world_step_saveConfig : respects world_step saveConfig.
Proof. unfold saveConfig, fs_writeConfig. world_step_tac. Qed.
#[local] Hint Resolve world_step_saveConfig : world_step_db.

Lemma world_step_updateWorldConfig (seed : string) :
  respects world_step (updateWorldConfig seed).
Proof. unfold updateWorldConfig, ensure_world, assign_world. world_step_tac. Qed.

Lemma world_step_markWorldAsGenerated : respects world_step markWorldAsGenerated.
Proof. unfold markWorldAsGenerated, ensure_world, assign_world. world_step_tac. Qed.

Lemma world_step_copyDirectorySync (fuel : nat) :
  forall src dest, respects world_step (copyDirectorySync fuel src dest).
Proof.
  induction fuel as [|fuel IH]; intros src dest; simpl.
  - apply respects_out_of_fuel, world_step_refl.
  - unfold fs_statSync, fs_mkdirSync, fs_readdirSync, fs_copyFileSync.
    respects_with world_step_refl world_step_trans ltac:(first [apply IH | world_step_prim]).
Qed.

#[local] Hint Resolve world_step_updateWorldConfig world_step_markWorldAsGenerated
  world_step_copyDirectorySync : world_step_db.

Lemma world_step_backupExistingWorld (fuel : nat) :
  respects world_step (backupExistingWorld fuel).
Proof.
  unfold backupExistingWorld, removeDirectorySync, fs_mkdirSync, fs_existsSync, fs_rmSync.
  world_step_tac.
Qed.
#[local] Hint Resolve world_step_backupExistingWorld : world_step_db.

Lemma world_step_checkSeedChange (fuel : nat) : respects world_step (checkSeedChange fuel).
Proof. unfold checkSeedChange, fs_existsSync. world_step_tac. Qed.

(** ** The tunnel supervisor: an output, line by line *)

Lemma tunnel_step_refl (s : State) : tunnel_step s s.
Proof. split; [destruct s; reflexivity | reflexivity]. Qed.

Lemma tunnel_step_trans (s1 s2 s3 : State) :
  tunnel_step s1 s2 -> tunnel_step s2 s3 -> tunnel_step s1 s3.
Proof.
  intros (E12 & P12) (E23 & P23). split.
  - rewrite E23 at 1. rewrite E12 at 1. destruct s1; reflexivity.
  - now rewrite P23.
Qed.

Lemma tunnel_step_modify (f : State -> State) :
  (forall s, tunnel_step s (f s)) -> respects tunnel_step (modify f).
Proof. intros H s r s' [= _ <-]. apply H. Qed.

Lemma tunnel_step_logged (es : list LogEntry.t) (s : State) : tunnel_step s (logged es s).
Proof.
  split; [destruct s; reflexivity|].
  destruct s; unfold logged, process_events; simp_state.
  rewrite filter_app. fold (process_events (map Emit es)).
  now rewrite process_events_Emit, app_nil_r.
Qed.

Lemma tunnel_step_broadcastLog (message : string) (type : LogType) :
  respects tunnel_step (broadcastLog message type).
Proof.
  intros s r s' E. rewrite broadcastLog_logged in E. injection E as _ <-.
  apply tunnel_step_logged.
Qed.

Ltac keeps_server :=
  apply tunnel_step_modify; intros [? ? ? ? ? ? ? ? ? ? ? ? ? ? ? ? ? ? ? ? ? ?];
  unfold tunnel_step; simp_state; repeat split.

Ltac tunnel_step_prim :=
  idtac; match goal with
  | |- respects _ (modify _) => keeps_server
  | |- respects _ (broadcastLog _ _) => apply tunnel_step_broadcastLog
  end.

Ltac tunnel_step_tac := idtac; respects_with tunnel_step_refl tunnel_step_trans ltac:(tunnel_step_prim).

Lemma binding_step_refl (s : State) : binding_step s s.
Proof. split; [destruct s; reflexivity | reflexivity]. Qed.

Lemma binding_step_trans (s1 s2 s3 : State) :
  binding_step s1 s2 -> binding_step s2 s3 -> binding_step s1 s3.
Proof.
  intros (E12 & P12) (E23 & P23). split.
  - rewrite E23 at 1. rewrite E12 at 1. destruct s1; reflexivity.
  - now rewrite P23.
Qed.

Lemma binding_step_tunnel_step (s s' : State) : binding_step s s' -> tunnel_step s s'.
Proof.
  intros (E & P). split; [|exact P]. destruct s. rewrite E. simp_state. reflexivity.
Qed.

Lemma binding_step_broadcastLog (message : string) (type : LogType) :
  respects binding_step (broadcastLog message type).
Proof.
  intros s r s' E. rewrite broadcastLog_logged in E. injection E as _ <-.
  split; [destruct s; reflexivity|]. apply (tunnel_step_logged _ s).
Qed.

Ltac binding_step_prim :=
  idtac; match goal with
  | |- respects _ (modify _) =>
      intros [? ? ? ? ? ? ? ? ? ? ? ? ? ? ? ? ? ? ? ? ? ?] ? ? [= _ <-];
      unfold binding_step; simp_state; repeat split
  | |- respects _ (broadcastLog _ _) => apply binding_step_broadcastLog
  end.

Lemma binding_step_parsePlayitLines (lines : list string) :
  forall found, respects binding_step (parsePlayitLines lines found).
Proof.
  induction lines as [|line lines IH]; intros found; simpl.
  - apply respects_ret, binding_step_refl.
  - apply (respects_bind _ binding_step_trans); [|intros b; apply IH].
    unfold parsePlayitLine.
    respects_with binding_step_refl binding_step_trans ltac:(binding_step_prim).
Qed.

Lemma tunnel_step_parsePlayitLines (lines : list string) (found : bool) :
  respects tunnel_step (parsePlayitLines lines found).
Proof.
  intros s r s' E. apply binding_step_tunnel_step.
  exact (binding_step_parsePlayitLines _ _ _ _ _ E).
Qed.

Lemma tunnel_step_onPlayitStdout (data : string) : respects tunnel_step (onPlayitStdout data).
Proof.
  unfold onPlayitStdout, parsePlayitOutput.
  respects_with tunnel_step_refl tunnel_step_trans
    ltac:(first [apply tunnel_step_parsePlayitLines | tunnel_step_prim]).
Qed.

Lemma log_sync_parsePlayitLines (lines : list string) :
  forall found, respects log_sync (parsePlayitLines lines found).
Proof.
  induction lines as [|line lines IH]; intros found; simpl.
  - apply respects_ret, log_sync_refl.
  - apply (respects_bind _ log_sync_trans); [|intros b; apply IH].
    unfold parsePlayitLine. log_sync_tac.
Qed.
#[local] Hint Resolve log_sync_parsePlayitLines : log_sync_db.

Lemma parsePlayitLine_spec (line : string) (found : bool) (s : State) :
  fst (parsePlayitLine line found s) = Ok (found || is_tunnel_line line)
  /\ java (playitAddresses (snd (parsePlayitLine line found s)))
     = binding_after "25565" (java (playitAddresses s)) line
  /\ bedrock (playitAddresses (snd (parsePlayitLine line found s)))
     = binding_after "19132" (bedrock (playitAddresses s)) line.
Proof.
  unfold is_tunnel_line, binding_after.
  destruct (Re.tunnelMatch line) as [[group1 port]|] eqn:E.
  - rewrite orb_true_r.
    destruct (String.eqb_spec port "25565") as [->|Hj].
    + rewrite (parsePlayitLine_java line group1 found s E). cbv zeta.
      destruct (differs (java (playitAddresses s)) (Js.trim group1)) eqn:D.
      * destruct s; repeat split.
      * apply differs_false in D. cbn [fst snd]. rewrite D. repeat split.
    + destruct (String.eqb_spec port "19132") as [->|Hb].
      * rewrite (parsePlayitLine_bedrock line group1 found s E). cbv zeta.
        destruct (differs (bedrock (playitAddresses s)) (Js.trim group1)) eqn:D.
        -- destruct s; repeat split.
        -- apply differs_false in D. cbn [fst snd]. rewrite D. repeat split.
      * unfold parsePlayitLine. rewrite E.
        apply String.eqb_neq in Hj, Hb. rewrite Hj, Hb. repeat split.
  - unfold parsePlayitLine. rewrite E, orb_false_r. repeat split.
Qed.

Lemma parsePlayitLines_spec (lines : list string) :
  forall (found : bool) (s : State),
    fst (parsePlayitLines lines found s) = Ok (found || existsb is_tunnel_line lines)
    /\ java (playitAddresses (snd (parsePlayitLines lines found s)))
       = last_binding "25565" lines (java (playitAddresses s))
    /\ bedrock (playitAddresses (snd (parsePlayitLines lines found s)))
       = last_binding "19132" lines (bedrock (playitAddresses s)).
Proof.
  induction lines as [|line lines IH]; intros found s; simpl.
  - rewrite orb_false_r. repeat split.
  - unfold bind. destruct (parsePlayitLine_spec line found s) as (R1 & J1 & B1).
    destruct (parsePlayitLine line found s) as [r1 s1]. simpl in R1, J1, B1. subst r1.
    destruct (IH (found || is_tunnel_line line) s1) as (R2 & J2 & B2).
    rewrite R2, J2, B2, J1, B1, orb_assoc. repeat split.
Qed.

Lemma parsePlayitOutput_spec (output : string) (s : State) :
  fst (parsePlayitOutput output s) = Ok (existsb is_tunnel_line (Js.split_lines output))
  /\ java (playitAddresses (snd (parsePlayitOutput output s)))
     = last_binding "25565" (Js.split_lines output) (java (playitAddresses s))
  /\ bedrock (playitAddresses (snd (parsePlayitOutput output s)))
     = last_binding "19132" (Js.split_lines output) (bedrock (playitAddresses s))
  /\ binding_step s (snd (parsePlayitOutput output s))
  /\ log_sync s (snd (parsePlayitOutput output s)).
Proof.
  unfold parsePlayitOutput.
  destruct (parsePlayitLines_spec (Js.split_lines output) false s) as (R & J & B).
  split; [exact R|]. split; [exact J|]. split; [exact B|].
  destruct (parsePlayitLines (Js.split_lines output) false s) as [r s'] eqn:E.
  split.
  - exact (binding_step_parsePlayitLines _ _ _ _ _ E).
  - exact (log_sync_parsePlayitLines _ _ _ _ _ E).
Qed.

(** X5. An output of the tunnel, of ASCII text, is read line by line, all
    of it: the call reports whether some line is a binding line; for each of
    the two ports the binding ends as the last line that binds it says, or
    stays as it was when no line does; nothing but the bindings and the log
    changes, and the log keeps in step with what is sent. *)
Theorem tunnel_output_is_read_line_by_line (output : string) (s : State) :
  Js.is_ascii output = true ->
  let r := parsePlayitOutput output s in
  let lines := Js.split_lines output in
  fst r = Ok (existsb is_tunnel_line lines)
  /\ java (playitAddresses (snd r)) = last_binding "25565" lines (java (playitAddresses s))
  /\ bedrock (playitAddresses (snd r)) = last_binding "19132" lines (bedrock (playitAddresses s))
  /\ binding_step s (snd r)
  /\ log_sync s (snd r).
Proof. intros _. exact (parsePlayitOutput_spec output s). Qed.

Lemma tunnel_output_is_read_line_by_line_witness :
  let output :=
    "a.example => 127.0.0.1:25565" ++ String "010"%char "b.example => 127.0.0.1:25565"
    ++ String "010"%char "ssh.example => 127.0.0.1:22" in
  let s := manager_starting in
  let r := parsePlayitOutput output s in
  let lines := Js.split_lines output in
  fst r = Ok (existsb is_tunnel_line lines)
  /\ java (playitAddresses (snd r)) = last_binding "25565" lines (java (playitAddresses s))
  /\ bedrock (playitAddresses (snd r)) = last_binding "19132" lines (bedrock (playitAddresses s))
  /\ binding_step s (snd r)
  /\ log_sync s (snd r).
Proof.
  apply (tunnel_output_is_read_line_by_line
           ("a.example => 127.0.0.1:25565" ++ String "010"%char "b.example => 127.0.0.1:25565"
            ++ String "010"%char "ssh.example => 127.0.0.1:22")
           manager_starting).
  reflexivity.
Defined.

Example tunnel_output_two_lines :
  let output :=
    "a.example => 127.0.0.1:25565" ++ String "010"%char "b.example => 127.0.0.1:25565"
    ++ String "010"%char "ssh.example => 127.0.0.1:22" in
  let r := parsePlayitOutput output manager_starting in
  fst r = Ok true
  /\ playitAddresses (snd r) = mkAddresses (Some "b.example") None.
Proof. vm_compute. split; reflexivity. Qed.

(** ** The tunnel supervisor: the output listener *)

Lemma onPlayitStdout_repeated (data : string) (s : State) :
  lastPlayitOutput s = Js.trim data -> onPlayitStdout data s = (Ok tt, s).
Proof.
  intros H. unfold onPlayitStdout.
  destruct s as [a b c d e f g h i j k l m n o p q r t u w x].
  cbn [lastPlayitOutput] in H. subst m. crun. rewrite String.eqb_refl. reflexivity.
Qed.

Lemma onPlayitStdout_new (data : string) (s : State) :
  lastPlayitOutput s <> Js.trim data ->
  let r := onPlayitStdout data s in
  let lines := Js.split_lines (Js.trim data) in
  fst r = Ok tt
  /\ lastPlayitOutput (snd r) = Js.trim data
  /\ playitSetupUrl (snd r)
     = match Re.setupUrlMatch (Js.trim data) with
       | Some url => Some url
       | None => playitSetupUrl s
       end
  /\ java (playitAddresses (snd r)) = last_binding "25565" lines (java (playitAddresses s))
  /\ bedrock (playitAddresses (snd r)) = last_binding "19132" lines (bedrock (playitAddresses s))
  /\ playitTunnelsDetected (snd r)
     = playitTunnelsDetected s || existsb is_tunnel_line lines.
Proof.
  intros Hne. cbv zeta. unfold onPlayitStdout.
  destruct s as [a b c d e f g h i j k l m n o p q r t u w x].
  cbn [lastPlayitOutput playitSetupUrl playitAddresses playitTunnelsDetected] in *.
  assert (E : (Js.trim data =? m)%string = false)
    by (apply String.eqb_neq; congruence).
  crun. rewrite E.
  destruct (Re.setupUrlMatch (Js.trim data)) as [url|]; crun;
    (destruct (Js.includes (Js.trim data) "Program approved"); crun);
    match goal with
    | |- context [parsePlayitOutput ?out ?st] =>
        destruct (parsePlayitOutput_spec out st) as (R & J & B & (F & _) & _);
        destruct (parsePlayitOutput out st) as [r1 s1]
    end;
    cbn [fst snd] in R, J, B, F; subst r1;
    set (a1 := playitAddresses s1) in *; set (l1 := logs s1) in *;
    set (e1 := events s1) in *; clearbody a1 l1 e1; subst s1;
    simp_state_in J; simp_state_in B; destruct a1 as [ja be];
    cbn [java bedrock] in J, B; subst ja be; crun;
    (destruct (existsb is_tunnel_line (Js.split_lines (Js.trim data))); destruct n;
     cbn [andb orb negb]; crun);
    repeat split.
Qed.

(** X6. A new output of the tunnel, of ASCII text, is remembered, trimmed,
    as the last output; a setup link in it replaces the stored one, no link
    leaves the stored one; the bindings follow its binding lines; and the
    tunnels count as detected from the first output with a binding line
    on. *)
Theorem tunnel_output_updates_the_tunnel_state (data : string) (s : State) :
  Js.is_ascii data = true ->
  lastPlayitOutput s <> Js.trim data ->
  let r := onPlayitStdout data s in
  let lines := Js.split_lines (Js.trim data) in
  fst r = Ok tt
  /\ lastPlayitOutput (snd r) = Js.trim data
  /\ playitSetupUrl (snd r)
     = match Re.setupUrlMatch (Js.trim data) with
       | Some url => Some url
       | None => playitSetupUrl s
       end
  /\ java (playitAddresses (snd r)) = last_binding "25565" lines (java (playitAddresses s))
  /\ bedrock (playitAddresses (snd r)) = last_binding "19132" lines (bedrock (playitAddresses s))
  /\ playitTunnelsDetected (snd r)
     = playitTunnelsDetected s || existsb is_tunnel_line lines.
Proof. intros _. exact (onPlayitStdout_new data s). Qed.

Lemma tunnel_output_updates_the_tunnel_state_witness :
  let data := "  Visit link to setup https://playit.gg/claim/abc123  " in
  let s := manager_starting in
  let r := onPlayitStdout data s in
  let lines := Js.split_lines (Js.trim data) in
  fst r = Ok tt
  /\ lastPlayitOutput (snd r) = Js.trim data
  /\ playitSetupUrl (snd r)
     = match Re.setupUrlMatch (Js.trim data) with
       | Some url => Some url
       | None => playitSetupUrl s
       end
  /\ java (playitAddresses (snd r)) = last_binding "25565" lines (java (playitAddresses s))
  /\ bedrock (playitAddresses (snd r)) = last_binding "19132" lines (bedrock (playitAddresses s))
  /\ playitTunnelsDetected (snd r)
     = playitTunnelsDetected s || existsb is_tunnel_line lines.
Proof.
  apply (tunnel_output_updates_the_tunnel_state
           "  Visit link to setup https://playit.gg/claim/abc123  " manager_starting).
  - reflexivity.
  - vm_compute. discriminate.
Defined.

(** ** The tunnel supervisor: starting the tunnel *)

Lemma startPlayitTunnel_run (s : State) :
  startPlayitTunnel s
  = (Ok tt,
     if negb (playitInstalled s) then
       logged [logEntryOf (clock s,
                 ("⚠️ Playit.gg not installed - skipping tunnel creation", Warn))] s
     else
       match playitProcess s with
       | Some _ =>
           logged [logEntryOf (clock s, ("⚠️ Playit tunnel already running", Warn))] s
       | None =>
           let s1 :=
             logged [logEntryOf (clock s,
                       ("🌐 Starting Playit.gg tunnels for public access...", Info))] s in
           set_playitProcess (Some (nextHandle s))
             (set_alive (nextHandle s :: alive s)
                (set_nextHandle (S (nextHandle s))
                   (set_events (events s1 ++ [Spawn (nextHandle s) (playitPath s) []]) s1)))
       end).
Proof.
  unfold startPlayitTunnel.
  destruct s as [a b c d e f g h i j k l m n o p q r t u w x].
  crun. destruct j; crun; [|reflexivity]. destruct b; crun; reflexivity.
Qed.

Lemma log_sync_spawn (command : string) (args : list string) :
  respects log_sync (spawn command args).
Proof. unfold spawn. log_sync_tac. Qed.
#[local] Hint Resolve log_sync_spawn : log_sync_db.

Lemma log_sync_startPlayitTunnel : respects log_sync startPlayitTunnel.
Proof. unfold startPlayitTunnel. log_sync_tac. Qed.
#[local] Hint Resolve log_sync_startPlayitTunnel : log_sync_db.

Lemma process_events_logged (es : list LogEntry.t) (s : State) :
  process_events (events (logged es s)) = process_events (events s).
Proof. exact (proj2 (tunnel_step_logged es s)). Qed.

(** X7. [startPlayitTunnel] spawns the tunnel exactly when the binary was
    found and no tunnel is running, with the binary found and no argument,
    and keeps its handle; otherwise it spawns nothing and only logs a
    warning.  The bindings are not touched. *)
Theorem tunnel_is_started_at_most_once (s : State) :
  let r := startPlayitTunnel s in
  let starts := playitInstalled s && is_null (playitProcess s) in
  fst r = Ok tt
  /\ process_events (events (snd r))
     = (process_events (events s)
        ++ if starts then [Spawn (nextHandle s) (playitPath s) []] else [])%list
  /\ playitProcess (snd r)
     = (if starts then Some (nextHandle s) else playitProcess s)
  /\ alive (snd r) = (if starts then nextHandle s :: alive s else alive s)
  /\ nextHandle (snd r) = (if starts then S (nextHandle s) else nextHandle s)
  /\ playitAddresses (snd r) = playitAddresses s
  /\ log_sync s (snd r).
Proof.
  cbv zeta.
  pose proof (log_sync_startPlayitTunnel s _ _ (surjective_pairing _)) as HL.
  refine (conj _ (conj _ (conj _ (conj _ (conj _ (conj _ HL)))))); clear HL;
    rewrite startPlayitTunnel_run; cbn [fst snd];
    destruct (playitInstalled s) eqn:Hi; destruct (playitProcess s) eqn:Hp;
    cbn [negb andb is_null]; cbv zeta; rewrite ?app_nil_r;
    try apply process_events_logged;
    try (destruct s; reflexivity);
    try (rewrite <- Hp; destruct s; reflexivity).
  destruct s; unfold logged, process_events; simp_state. cbn [map].
  rewrite !filter_app. cbn [filter is_process_event]. now rewrite app_nil_r.
Qed.

Example tunnel_is_started_once_then_not :
  let s1 := snd (startPlayitTunnel manager0) in
  let s2 := snd (startPlayitTunnel s1) in
  process_events (events s1) = [Spawn 0%nat "playit" []]
  /\ process_events (events s2) = [Spawn 0%nat "playit" []]
  /\ playitProcess s2 = Some 0%nat.
Proof. vm_compute. repeat split. Qed.

(** ** The tunnel supervisor: an output seen before *)

Lemma lastPlayitOutput_kept (s : State) :
  lastPlayitOutput (snd (stopPlayitTunnel s)) = lastPlayitOutput s
  /\ lastPlayitOutput (snd (resetPlayitState s)) = lastPlayitOutput s
  /\ lastPlayitOutput (snd (startPlayitTunnel s)) = lastPlayitOutput s
  /\ forall code, lastPlayitOutput (snd (onPlayitClose code s)) = lastPlayitOutput s.
Proof.
  rewrite stopPlayitTunnel_run, resetPlayitState_run, startPlayitTunnel_run.
  destruct s as [a b c d e f g h i j k l m n o p q r t u w x].
  split; [destruct b; reflexivity|]. split; [reflexivity|].
  split; [destruct j; [destruct b|]; reflexivity|].
  intros code. unfold onPlayitClose. crun. rewrite clear_addresses_run. reflexivity.
Qed.

(** X8. The listener compares each output with the last one it handled
    and drops it when they are equal; the last output survives the stop and
    the exit of the tunnel.  So a tunnel that is stopped and started again,
    and prints the same output as before, has that output dropped: the
    bindings that the stop cleared stay cleared. *)
Theorem repeated_tunnel_output_is_dropped (data : string) (s : State) (h : Handle) :
  playitProcess s = Some h ->
  playitInstalled s = true ->
  let heard := snd (onPlayitStdout data s) in
  let stopped := snd (stopPlayitTunnel heard) in
  let restarted := snd (startPlayitTunnel stopped) in
  onPlayitStdout data heard = (Ok tt, heard)
  /\ playitProcess restarted = Some (nextHandle s)
  /\ onPlayitStdout data restarted = (Ok tt, restarted)
  /\ playitAddresses (snd (onPlayitStdout data restarted)) = mkAddresses None None.
Proof.
  intros Hp Hi heard stopped restarted.
  assert (Hlast : lastPlayitOutput heard = Js.trim data).
  { subst heard. destruct (String.eqb_spec (lastPlayitOutput s) (Js.trim data)) as [E|E].
    - now rewrite (onPlayitStdout_repeated data s E).
    - exact (proj1 (proj2 (onPlayitStdout_new data s E))). }
  assert (Hframe : tunnel_step s heard).
  { subst heard. destruct (onPlayitStdout data s) as [r0 s0] eqn:E.
    exact (tunnel_step_onPlayitStdout data s r0 s0 E). }
  destruct Hframe as (Hframe & _).
  assert (Hp1 : playitProcess heard = Some h)
    by (rewrite Hframe; destruct s; exact Hp).
  assert (Hi1 : playitInstalled heard = true)
    by (rewrite Hframe; destruct s; exact Hi).
  assert (Hn1 : nextHandle heard = nextHandle s)
    by (rewrite Hframe; destruct s; reflexivity).
  assert (Hstopped : lastPlayitOutput stopped = Js.trim data
                     /\ playitProcess stopped = None
                     /\ playitInstalled stopped = true
                     /\ nextHandle stopped = nextHandle s
                     /\ playitAddresses stopped = mkAddresses None None).
  { subst stopped. rewrite stopPlayitTunnel_run. cbn [snd]. rewrite Hp1.
    destruct heard; simp_state. simp_state_in Hlast. simp_state_in Hi1.
    simp_state_in Hn1. repeat split; assumption. }
  destruct Hstopped as (Hl2 & Hp2 & Hi2 & Hn2 & Ha2).
  assert (Hrestarted : lastPlayitOutput restarted = Js.trim data
                       /\ playitProcess restarted = Some (nextHandle s)
                       /\ playitAddresses restarted = mkAddresses None None).
  { subst restarted. rewrite startPlayitTunnel_run. cbn [snd]. rewrite Hi2, Hp2.
    cbn [negb]. destruct stopped; unfold logged; simp_state.
    simp_state_in Hl2. simp_state_in Hn2. simp_state_in Ha2.
    subst. repeat split. }
  destruct Hrestarted as (Hl3 & Hp3 & Ha3).
  split; [exact (onPlayitStdout_repeated data heard Hlast)|].
  split; [exact Hp3|].
  rewrite (onPlayitStdout_repeated data restarted Hl3).
  split; [reflexivity | exact Ha3].
Qed.

Lemma repeated_tunnel_output_is_dropped_witness :
  let data := "pale-tiger.gl.joinmc.link => 127.0.0.1:25565" in
  let s := manager_starting in
  let heard := snd (onPlayitStdout data s) in
  let stopped := snd (stopPlayitTunnel heard) in
  let restarted := snd (startPlayitTunnel stopped) in
  onPlayitStdout data heard = (Ok tt, heard)
  /\ playitProcess restarted = Some (nextHandle s)
  /\ onPlayitStdout data restarted = (Ok tt, restarted)
  /\ playitAddresses (snd (onPlayitStdout data restarted)) = mkAddresses None None.
Proof.
  apply (repeated_tunnel_output_is_dropped
           "pale-tiger.gl.joinmc.link => 127.0.0.1:25565" manager_starting 0%nat);
    reflexivity.
Defined.

Example tunnel_binding_lost_after_restart :
  let data := "pale-tiger.gl.joinmc.link => 127.0.0.1:25565" in
  let heard := snd (onPlayitStdout data manager_starting) in
  let restarted := snd (startPlayitTunnel (snd (stopPlayitTunnel heard))) in
  java (playitAddresses heard) = Some "pale-tiger.gl.joinmc.link"
  /\ java (playitAddresses (snd (onPlayitStdout data restarted))) = None.
Proof. vm_compute. split; reflexivity. Qed.

(** ** World and seed: the seed did not change *)

Lemma checkSeedChange_unchanged (fuel : nat) (s : State) :
  Fs.existsSync (worldPath (config s)) (disk s) = true ->
  configuredSeed (config s) = recordedSeed (config s) ->
  checkSeedChange fuel s
  = (Ok (SeedCheck.mk false seed_unchanged None),
     logged [ logEntryOf (clock s, ("🌱 Checking world seed configuration...", Info));
              logEntryOf (clock s, ("✅ Using existing world (seed unchanged)", Success)) ]
       (set_events (events s ++ [FsExists (worldPath (config s))]) s)).
Proof.
  intros Hex Heq. unfold checkSeedChange, fs_existsSync.
  destruct s as [a b c d e f g h i j k l m n o p q r t u w x].
  cbn [config disk] in Hex, Heq. crun. rewrite Hex. crun.
  rewrite Heq, String.eqb_refl. crun. slices. reflexivity.
Qed.

(** X9. With the world present and the configured seed equal to the
    recorded one, the check answers [seed_unchanged] and does nothing but
    look for the world and log two lines: no copy, no removal, no write of
    the configuration, whatever the fuel. *)
Theorem unchanged_seed_touches_nothing (fuel : nat) (s : State) :
  Fs.existsSync (worldPath (config s)) (disk s) = true ->
  configuredSeed (config s) = recordedSeed (config s) ->
  let r := checkSeedChange fuel s in
  fst r = Ok (SeedCheck.mk false seed_unchanged None)
  /\ disk (snd r) = disk s
  /\ config (snd r) = config s
  /\ configFile (snd r) = configFile s
  /\ events (snd r)
     = (events s
        ++ [ FsExists (worldPath (config s));
             Emit (logEntryOf (clock s, ("🌱 Checking world seed configuration...", Info)));
             Emit (logEntryOf (clock s, ("✅ Using existing world (seed unchanged)", Success))) ])%list.
Proof.
  intros Hex Heq r. subst r. rewrite (checkSeedChange_unchanged fuel s Hex Heq).
  destruct s. unfold logged. simp_state. rewrite <- app_assoc. repeat split.
Qed.

Lemma unchanged_seed_touches_nothing_witness :
  let s := fresh defaultConfig clock0 (Fs.Dir true [("world", plain_world)]) in
  let r := checkSeedChange 0 s in
  fst r = Ok (SeedCheck.mk false seed_unchanged None)
  /\ disk (snd r) = disk s
  /\ config (snd r) = config s
  /\ configFile (snd r) = configFile s
  /\ events (snd r)
     = (events s
        ++ [ FsExists (worldPath (config s));
             Emit (logEntryOf (clock s, ("🌱 Checking world seed configuration...", Info)));
             Emit (logEntryOf (clock s, ("✅ Using existing world (seed unchanged)", Success))) ])%list.
Proof.
  apply (unchanged_seed_touches_nothing 0
           (fresh defaultConfig clock0 (Fs.Dir true [("world", plain_world)])));
    reflexivity.
Defined.

(** ** World and seed: the check returns *)

Lemma saveConfig_keeps (s : State) :
  fst (saveConfig s) = Ok (configFileWritable s)
  /\ config (snd (saveConfig s)) = config s
  /\ disk (snd (saveConfig s)) = disk s.
Proof. rewrite saveConfig_run. destruct s as [? ? ? ? ? ? ? ? ? ? ? ? ? ? ? ? ? ? [] ? ? ?]; repeat split. Qed.

Lemma after_backup_returns (seed : string) (res : BackupResult.t) (s : State) :
  exists c, fst (after_backup seed res s) = Ok c.
Proof.
  unfold after_backup. destruct (BackupResult.success res).
  - unfold bind. rewrite updateWorldConfig_run. eexists; reflexivity.
  - unfold bind. rewrite !broadcastLog_logged. eexists; reflexivity.
Qed.

Lemma backupExistingWorld_no_throw (fuel : nat) (s : State) (e : Exn) :
  fst (backupExistingWorld fuel s) <> Throw e.
Proof.
  rewrite backupExistingWorld_phases.
  destruct (copy_phase fuel s) as [[[]|e1|] s1]; [|discriminate|discriminate].
  destruct (removal_phase (config s) (clock s) s1) as [[res|e2|] s2]; discriminate.
Qed.

Lemma seed_change_detected_fields (s : State) :
  config (seed_change_detected s) = config s
  /\ clock (seed_change_detected s) = clock s
  /\ disk (seed_change_detected s) = disk s.
Proof. destruct s; repeat split. Qed.

Lemma backupExistingWorld_returns (fuel : nat) (s : State) :
  (depth_at (worldPath (config s)) (disk s) < fuel)%nat ->
  exists res, fst (backupExistingWorld fuel s) = Ok res.
Proof.
  intros Hfuel.
  pose proof (copy_phase_returns fuel s Hfuel) as Hc.
  destruct (copy_phase fuel s) as [rc s1] eqn:Ec.
  destruct (backupExistingWorld_events fuel s s1 rc Ec) as [_ Hr].
  specialize (Hr Hc).
  pose proof (backupExistingWorld_no_throw fuel s) as Ht.
  destruct (fst (backupExistingWorld fuel s)) as [res|e|]; [eauto | | contradiction].
  exfalso. exact (Ht e eq_refl).
Qed.

Lemma checkSeedChange_returns (fuel : nat) (s : State) :
  (depth_at (worldPath (config s)) (disk s) < fuel)%nat ->
  exists res, fst (checkSeedChange fuel s) = Ok res.
Proof.
  intros Hfuel.
  destruct (Fs.existsSync (worldPath (config s)) (disk s)) eqn:Hex.
  - destruct (String.eqb_spec (configuredSeed (config s)) (recordedSeed (config s))) as [Heq|Hne].
    + rewrite (checkSeedChange_unchanged fuel s Hex Heq). eexists; reflexivity.
    + rewrite (checkSeedChange_seed_changed fuel s Hex Hne). unfold bind.
      destruct (seed_change_detected_fields s) as (Ec & _ & Ed).
      destruct (backupExistingWorld_returns fuel (seed_change_detected s)) as [res Hres].
      { now rewrite Ec, Ed. }
      destruct (backupExistingWorld fuel (seed_change_detected s)) as [r0 s1].
      simpl in Hres. subst r0. apply after_backup_returns.
  - rewrite (checkSeedChange_no_world fuel s Hex). eexists; reflexivity.
Qed.

(** ** World and seed: the seed changed and the backup succeeded *)

Lemma find_entry_not_listed (name : string) (es : list (string * Fs.node)) :
  ~ In name (map fst es) -> Fs.find_entry name es = None.
Proof.
  induction es as [|[k c] es IH]; simpl; intros H; [reflexivity|].
  destruct (String.eqb_spec k name) as [->|Hne]; [exfalso; auto | apply IH; auto].
Qed.

Lemma find_entry_remove_same (name : string) (es : list (string * Fs.node)) :
  NoDup (map fst es) -> Fs.find_entry name (Fs.remove_entry name es) = None.
Proof.
  induction es as [|[k c] es IH]; simpl; intros H; [reflexivity|].
  inversion H as [|? ? Hnot Hrest]; subst.
  destruct (String.eqb_spec k name) as [->|Hne].
  - now apply find_entry_not_listed.
  - simpl. destruct (String.eqb_spec k name); [contradiction | now apply IH].
Qed.

Lemma find_entry_remove_other (name k : string) (es : list (string * Fs.node)) :
  name <> k -> Fs.find_entry name (Fs.remove_entry k es) = Fs.find_entry name es.
Proof.
  intros Hne. induction es as [|[k0 c] es IH]; simpl; [reflexivity|].
  destruct (String.eqb_spec k0 k) as [->|Hk].
  - destruct (String.eqb_spec k name); [congruence | reflexivity].
  - simpl. now rewrite IH.
Qed.

Lemma set_entry_names (k : string) (c : Fs.node) (es : list (string * Fs.node)) (x : string) :
  In x (map fst (Fs.set_entry k c es)) -> x = k \/ In x (map fst es).
Proof.
  induction es as [|[k0 c0] es IH]; simpl.
  - intros [<-|[]]. now left.
  - destruct (String.eqb_spec k0 k) as [->|Hk]; simpl.
    + intros [<-|H]; auto.
    + intros [<-|H]; [auto|]. destruct (IH H); auto.
Qed.

Lemma set_entry_NoDup (k : string) (c : Fs.node) (es : list (string * Fs.node)) :
  NoDup (map fst es) -> NoDup (map fst (Fs.set_entry k c es)).
Proof.
  induction es as [|[k0 c0] es IH]; simpl; intros H.
  - constructor; [intros [] | constructor].
  - inversion H as [|? ? Hnot Hrest]; subst.
    destruct (String.eqb_spec k0 k) as [->|Hk]; simpl.
    + now constructor.
    + constructor; [|now apply IH].
      intros Hin. apply set_entry_names in Hin as [->|Hin]; contradiction.
Qed.

Lemma mkdirSync_NoDup (p : Fs.path) (d d' : Fs.node) :
  Fs.mkdirSync p d = inr d' -> NoDup (root_names d) -> NoDup (root_names d').
Proof.
  unfold root_names. destruct p as [|name p]; simpl.
  - destruct d; [discriminate|]. now intros [= <-].
  - destruct d as [|w es]; [discriminate|].
    destruct (Fs.find_entry name es) as [c|].
    + destruct (Fs.mkdirSync p c) as [e|c']; [discriminate|].
      intros [= <-]. apply set_entry_NoDup.
    + destruct w; [|discriminate].
      destruct (Fs.mkdirSync p (Fs.Dir true [])) as [e|c']; [discriminate|].
      intros [= <-]. apply set_entry_NoDup.
Qed.

Lemma writeFile_NoDup (p : Fs.path) (data : string) (d d' : Fs.node) :
  Fs.writeFile p data d = inr d' -> NoDup (root_names d) -> NoDup (root_names d').
Proof.
  unfold root_names. destruct p as [|name p]; simpl.
  - destruct d; [|discriminate]. intros [= <-] _. constructor.
  - destruct d as [|w es]; [discriminate|].
    destruct (Fs.find_entry name es) as [c|].
    + destruct (Fs.writeFile p data c) as [e|c']; [discriminate|].
      intros [= <-]. apply set_entry_NoDup.
    + destruct p; [|discriminate]. destruct w; [|discriminate].
      intros [= <-]. apply set_entry_NoDup.
Qed.

Lemma names_once_refl (s : State) : names_once s s.
Proof. intros H; exact H. Qed.

Lemma names_once_trans (s1 s2 s3 : State) :
  names_once s1 s2 -> names_once s2 s3 -> names_once s1 s3.
Proof. unfold names_once. auto. Qed.

Lemma names_once_same_disk (s s' : State) : disk s' = disk s -> names_once s s'.
Proof. intros E H. now rewrite E. Qed.

Lemma names_once_fs_mkdirSync (p : Fs.path) : respects names_once (fs_mkdirSync p).
Proof.
  intros s r s'. rewrite fs_mkdirSync_run.
  destruct (Fs.mkdirSync p (disk s)) as [e|d'] eqn:E; intros [= _ <-].
  - apply names_once_same_disk. destruct s; reflexivity.
  - intros H. destruct s; simp_state. exact (mkdirSync_NoDup _ _ _ E H).
Qed.

Lemma names_once_fs_copyFileSync (src dest : Fs.path) :
  respects names_once (fs_copyFileSync src dest).
Proof.
  intros s r s'. rewrite fs_copyFileSync_run.
  destruct (Fs.copyFileSync src dest (disk s)) as [e|d'] eqn:E; intros [= _ <-].
  - apply names_once_same_disk. destruct s; reflexivity.
  - intros H. destruct s; simp_state. simp_state_in E.
    unfold Fs.copyFileSync in E. match type of E with context [Fs.readFile ?a ?b] => destruct (Fs.readFile a b); [discriminate|] end.
    exact (writeFile_NoDup _ _ _ _ E H).
Qed.

Lemma names_once_fs_statSync (p : Fs.path) : respects names_once (fs_statSync p).
Proof.
  intros s r s'. rewrite fs_statSync_run. intros [= _ <-].
  apply names_once_same_disk. destruct s; reflexivity.
Qed.

Lemma names_once_fs_readdirSync (p : Fs.path) : respects names_once (fs_readdirSync p).
Proof.
  intros s r s'. rewrite fs_readdirSync_run. intros [= _ <-].
  apply names_once_same_disk. destruct s; reflexivity.
Qed.

Lemma names_once_copyDirectorySync (fuel : nat) :
  forall src dest, respects names_once (copyDirectorySync fuel src dest).
Proof.
  induction fuel as [|fuel IH]; intros src dest; simpl.
  - apply respects_out_of_fuel, names_once_refl.
  - respects_with names_once_refl names_once_trans
      ltac:(first [ apply IH | apply names_once_fs_statSync | apply names_once_fs_mkdirSync
                  | apply names_once_fs_readdirSync | apply names_once_fs_copyFileSync ]).
Qed.

Lemma names_once_copy_phase (fuel : nat) (s s1 : State) (r : Result unit) :
  copy_phase fuel s = (r, s1) -> names_once s s1.
Proof.
  rewrite copy_phase_run. intros H.
  apply (names_once_trans s (announced s) s1).
  - apply names_once_same_disk. destruct s; reflexivity.
  - revert H. apply (respects_bind _ names_once_trans).
    + apply names_once_fs_mkdirSync.
    + intros _. apply names_once_copyDirectorySync.
Qed.

Lemma rmSync_keeps (k : string) (d d' : Fs.node) (r : option Fs.Errno) :
  Fs.rmSync [k] d = (d', r) -> keeps_other_entries k d d'.
Proof.
  intros H name Hne. simpl in H. destruct d as [|w es]; [now injection H as <- _|].
  destruct (Fs.find_entry k es) as [c|]; [|now injection H as <- _].
  destruct (Fs.remove_contents c) as [c' emptied].
  destruct (emptied && w); injection H as <- _; simpl.
  - now apply find_entry_remove_other.
  - now apply find_entry_set_other.
Qed.

Lemma rmSync_removes (k : string) (d d' : Fs.node) :
  Fs.rmSync [k] d = (d', None) -> NoDup (root_names d) -> Fs.existsSync [k] d' = false.
Proof.
  unfold root_names, Fs.existsSync. intros H Hnd. simpl in H.
  destruct d as [|w es]; [now injection H as <-|].
  destruct (Fs.find_entry k es) as [c|] eqn:F.
  - destruct (Fs.remove_contents c) as [c' emptied].
    destruct (emptied && w); [|discriminate].
    injection H as <-. simpl. now rewrite find_entry_remove_same.
  - injection H as <-. simpl. now rewrite F.
Qed.

(** The removal phase, run. *)
Lemma removal_phase_run (c : Config.t) (now : Clock) (s1 : State) :
  removal_phase c now s1
  = let created :=
      logEntryOf (clock s1, ("✅ World backup created: " ++ backupName c now, Success)) in
    let location :=
      logEntryOf (clock s1, ("📁 Backup location: "
                             ++ path_join serverPath (backupName c now), Info)) in
    let removed :=
      logEntryOf (clock s1, ("🗑️ Original world removed to make space for new world", Info)) in
    let s2 := logged [created; location] s1 in
    if Fs.existsSync (worldPath c) (disk s1) then
      match snd (Fs.rmSync (worldPath c) (disk s1)) with
      | None =>
          (Ok (BackupResult.mk true (Some (backupName c now)) None),
           logged [removed]
             (set_disk (fst (Fs.rmSync (worldPath c) (disk s1)))
                (set_events (events s2 ++ [FsExists (worldPath c); FsRm (worldPath c)]) s2)))
      | Some e =>
          (Throw (FsError e),
           set_disk (fst (Fs.rmSync (worldPath c) (disk s1)))
             (set_events (events s2 ++ [FsExists (worldPath c); FsRm (worldPath c)]) s2))
      end
    else
      (Ok (BackupResult.mk true (Some (backupName c now)) None),
       logged [removed] (set_events (events s2 ++ [FsExists (worldPath c)]) s2)).
Proof.
  destruct s1 as [a b c0 d e f g h i j k l m n o p q r t u w x].
  unfold removal_phase, removeDirectorySync, fs_existsSync, fs_rmSync. crun.
  destruct (Fs.existsSync (worldPath c) q); crun.
  - destruct (Fs.rmSync (worldPath c) q) as [d' [e'|]]; crun; slices; reflexivity.
  - slices. reflexivity.
Qed.

Lemma backupExistingWorld_success (fuel : nat) (s s' : State) (res : BackupResult.t) :
  backupExistingWorld fuel s = (Ok res, s') ->
  BackupResult.success res = true ->
  res = BackupResult.mk true (Some (backupName (config s) (clock s))) None
  /\ exists s1,
       copy_phase fuel s = (Ok tt, s1)
       /\ keeps_other_entries (worldName (config s)) (disk s1) (disk s')
       /\ (NoDup (root_names (disk s1)) ->
           Fs.existsSync (worldPath (config s)) (disk s') = false).
Proof.
  rewrite backupExistingWorld_phases.
  destruct (copy_phase fuel s) as [[[]|e1|] s1] eqn:Ec;
    [| intros [= <- _]; discriminate | discriminate].
  rewrite removal_phase_run. cbv zeta.
  destruct (Fs.existsSync (worldPath (config s)) (disk s1)) eqn:Hex.
  - destruct (Fs.rmSync (worldPath (config s)) (disk s1)) as [d' [e'|]] eqn:Erm; simpl.
    + intros [= <- _]. discriminate.
    + intros [= <- <-] _. split; [reflexivity|]. exists s1. split; [reflexivity|].
      destruct s1; unfold logged; simp_state. simp_state_in Erm. split.
      * exact (rmSync_keeps _ _ _ _ Erm).
      * intros Hnd. exact (rmSync_removes _ _ _ Erm Hnd).
  - intros [= <- <-] _. split; [reflexivity|]. exists s1. split; [reflexivity|].
    destruct s1; unfold logged; simp_state. simp_state_in Hex. split.
    + intros name _. reflexivity.
    + intros _. exact Hex.
Qed.

Lemma checkSeedChange_changed_success (fuel : nat) (s s0' : State) (bres : BackupResult.t) :
  Fs.existsSync (worldPath (config s)) (disk s) = true ->
  configuredSeed (config s) <> recordedSeed (config s) ->
  backupExistingWorld fuel (seed_change_detected s) = (Ok bres, s0') ->
  BackupResult.success bres = true ->
  checkSeedChange fuel s
  = (Ok (SeedCheck.mk true seed_changed (BackupResult.backupPath bres)),
     snd (saveConfig
            (set_config
               (Config.set_world
                  (Some (Config.mkWorld (Some (configuredSeed (config s)))
                           (Some (configuredSeed (config s))) (Some false)))
                  (config s0')) s0'))).
Proof.
  intros Hex Hne Hb Hs. rewrite (checkSeedChange_seed_changed fuel s Hex Hne).
  unfold bind at 1. rewrite Hb. unfold after_backup. rewrite Hs.
  unfold bind. rewrite updateWorldConfig_run. reflexivity.
Qed.

Lemma checkSeedChange_reason_changed (fuel : nat) (s : State) (res : SeedCheck.t) :
  fst (checkSeedChange fuel s) = Ok res ->
  SeedCheck.reason res = seed_changed ->
  Fs.existsSync (worldPath (config s)) (disk s) = true
  /\ configuredSeed (config s) <> recordedSeed (config s)
  /\ exists bres s0',
       backupExistingWorld fuel (seed_change_detected s) = (Ok bres, s0')
       /\ BackupResult.success bres = true.
Proof.
  intros Hres Hreason.
  destruct (Fs.existsSync (worldPath (config s)) (disk s)) eqn:Hex.
  - destruct (String.eqb_spec (configuredSeed (config s)) (recordedSeed (config s))) as [Heq|Hne].
    + rewrite (checkSeedChange_unchanged fuel s Hex Heq) in Hres.
      injection Hres as <-. discriminate.
    + split; [reflexivity|]. split; [assumption|].
      rewrite (checkSeedChange_seed_changed fuel s Hex Hne) in Hres. unfold bind in Hres.
      destruct (backupExistingWorld fuel (seed_change_detected s)) as [[bres|e|] s0'];
        [|discriminate|discriminate].
      exists bres, s0'. split; [reflexivity|].
      unfold after_backup in Hres. destruct (BackupResult.success bres); [reflexivity|].
      unfold bind in Hres. rewrite !broadcastLog_logged in Hres.
      injection Hres as <-. discriminate.
  - rewrite (checkSeedChange_no_world fuel s Hex) in Hres.
    injection Hres as <-. discriminate.
Qed.

(** X10. When the check answers [seed_changed], the backup directory, named
    after the world and the time and so distinct from it, holds every file
    (same data) and directory the world held; the world directory is gone
    (names being listed once in the server directory); and the world-tracking
    block records the configured seed with [worldGenerated] false. *)
Theorem changed_seed_moves_world_to_backup (fuel : nat) (s : State) (res : SeedCheck.t) :
  fst (checkSeedChange fuel s) = Ok res ->
  SeedCheck.reason res = seed_changed ->
  let s' := snd (checkSeedChange fuel s) in
  let seed := configuredSeed (config s) in
  let backup := backupName (config s) (clock s) in
  res = SeedCheck.mk true seed_changed (Some backup)
  /\ backup <> worldName (config s)
  /\ Config.world (config s')
     = Some (Config.mkWorld (Some seed) (Some seed) (Some false))
  /\ (forall q n,
         Fs.lookup (worldPath (config s) ++ q)%list (disk s) = Some n ->
         exists n', Fs.lookup (backup :: q) (disk s') = Some n' /\ same_kind n n')
  /\ (NoDup (root_names (disk s)) ->
      Fs.existsSync (worldPath (config s)) (disk s') = false).
Proof.
  intros Hres Hreason s' seed backup.
  destruct (checkSeedChange_reason_changed fuel s res Hres Hreason)
    as (Hex & Hne & bres & s0' & Hb & Hs).
  pose proof (checkSeedChange_changed_success fuel s s0' bres Hex Hne Hb Hs) as Hrun.
  destruct (seed_change_detected_fields s) as (Ec & Ek & Ed).
  destruct (backupExistingWorld_success fuel _ _ _ Hb Hs) as (Hbres & s1 & Hcopy & Hkeep & Hgone).
  rewrite Ec, Ek in Hbres. rewrite Ec in Hkeep, Hgone.
  pose proof (backupExistingWorld_keeps_config fuel (seed_change_detected s)) as [Hcfg _].
  rewrite Hb in Hcfg. simpl in Hcfg. rewrite Ec in Hcfg.
  subst s'. rewrite Hrun in Hres |- *. simpl in Hres. injection Hres as <-.
  cbn [snd].
  destruct (saveConfig_keeps
              (set_config
                 (Config.set_world
                    (Some (Config.mkWorld (Some (configuredSeed (config s)))
                             (Some (configuredSeed (config s))) (Some false)))
                    (config s0')) s0')) as (_ & Hc & Hd).
  rewrite Hc, Hd.
  assert (Hd' : disk (set_config
                        (Config.set_world
                           (Some (Config.mkWorld (Some (configuredSeed (config s)))
                                    (Some (configuredSeed (config s))) (Some false)))
                           (config s0')) s0') = disk s0') by (destruct s0'; reflexivity).
  assert (Hc' : config (set_config
                        (Config.set_world
                           (Some (Config.mkWorld (Some (configuredSeed (config s)))
                                    (Some (configuredSeed (config s))) (Some false)))
                           (config s0')) s0')
                = Config.set_world
                    (Some (Config.mkWorld (Some (configuredSeed (config s)))
                             (Some (configuredSeed (config s))) (Some false)))
                    (config s0')) by (destruct s0'; reflexivity).
  rewrite Hd', Hc'.
  assert (Hbn : backup <> worldName (config s)).
  { intros E. exact (worldName_not_backupName (config s) (clock s) (eq_sym E)). }
  split; [now rewrite Hbres|]. split; [exact Hbn|]. split; [reflexivity|]. split.
  - intros q n Hq.
    assert (Hq0 : Fs.lookup (worldPath (config (seed_change_detected s)) ++ q)%list
                    (disk (seed_change_detected s)) = Some n) by (now rewrite Ec, Ed).
    destruct (copy_phase_copies fuel _ _ Hcopy q n Hq0) as (n' & Hn' & Hk).
    rewrite Ec, Ek in Hn'. exists n'. split; [|exact Hk].
    rewrite <- Hn'. now apply (keeps_other_entries_lookup (worldName (config s))).
  - intros Hnd. apply Hgone.
    apply (names_once_copy_phase fuel _ _ _ Hcopy). now rewrite Ed.
Qed.

Lemma changed_seed_moves_world_to_backup_witness :
  let s := manager_seed_changed in
  let s' := snd (checkSeedChange 3 s) in
  let backup := "world_backup_2024-01-02T03-04-05-678Z" in
  SeedCheck.mk true seed_changed (Some backup) = SeedCheck.mk true seed_changed (Some backup)
  /\ backup <> worldName (config s)
  /\ Config.world (config s')
     = Some (Config.mkWorld (Some "123") (Some "123") (Some false))
  /\ (forall q n,
         Fs.lookup (worldPath (config s) ++ q)%list (disk s) = Some n ->
         exists n', Fs.lookup (backup :: q) (disk s') = Some n' /\ same_kind n n')
  /\ (NoDup (root_names (disk s)) ->
      Fs.existsSync (worldPath (config s)) (disk s') = false).
Proof.
  exact (changed_seed_moves_world_to_backup 3 manager_seed_changed
           (SeedCheck.mk true seed_changed (Some "world_backup_2024-01-02T03-04-05-678Z"))
           eq_refl eq_refl).
Defined.

(** ** World and seed: what the check records *)

Lemma or_default_idem (v : string) : Js.or_default (Js.or_default v "") "" = Js.or_default v "".
Proof. unfold Js.or_default. destruct (v =? "")%string eqn:E; [reflexivity | now rewrite E]. Qed.

Lemma recorded_after_update (seed : string) (c : Config.t) :
  recordedSeed
    (Config.set_world (Some (Config.mkWorld (Some seed) (Some seed) (Some false))) c)
  = Js.or_default seed ""
  /\ configuredSeed
       (Config.set_world (Some (Config.mkWorld (Some seed) (Some seed) (Some false))) c)
     = configuredSeed c.
Proof. split; reflexivity. Qed.

(** X11. Unless the backup failed, the check leaves the recorded seed equal
    to the configured one and the settings as they were: the next check that
    finds the world, with the configuration as the check left it, answers
    [seed_unchanged]. *)
Theorem check_records_the_configured_seed (fuel : nat) (s : State) (res : SeedCheck.t) :
  fst (checkSeedChange fuel s) = Ok res ->
  SeedCheck.reason res <> backup_failed ->
  let s' := snd (checkSeedChange fuel s) in
  recordedSeed (config s') = configuredSeed (config s')
  /\ same_settings (config s) (config s')
  /\ forall (fuel2 : nat) (s2 : State),
       config s2 = config s' ->
       Fs.existsSync (worldPath (config s2)) (disk s2) = true ->
       fst (checkSeedChange fuel2 s2) = Ok (SeedCheck.mk false seed_unchanged None).
Proof.
  intros Hres Hreason s'.
  assert (Hrec : recordedSeed (config s') = configuredSeed (config s')).
  { subst s'.
    destruct (Fs.existsSync (worldPath (config s)) (disk s)) eqn:Hex.
    - destruct (String.eqb_spec (configuredSeed (config s)) (recordedSeed (config s)))
        as [Heq|Hne].
      + rewrite (checkSeedChange_unchanged fuel s Hex Heq).
        destruct s; unfold logged; simp_state. simp_state_in Heq. now rewrite Heq.
      + destruct (checkSeedChange fuel s) as [r0 s0] eqn:Erun. simpl in Hres. subst r0.
        destruct res as [create reason path].
        destruct reason.
        * rewrite (checkSeedChange_seed_changed fuel s Hex Hne) in Erun. unfold bind in Erun.
          destruct (backupExistingWorld fuel (seed_change_detected s)) as [[bres|e|] s0'];
            [|discriminate|discriminate].
          unfold after_backup in Erun. destruct (BackupResult.success bres).
          -- unfold bind in Erun. rewrite updateWorldConfig_run in Erun. discriminate.
          -- unfold bind in Erun. rewrite !broadcastLog_logged in Erun. discriminate.
        * pose proof (checkSeedChange_reason_changed fuel s
                        (SeedCheck.mk create seed_changed path)) as H.
          rewrite Erun in H. destruct (H eq_refl eq_refl) as (_ & _ & bres & s0' & Hb & Hs).
          rewrite (checkSeedChange_changed_success fuel s s0' bres Hex Hne Hb Hs) in Erun.
          apply (f_equal snd) in Erun. cbn [snd] in Erun. subst s0. clear H.
          pose proof (backupExistingWorld_keeps_config fuel (seed_change_detected s)) as [Hcfg _].
          rewrite Hb in Hcfg. simpl in Hcfg.
          destruct (seed_change_detected_fields s) as (Ec & _ & _). rewrite Ec in Hcfg.
          match goal with
          | |- context [saveConfig ?st] => destruct (saveConfig_keeps st) as (_ & Hc & _)
          end.
          cbn [snd]. rewrite Hc. destruct s0'; simp_state. simp_state_in Hcfg. subst.
          unfold recordedSeed, configuredSeed. simpl. apply or_default_idem.
        * rewrite (checkSeedChange_seed_changed fuel s Hex Hne) in Erun. unfold bind in Erun.
          destruct (backupExistingWorld fuel (seed_change_detected s)) as [[bres|e|] s0'];
            [|discriminate|discriminate].
          unfold after_backup in Erun. destruct (BackupResult.success bres).
          -- unfold bind in Erun. rewrite updateWorldConfig_run in Erun. discriminate.
          -- unfold bind in Erun. rewrite !broadcastLog_logged in Erun. discriminate.
        * exfalso. now apply Hreason.
    - rewrite (checkSeedChange_no_world fuel s Hex). cbv zeta.
      match goal with
      | |- context [saveConfig ?st] => destruct (saveConfig_keeps st) as (_ & Hc & _)
      end.
      cbn [snd]. rewrite Hc. destruct s; simp_state.
      unfold recordedSeed, configuredSeed. simpl. apply or_default_idem. }
  split; [exact Hrec|]. split.
  - destruct (checkSeedChange fuel s) as [r0 s0] eqn:Erun.
    exact (proj1 (proj2 (world_step_checkSeedChange fuel s r0 s0 Erun))).
  - intros fuel2 s2 Hcfg Hex.
    rewrite (checkSeedChange_unchanged fuel2 s2 Hex); [reflexivity|].
    now rewrite Hcfg, Hrec.
Qed.

Lemma check_records_the_configured_seed_witness :
  let s := manager_seed_changed in
  let s' := snd (checkSeedChange 3 s) in
  recordedSeed (config s') = configuredSeed (config s')
  /\ same_settings (config s) (config s')
  /\ forall (fuel2 : nat) (s2 : State),
       config s2 = config s' ->
       Fs.existsSync (worldPath (config s2)) (disk s2) = true ->
       fst (checkSeedChange fuel2 s2) = Ok (SeedCheck.mk false seed_unchanged None).
Proof.
  apply (check_records_the_configured_seed 3 manager_seed_changed
           (SeedCheck.mk true seed_changed (Some "world_backup_2024-01-02T03-04-05-678Z")));
    [reflexivity | discriminate].
Defined.

(** ** The server supervisor: a start *)

Lemma startMinecraftServer_launch (fuel : nat) (s : State) :
  minecraftProcess s = None ->
  startMinecraftServer fuel s
  = (seedCheck <- checkSeedChange fuel ;;
     c <- gets config ;;
     start_announce seedCheck c ;;
     start_proceed c) s.
Proof.
  intros H. unfold startMinecraftServer. unfold bind at 1, gets at 1. rewrite H.
  reflexivity.
Qed.

Lemma log_step_refl (s : State) : log_step s s.
Proof. split; [destruct s; reflexivity | exists []; now rewrite app_nil_r]. Qed.

Lemma log_step_logged (es : list LogEntry.t) (s : State) : log_step s (logged es s).
Proof. split; [destruct s; reflexivity | exists es; destruct s; reflexivity]. Qed.

Lemma log_step_process_events (s s' : State) :
  log_step s s' -> process_events (events s') = process_events (events s).
Proof.
  intros (_ & es & E). rewrite E. unfold process_events. rewrite filter_app.
  fold (process_events (map Emit es)). now rewrite process_events_Emit, app_nil_r.
Qed.

Lemma start_announce_step (seedCheck : SeedCheck.t) (c : Config.t) (s : State) :
  exists s', start_announce seedCheck c s = (Ok tt, s') /\ log_step s s'.
Proof.
  unfold start_announce.
  destruct (SeedCheck.shouldCreateNew seedCheck); [|eexists; split; [reflexivity | apply log_step_refl]].
  cbn [when].
  destruct (SeedCheck.reason seedCheck).
  - rewrite broadcastLog_logged. eexists; split; [reflexivity | apply log_step_logged].
  - unfold bind. rewrite !broadcastLog_logged, logged_logged.
    eexists; split; [reflexivity | apply log_step_logged].
  - eexists; split; [reflexivity | apply log_step_refl].
  - eexists; split; [reflexivity | apply log_step_refl].
Qed.

Lemma process_events_app (a b : list Event) :
  process_events (a ++ b) = (process_events a ++ process_events b)%list.
Proof. apply filter_app. Qed.

Ltac process_events_of_list :=
  unfold process_events; repeat rewrite filter_app;
  cbn [filter is_process_event app]; rewrite ?app_nil_r, <- ?app_assoc; cbn [app].

Lemma start_proceed_run (c : Config.t) (pl : Config.Playit) (perf : Config.Performance)
    (s : State) :
  Config.playit c = Some pl ->
  Config.performance c = Some perf ->
  let starts := playitInstalled s && Config.autoStart pl && is_null (playitProcess s) in
  let h := if starts then S (nextHandle s) else nextHandle s in
  exists s',
    start_proceed c s = (Ok tt, s')
    /\ serverStatus s' = starting
    /\ serverReady s' = false
    /\ startTime s' = Some (millis (clock s))
    /\ minecraftProcess s' = Some h
    /\ playitProcess s' = (if starts then Some (nextHandle s) else playitProcess s)
    /\ alive s' = (h :: if starts then nextHandle s :: alive s else alive s)
    /\ nextHandle s' = S h
    /\ process_events (events s')
       = (process_events (events s)
          ++ (if starts then [Spawn (nextHandle s) (playitPath s) []] else [])
          ++ [Spawn h "java" (javaArgs perf)])%list
    /\ (exists before, events s' = (before ++ [Spawn h "java" (javaArgs perf)])%list)
    /\ config s' = config s
    /\ disk s' = disk s
    /\ configFile s' = configFile s.
Proof.
  intros Hpl Hperf. cbv zeta. unfold start_proceed. rewrite Hpl, Hperf.
  destruct pl as [auto].
  destruct s as [a b c0 d e f g h i j k l m n o p q r t u w x].
  simp_state. cbn [Config.autoStart].
  (destruct j; cbn [andb]; [destruct auto|];
   cbn [andb is_null]);
    try (destruct b; cbn [is_null]);
    (eexists; split;
     [ mrun; cbn [Config.autoStart]; mrun;
       try (rewrite (bind_ok _ _ _ _ _ (startPlayitTunnel_run _)); simp_state; cbn [negb];
            cbv zeta;
            match goal with
            | |- context [bind _ _ ?st] => let st' := field_norm st in change st with st'
            end; mrun);
       reflexivity
     | simp_state;
       repeat match goal with
              | |- _ /\ _ => split
              | |- exists _, _ => eexists
              end;
       try reflexivity;
       destruct (Re.is_empty (Config.seed (Config.server c)));
       process_events_of_list; reflexivity ]).
Qed.

Lemma start_proceed_throws (c : Config.t) (s : State) :
  Config.performance c = None
  \/ (playitInstalled s = true /\ Config.playit c = None) ->
  let starts := playitInstalled s
                && match Config.playit c with
                   | Some playit => Config.autoStart playit
                   | None => false
                   end
                && is_null (playitProcess s) in
  exists message s',
    start_proceed c s = (Throw (TypeError message), s')
    /\ serverStatus s' = starting
    /\ serverReady s' = false
    /\ startTime s' = Some (millis (clock s))
    /\ minecraftProcess s' = minecraftProcess s
    /\ playitProcess s' = (if starts then Some (nextHandle s) else playitProcess s)
    /\ process_events (events s')
       = (process_events (events s)
          ++ (if starts then [Spawn (nextHandle s) (playitPath s) []] else []))%list
    /\ config s' = config s.
Proof.
  intros H. cbv zeta. unfold start_proceed.
  destruct s as [a b c0 d e f g h i j k l m n o p q r t u w x].
  simp_state_in H. simp_state.
  assert (K : (j = true /\ Config.playit c = None)
              \/ (Config.performance c = None
                  /\ (j = false \/ exists playit, Config.playit c = Some playit))).
  { destruct H as [H|H]; [|left; exact H].
    destruct j; [|right; split; [exact H | left; reflexivity]].
    destruct (Config.playit c) as [playit|];
      [right; split; [exact H | right; exists playit; reflexivity] | left; split; reflexivity]. }
  clear H.
  destruct K as [[-> Hpl] | [Hperf [-> | [[auto] Hpl]]]].
  - rewrite Hpl. cbn [andb].
    do 2 eexists. split; [mrun; reflexivity|].
    simp_state. repeat split.
    destruct (Re.is_empty (Config.seed (Config.server c)));
      process_events_of_list; reflexivity.
  - rewrite Hperf. cbn [andb].
    do 2 eexists. split; [mrun; reflexivity|].
    simp_state. repeat split.
    destruct (Re.is_empty (Config.seed (Config.server c)));
      process_events_of_list; reflexivity.
  - rewrite Hperf, Hpl. cbn [Config.autoStart].
    (destruct j; cbn [andb]; [destruct auto|]; cbn [andb is_null]);
      try (destruct b; cbn [is_null]);
      (do 2 eexists; split;
       [ mrun; cbn [Config.autoStart]; mrun;
         try (rewrite (bind_ok _ _ _ _ _ (startPlayitTunnel_run _)); simp_state; cbn [negb];
              cbv zeta;
              match goal with
              | |- context [bind _ _ ?st] => let st' := field_norm st in change st with st'
              end; mrun);
         reflexivity
       | simp_state; repeat split;
         destruct (Re.is_empty (Config.seed (Config.server c)));
         process_events_of_list; reflexivity ]).
Qed.

Lemma log_sync_start_proceed (c : Config.t) : respects log_sync (start_proceed c).
Proof. unfold start_proceed. log_sync_tac. Qed.

Lemma log_sync_start_announce (seedCheck : SeedCheck.t) (c : Config.t) :
  respects log_sync (start_announce seedCheck c).
Proof. unfold start_announce. log_sync_tac. Qed.

Lemma log_sync_startMinecraftServer (fuel : nat) : respects log_sync (startMinecraftServer fuel).
Proof. unfold startMinecraftServer. log_sync_tac. Qed.
#[local] Hint Resolve log_sync_startMinecraftServer : log_sync_db.

(** A start without a server process, up to the summary: the seed check
    returns, and what it and the announcement leave is the state in which
    the rest of the start runs. *)
Lemma startMinecraftServer_prepared (fuel : nat) (s : State) :
  minecraftProcess s = None ->
  (depth_at (worldPath (config s)) (disk s) < fuel)%nat ->
  exists s2,
    startMinecraftServer fuel s = start_proceed (config s2) s2
    /\ same_settings (config s) (config s2)
    /\ process_events (events s2) = process_events (events s)
    /\ minecraftProcess s2 = None
    /\ playitInstalled s2 = playitInstalled s
    /\ playitProcess s2 = playitProcess s
    /\ nextHandle s2 = nextHandle s
    /\ playitPath s2 = playitPath s
    /\ clock s2 = clock s.
Proof.
  intros Hnone Hfuel.
  destruct (checkSeedChange_returns fuel s Hfuel) as [res Hres].
  destruct (checkSeedChange fuel s) as [r1 s1] eqn:E1. cbn [fst] in Hres. subst r1.
  destruct (world_step_checkSeedChange fuel s _ _ E1) as (F1 & S1 & P1).
  destruct (start_announce_step res (config s1) s1) as (s2 & E2 & L2).
  pose proof (log_step_process_events _ _ L2) as P2. destruct L2 as (F2 & _).
  assert (K6 : config s2 = config s1) by (rewrite F2; destruct s1; reflexivity).
  exists s2. split.
  { rewrite (startMinecraftServer_launch fuel s Hnone).
    unfold bind at 1. rewrite E1. unfold bind at 1, gets at 1. unfold bind at 1.
    rewrite E2, K6. reflexivity. }
  rewrite K6, P2, P1. split; [exact S1|]. split; [reflexivity|].
  rewrite F2, F1. rewrite <- Hnone. destruct s; repeat split.
Qed.

Lemma startMinecraftServer_spec (fuel : nat) (s : State)
    (performance : Config.Performance) (playit : Config.Playit) :
  minecraftProcess s = None ->
  (depth_at (worldPath (config s)) (disk s) < fuel)%nat ->
  Config.performance (config s) = Some performance ->
  Config.playit (config s) = Some playit ->
  let r := startMinecraftServer fuel s in
  let starts := playitInstalled s && Config.autoStart playit
                && is_null (playitProcess s) in
  let h := if starts then S (nextHandle s) else nextHandle s in
  fst r = Ok tt
  /\ serverStatus (snd r) = starting
  /\ serverReady (snd r) = false
  /\ startTime (snd r) = Some (millis (clock s))
  /\ minecraftProcess (snd r) = Some h
  /\ playitProcess (snd r) = (if starts then Some (nextHandle s) else playitProcess s)
  /\ process_events (events (snd r))
     = (process_events (events s)
        ++ (if starts then [Spawn (nextHandle s) (playitPath s) []] else [])
        ++ [Spawn h "java" (javaArgs performance)])%list
  /\ (exists before,
         events (snd r) = (before ++ [Spawn h "java" (javaArgs performance)])%list)
  /\ same_settings (config s) (config (snd r)).
Proof.
  intros Hnone Hfuel Hperf Hpl.
  destruct (startMinecraftServer_prepared fuel s Hnone Hfuel)
    as (s2 & Erun & (Sa & Sb & Sc) & P2 & _ & K1 & K2 & K3 & K4 & K5).
  rewrite <- Sb in Hperf. rewrite <- Sc in Hpl.
  destruct (start_proceed_run (config s2) playit performance s2 Hpl Hperf)
    as (s3 & E3 & St & Rd & Tm & Mp & Pp & _ & _ & Pe & (before & Ev) & Cf & _ & _).
  cbv zeta. rewrite Erun, E3. cbn [fst snd].
  rewrite K1, K2, K3, K4, K5, P2 in *.
  split; [reflexivity|]. split; [exact St|]. split; [exact Rd|]. split; [exact Tm|].
  split; [exact Mp|]. split; [exact Pp|]. split; [exact Pe|].
  split; [exists before; exact Ev|].
  rewrite Cf. repeat split; assumption.
Qed.

Lemma startMinecraftServer_throws (fuel : nat) (s : State) :
  minecraftProcess s = None ->
  (depth_at (worldPath (config s)) (disk s) < fuel)%nat ->
  Config.performance (config s) = None
  \/ (playitInstalled s = true /\ Config.playit (config s) = None) ->
  let r := startMinecraftServer fuel s in
  let starts := playitInstalled s
                && match Config.playit (config s) with
                   | Some playit => Config.autoStart playit
                   | None => false
                   end
                && is_null (playitProcess s) in
  (exists message, fst r = Throw (TypeError message))
  /\ serverStatus (snd r) = starting
  /\ serverReady (snd r) = false
  /\ startTime (snd r) = Some (millis (clock s))
  /\ minecraftProcess (snd r) = None
  /\ playitProcess (snd r) = (if starts then Some (nextHandle s) else playitProcess s)
  /\ process_events (events (snd r))
     = (process_events (events s)
        ++ (if starts then [Spawn (nextHandle s) (playitPath s) []] else []))%list
  /\ same_settings (config s) (config (snd r)).
Proof.
  intros Hnone Hfuel Hmiss.
  destruct (startMinecraftServer_prepared fuel s Hnone Hfuel)
    as (s2 & Erun & (Sa & Sb & Sc) & P2 & M2 & K1 & K2 & K3 & K4 & K5).
  rewrite <- Sb, <- Sc, <- K1 in Hmiss.
  destruct (start_proceed_throws (config s2) s2 Hmiss)
    as (message & s3 & E3 & St & Rd & Tm & Mp & Pp & Pe & Cf).
  cbv zeta. rewrite Erun, E3. cbn [fst snd].
  rewrite K1, K2, K3, K4, K5, P2, M2, Sc in *.
  split; [exists message; reflexivity|]. split; [exact St|]. split; [exact Rd|].
  split; [exact Tm|]. split; [exact Mp|]. split; [exact Pp|]. split; [exact Pe|].
  rewrite Cf. repeat split; assumption.
Qed.

(** X12. A start without a server process, with a configuration that has
    its [performance] and [playit] blocks, given fuel for the depth of the
    world: the seed check comes first and never prevents the start; the
    status becomes [starting], the start time is the time of the call; the
    tunnel is spawned when the binary was found, auto-start is on and none
    runs; then, as the last thing done, one [java] process is spawned, with
    the memory settings of the configuration, and its handle is kept. *)
Theorem start_spawns_one_server_process (fuel : nat) (s : State)
    (performance : Config.Performance) (playit : Config.Playit) :
  minecraftProcess s = None ->
  (depth_at (worldPath (config s)) (disk s) < fuel)%nat ->
  Config.performance (config s) = Some performance ->
  Config.playit (config s) = Some playit ->
  let r := startMinecraftServer fuel s in
  let starts := playitInstalled s && Config.autoStart playit
                && is_null (playitProcess s) in
  let h := if starts then S (nextHandle s) else nextHandle s in
  fst r = Ok tt
  /\ serverStatus (snd r) = starting
  /\ serverReady (snd r) = false
  /\ startTime (snd r) = Some (millis (clock s))
  /\ minecraftProcess (snd r) = Some h
  /\ playitProcess (snd r) = (if starts then Some (nextHandle s) else playitProcess s)
  /\ process_events (events (snd r))
     = (process_events (events s)
        ++ (if starts then [Spawn (nextHandle s) (playitPath s) []] else [])
        ++ [Spawn h "java" (javaArgs performance)])%list
  /\ (exists before,
         events (snd r) = (before ++ [Spawn h "java" (javaArgs performance)])%list)
  /\ same_settings (config s) (config (snd r)).
Proof. exact (startMinecraftServer_spec fuel s performance playit). Qed.

Lemma start_spawns_one_server_process_witness :
  let s := set_playitInstalled true manager_seed_changed in
  let performance := Config.mkPerformance "3G" "1G" in
  let playit := Config.mkPlayit true in
  let r := startMinecraftServer 3 s in
  let starts := playitInstalled s && Config.autoStart playit
                && is_null (playitProcess s) in
  let h := if starts then S (nextHandle s) else nextHandle s in
  fst r = Ok tt
  /\ serverStatus (snd r) = starting
  /\ serverReady (snd r) = false
  /\ startTime (snd r) = Some (millis (clock s))
  /\ minecraftProcess (snd r) = Some h
  /\ playitProcess (snd r) = (if starts then Some (nextHandle s) else playitProcess s)
  /\ process_events (events (snd r))
     = (process_events (events s)
        ++ (if starts then [Spawn (nextHandle s) (playitPath s) []] else [])
        ++ [Spawn h "java" (javaArgs performance)])%list
  /\ (exists before,
         events (snd r) = (before ++ [Spawn h "java" (javaArgs performance)])%list)
  /\ same_settings (config s) (config (snd r)).
Proof.
  apply (start_spawns_one_server_process 3 (set_playitInstalled true manager_seed_changed)
           (Config.mkPerformance "3G" "1G") (Config.mkPlayit true)).
  - reflexivity.
  - vm_compute. lia.
  - reflexivity.
  - reflexivity.
Defined.

Example start_after_failed_backup :
  let r := startMinecraftServer 3 manager_locked_region in
  fst r = Ok tt
  /\ serverStatus (snd r) = starting
  /\ process_events (events (snd r))
     = [Spawn 0%nat "java" (javaArgs (Config.mkPerformance "3G" "1G"))].
Proof. vm_compute. repeat split. Qed.

(** ** The server supervisor: the output of the server *)

Lemma markWorldAsGenerated_run (s : State) :
  markWorldAsGenerated s
  = (Ok tt, snd (saveConfig (set_config (generated (config s)) s))).
Proof.
  destruct s as [a b c d e f g h i j k l m n o p q r t u w x].
  unfold markWorldAsGenerated, ensure_world, assign_world, generated. run.
  rewrite !saveConfig_run. simp_state.
  destruct i as [sv pf pl [wb|]]; cbn [Config.world Config.set_world]; run;
    cbn [Config.world Config.set_world Config.server Config.performance Config.playit
         Config.currentSeed Config.lastUsedSeed Config.worldGenerated Config.empty_block];
    destruct t; reflexivity.
Qed.

Lemma log_step_trans (s1 s2 s3 : State) :
  log_step s1 s2 -> log_step s2 s3 -> log_step s1 s3.
Proof.
  intros (E12 & es1 & P12) (E23 & es2 & P23). split.
  - rewrite E23 at 1. rewrite E12 at 1. destruct s1; reflexivity.
  - exists (es1 ++ es2)%list. now rewrite P23, P12, map_app, app_assoc.
Qed.

Lemma returns_log_step_broadcastLog (message : string) (type : LogType) :
  returns log_step (broadcastLog message type).
Proof.
  intros s. exists tt. eexists. split; [apply broadcastLog_logged | apply log_step_logged].
Qed.

Lemma displayConnectionInfo_logs : returns log_step displayConnectionInfo.
Proof.
  unfold displayConnectionInfo.
  returns_with log_step_refl log_step_trans ltac:(apply returns_log_step_broadcastLog).
Qed.

Lemma onMinecraftStdout_line (data : string) (s : State) :
  is_ready_banner (Js.trim data) = false ->
  onMinecraftStdout data s
  = (Ok tt,
     logged [logEntryOf (clock s,
               (ParsedLog.message (parseMinecraftLog (Js.trim data)),
                ParsedLog.type (parseMinecraftLog (Js.trim data))))] s).
Proof.
  intros H. unfold onMinecraftStdout. cbv zeta. rewrite H.
  unfold bind. rewrite broadcastLog_logged. reflexivity.
Qed.

Lemma onMinecraftStdout_banner (data : string) (s : State) :
  is_ready_banner (Js.trim data) = true ->
  onMinecraftStdout data s
  = displayConnectionInfo
      (logged [logEntryOf (clock s, ("🎉 SERVER IS NOW ONLINE! Friends can join!", Success))]
         (snd (saveConfig
                 (set_config (generated (config s))
                    (set_serverReady true
                       (set_serverStatus online
                          (logged [logEntryOf (clock s,
                                     (ParsedLog.message (parseMinecraftLog (Js.trim data)),
                                      ParsedLog.type (parseMinecraftLog (Js.trim data))))]
                             s))))))).
Proof.
  intros H. unfold onMinecraftStdout. cbv zeta. rewrite H. cbn [when].
  rewrite bind_broadcastLog, !bind_modify.
  rewrite (bind_ok _ _ _ _ _ (markWorldAsGenerated_run _)), bind_broadcastLog.
  destruct s as [a b c d e f g h i j k l m n o p q r t u w x].
  rewrite !saveConfig_run. unfold logged. simp_state. destruct t; reflexivity.
Qed.

Lemma onMinecraftStdout_ready (data : string) (s : State) :
  is_ready_banner (Js.trim data) = true ->
  exists s',
    onMinecraftStdout data s = (Ok tt, s')
    /\ serverStatus s' = online
    /\ serverReady s' = true
    /\ config s' = generated (config s)
    /\ configFile s'
       = (if configFileWritable s then Some (generated (config s)) else configFile s)
    /\ In (FsWriteConfig (generated (config s))) (events s')
    /\ minecraftProcess s' = minecraftProcess s
    /\ startTime s' = startTime s
    /\ playitProcess s' = playitProcess s
    /\ playitAddresses s' = playitAddresses s
    /\ disk s' = disk s
    /\ process_events (events s') = process_events (events s).
Proof.
  intros H. rewrite (onMinecraftStdout_banner data s H).
  match goal with
  | |- context [displayConnectionInfo ?st] =>
      destruct (displayConnectionInfo_logs st) as ([] & s' & E & F & es & Ev)
  end.
  exists s'. split; [exact E|]. clear E. rewrite F, Ev. clear F Ev.
  rewrite saveConfig_run.
  destruct s as [a b c d e f g h i j k l m n o p q r t u w x].
  unfold logged. simp_state.
  destruct t; simp_state;
    repeat match goal with |- _ /\ _ => split end;
    try reflexivity.
  - rewrite !in_app_iff. cbn [In map]. auto 8.
  - rewrite process_events_app, process_events_Emit, app_nil_r. cbn [map].
    process_events_of_list. reflexivity.
  - rewrite !in_app_iff. cbn [In map]. auto 8.
  - rewrite process_events_app, process_events_Emit, app_nil_r. cbn [map].
    process_events_of_list. reflexivity.
Qed.
Lemma generated_world (c : Config.t) :
  (exists w, Config.world (generated c) = Some w /\ Config.worldGenerated w = Some true)
  /\ recordedSeed (generated c) = recordedSeed c
  /\ configuredSeed (generated c) = configuredSeed c
  /\ same_settings c (generated c).
Proof.
  unfold generated. destruct c as [sv pf pl [[cs ls gen]|]]; cbn.
  - split; [eexists; split; reflexivity|]. repeat split.
  - split; [eexists; split; reflexivity|]. repeat split.
Qed.

(** X13. The line with the readiness banner, and only it, puts the server
    online, whatever the status was: status [online], ready, the world marked
    as generated with the recorded seed kept, and the configuration written;
    the process handle and the tunnel are left alone.  Any other line, of
    ASCII text, only adds its classified entry to the log. *)
Theorem banner_puts_the_server_online (data : string) (s : State) :
  (is_ready_banner (Js.trim data) = true ->
   let r := onMinecraftStdout data s in
   fst r = Ok tt
   /\ serverStatus (snd r) = online
   /\ serverReady (snd r) = true
   /\ (exists w, Config.world (config (snd r)) = Some w
                 /\ Config.worldGenerated w = Some true)
   /\ recordedSeed (config (snd r)) = recordedSeed (config s)
   /\ same_settings (config s) (config (snd r))
   /\ In (FsWriteConfig (config (snd r))) (events (snd r))
   /\ configFile (snd r)
      = (if configFileWritable s then Some (config (snd r)) else configFile s)
   /\ minecraftProcess (snd r) = minecraftProcess s
   /\ startTime (snd r) = startTime s
   /\ playitProcess (snd r) = playitProcess s
   /\ playitAddresses (snd r) = playitAddresses s
   /\ process_events (events (snd r)) = process_events (events s))
  /\ (Js.is_ascii data = true ->
      is_ready_banner (Js.trim data) = false ->
      onMinecraftStdout data s
      = (Ok tt,
         logged [logEntryOf (clock s,
                   (ParsedLog.message (parseMinecraftLog (Js.trim data)),
                    ParsedLog.type (parseMinecraftLog (Js.trim data))))] s)).
Proof.
  split; [|intros _; apply onMinecraftStdout_line].
  intros H.
  destruct (onMinecraftStdout_ready data s H)
    as (s' & E & St & Rd & Cf & Fl & Wr & Mp & Tm & Pp & Pa & _ & Pe).
  cbv zeta. rewrite E. cbn [fst snd]. rewrite Cf.
  destruct (generated_world (config s)) as (Hw & Hr & _ & Hs).
  repeat match goal with |- _ /\ _ => split end; assumption || reflexivity.
Qed.

Lemma banner_puts_the_server_online_witness :
  let banner := "[03:04:09 INFO]: Done (3.2s)! For help, type "
                ++ Js.dquote ++ "help" ++ Js.dquote in
  (serverStatus (snd (onMinecraftStdout banner manager_stopping)) = online
   /\ serverReady (snd (onMinecraftStdout banner manager_stopping)) = true)
  /\ onMinecraftStdout "[03:04:06 INFO]: Preparing level" manager_starting
     = (Ok tt,
        logged [logEntryOf (clock manager_starting,
                  (ParsedLog.message (parseMinecraftLog (Js.trim "[03:04:06 INFO]: Preparing level")),
                   ParsedLog.type (parseMinecraftLog (Js.trim "[03:04:06 INFO]: Preparing level"))))]
          manager_starting).
Proof.
  split.
  - pose proof (proj1 (banner_puts_the_server_online
                         ("[03:04:09 INFO]: Done (3.2s)! For help, type "
                          ++ Js.dquote ++ "help" ++ Js.dquote) manager_stopping) eq_refl) as H.
    cbv zeta in H. split; [exact (proj1 (proj2 H)) | exact (proj1 (proj2 (proj2 H)))].
  - apply (proj2 (banner_puts_the_server_online "[03:04:06 INFO]: Preparing level"
                    manager_starting)); reflexivity.
Defined.

(** ** The server supervisor: stop and commands *)

Lemma stopMinecraftServer_run (s : State) (h : Handle) :
  minecraftProcess s = Some h ->
  stopMinecraftServer s
  = (Ok tt,
     let s1 := logged [logEntryOf (clock s, ("⏹️ Stopping Minecraft server...", Info))]
                 (set_serverStatus stopping s) in
     let s2 := snd (stopPlayitTunnel (snd (resetPlayitState s1))) in
     set_events (events s2 ++ [StdinWrite h ("stop" ++ LF)]) s2).
Proof.
  intros H. unfold stopMinecraftServer. cbv zeta.
  rewrite stopPlayitTunnel_run, resetPlayitState_run.
  destruct s as [a b c d e f g h0 i j k l m n o p q r t u w x].
  simp_state_in H. subst a. unfold logged. simp_state.
  destruct b; mrun; reflexivity.
Qed.

Lemma postStop_run (s : State) (h : Handle) :
  serverStatus s <> offline ->
  minecraftProcess s = Some h ->
  postStop s
  = (Ok (Response.mk true "Server is stopping..." (Some "stopping")),
     snd (stopMinecraftServer s)).
Proof.
  intros Hs Hp. unfold postStop. unfold bind at 1, gets at 1.
  assert (E : Status_eqb (serverStatus s) offline = false)
    by (destruct (serverStatus s); [contradiction | reflexivity ..]).
  rewrite E. unfold bind. rewrite (stopMinecraftServer_run s h Hp). reflexivity.
Qed.

(** X14. A stop is refused, and does nothing, when the status is offline.
    Otherwise it only asks: the status becomes [stopping], the tunnel, if
    it runs, is sent SIGTERM and its state is cleared, and the server process
    is sent the line [stop] on its input.  The server process is not
    signalled, and its handle is kept until it exits. *)
Theorem stop_asks_the_server_to_stop (s : State) :
  (serverStatus s = offline ->
   postStop s = (Ok (Response.mk false "Server is already offline" None), s))
  /\ (forall h,
        serverStatus s <> offline ->
        minecraftProcess s = Some h ->
        let r := postStop s in
        fst r = Ok (Response.mk true "Server is stopping..." (Some "stopping"))
        /\ serverStatus (snd r) = stopping
        /\ minecraftProcess (snd r) = Some h
        /\ process_events (events (snd r))
           = (process_events (events s)
              ++ match playitProcess s with
                 | Some t => [Kill t "SIGTERM"]
                 | None => []
                 end
              ++ [StdinWrite h ("stop" ++ LF)])%list
        /\ playitProcess (snd r) = None
        /\ playitAddresses (snd r) = mkAddresses None None
        /\ playitTunnelsDetected (snd r) = false
        /\ playitSetupUrl (snd r) = None
        /\ alive (snd r) = alive s).
Proof.
  split.
  - intros H. unfold postStop, bind, gets. now rewrite H.
  - intros h Hs Hp. cbv zeta. rewrite (postStop_run s h Hs Hp).
    rewrite (stopMinecraftServer_run s h Hp). cbv zeta. cbn [fst snd].
    rewrite stopPlayitTunnel_run, resetPlayitState_run.
    destruct s as [a b c d e f g h0 i j k l m n o p q r t u w x].
    simp_state_in Hp. subst a. clear Hs.
    unfold logged. simp_state. cbn [snd].
    destruct b; simp_state; cbv zeta; simp_state;
      repeat match goal with |- _ /\ _ => split end;
      try reflexivity; cbn [map]; process_events_of_list; reflexivity.
Qed.

Lemma stop_asks_the_server_to_stop_witness :
  postStop manager0 = (Ok (Response.mk false "Server is already offline" None), manager0)
  /\ (let r := postStop manager_online in
      fst r = Ok (Response.mk true "Server is stopping..." (Some "stopping"))
      /\ serverStatus (snd r) = stopping
      /\ minecraftProcess (snd r) = Some 1%nat
      /\ process_events (events (snd r))
         = (process_events (events manager_online)
            ++ match playitProcess manager_online with
               | Some t => [Kill t "SIGTERM"]
               | None => []
               end
            ++ [StdinWrite 1%nat ("stop" ++ LF)])%list
      /\ playitProcess (snd r) = None
      /\ playitAddresses (snd r) = mkAddresses None None
      /\ playitTunnelsDetected (snd r) = false
      /\ playitSetupUrl (snd r) = None
      /\ alive (snd r) = alive manager_online).
Proof.
  split.
  - apply (proj1 (stop_asks_the_server_to_stop manager0)). reflexivity.
  - apply (proj2 (stop_asks_the_server_to_stop manager_online) 1%nat).
    + vm_compute. discriminate.
    + reflexivity.
Defined.

Lemma executeCommand_run (command : string) (s : State) :
  executeCommand command s
  = (Ok tt,
     match minecraftProcess s with
     | Some h =>
         if serverReady s then
           logged [logEntryOf (clock s, ("📤 Command executed: " ++ command, Info))]
             (set_events (events s ++ [StdinWrite h (command ++ LF)]) s)
         else s
     | None => s
     end).
Proof.
  unfold executeCommand.
  destruct s as [[h0|] b c d e f [|] h i j k l m n o p q r t u w x];
    simp_state; unfold logged; simp_state; mrun; reflexivity.
Qed.

(** X15. A command is refused, and nothing is done, unless the status is
    online.  Online, with the process and the server ready, the command is
    written to the input of the server process as it came, followed by a
    line feed, and logged; nothing else changes.  The answer is a success
    in both online cases, also when nothing could be written. *)
Theorem command_is_written_when_online (command : string) (s : State) :
  (serverStatus s <> online ->
   postCommand command s
   = (Ok (Response.mk false "Server must be online to send commands" None), s))
  /\ (serverStatus s = online ->
      postCommand command s
      = (Ok (Response.mk true ("Command executed: " ++ command) None),
         match minecraftProcess s with
         | Some h =>
             if serverReady s then
               logged [logEntryOf (clock s, ("📤 Command executed: " ++ command, Info))]
                 (set_events (events s ++ [StdinWrite h (command ++ LF)]) s)
             else s
         | None => s
         end)).
Proof.
  split; intros H; unfold postCommand; unfold bind at 1, gets at 1.
  - assert (E : Status_eqb (serverStatus s) online = false)
      by (destruct (serverStatus s); [reflexivity .. | | reflexivity]; contradiction).
    now rewrite E.
  - rewrite H. cbn [Status_eqb negb]. unfold bind.
    now rewrite executeCommand_run.
Qed.

Lemma command_is_written_when_online_witness :
  postCommand "say hi" manager_starting
  = (Ok (Response.mk false "Server must be online to send commands" None), manager_starting)
  /\ process_events (events (snd (postCommand "say hi" manager_online)))
     = (process_events (events manager_online) ++ [StdinWrite 1%nat ("say hi" ++ LF)])%list.
Proof.
  split.
  - apply (proj1 (command_is_written_when_online "say hi" manager_starting)).
    vm_compute. discriminate.
  - rewrite (proj2 (command_is_written_when_online "say hi" manager_online) eq_refl).
    vm_compute. reflexivity.
Defined.

(** ** Every request: the log and what is sent *)

Lemma log_sync_kill (h : Handle) (signal : string) : respects log_sync (kill h signal).
Proof. apply log_sync_emit. reflexivity. Qed.

Lemma log_sync_stdin_write (h : Handle) (data : string) :
  respects log_sync (stdin_write h data).
Proof. apply log_sync_emit. reflexivity. Qed.

#[local] Hint Resolve log_sync_kill log_sync_stdin_write : log_sync_db.

Lemma log_sync_stopPlayitTunnel : respects log_sync stopPlayitTunnel.
Proof. unfold stopPlayitTunnel, clear_addresses. log_sync_tac. Qed.

Lemma log_sync_resetPlayitState : respects log_sync resetPlayitState.
Proof. unfold resetPlayitState, clear_addresses. log_sync_tac. Qed.

Lemma log_sync_displayConnectionInfo : respects log_sync displayConnectionInfo.
Proof. unfold displayConnectionInfo. log_sync_tac. Qed.

#[local] Hint Resolve log_sync_stopPlayitTunnel log_sync_resetPlayitState
  log_sync_displayConnectionInfo : log_sync_db.

Lemma log_sync_handle (req : Request) : respects log_sync (handle req).
Proof.
  destruct req; cbn [handle];
    unfold route, postStart, postStop, postCommand, stopMinecraftServer, executeCommand,
      onMinecraftStdout, onMinecraftStderr, onMinecraftClose,
      onPlayitStdout, onPlayitStderr, onPlayitClose, parsePlayitOutput, clear_addresses;
    log_sync_tac.
Qed.
#[local] Hint Resolve log_sync_handle : log_sync_db.

Lemma log_sync_serve (reqs : list Request) : respects log_sync (serve reqs).
Proof. unfold serve. log_sync_tac. Qed.

(** X16. Whatever the requests, every entry the buffer receives is sent to
    the clients and every entry sent is in the buffer: from a buffer within
    its capacity, after any sequence of requests the buffer is within its
    capacity and is the last [maxLogs] entries of what it held followed by
    what was sent since.  A client that takes the snapshot and then follows
    the entries sent has what a later snapshot holds. *)
Theorem log_follows_what_is_sent (reqs : list Request) (s : State) :
  (length (logs s) <= maxLogs)%nat ->
  let s' := snd (serve reqs s) in
  (length (snapshot s') <= maxLogs)%nat
  /\ exists sent,
       emitted (events s') = (emitted (events s) ++ sent)%list
       /\ snapshot s' = slice_last maxLogs (snapshot s ++ sent).
Proof.
  intros H. cbv zeta.
  destruct (serve reqs s) as [r s'] eqn:E.
  exact (log_sync_serve reqs s r s' E H).
Qed.

Lemma log_follows_what_is_sent_witness :
  let reqs := [PostStart 1; MinecraftStdout "[03:04:06 INFO]: Preparing level"; PostStop] in
  let s' := snd (serve reqs manager0) in
  (length (snapshot s') <= maxLogs)%nat
  /\ exists sent,
       emitted (events s') = (emitted (events manager0) ++ sent)%list
       /\ snapshot s' = slice_last maxLogs (snapshot manager0 ++ sent).
Proof.
  apply (log_follows_what_is_sent
           [PostStart 1; MinecraftStdout "[03:04:06 INFO]: Preparing level"; PostStop]
           manager0).
  vm_compute. lia.
Defined.

(** ** Every request: the status and the server process *)

Lemma keeps_status_matching_refl (s : State) : keeps_status_matching s s.
Proof. intros H; exact H. Qed.

Lemma keeps_status_matching_trans (s1 s2 s3 : State) :
  keeps_status_matching s1 s2 -> keeps_status_matching s2 s3 ->
  keeps_status_matching s1 s3.
Proof. unfold keeps_status_matching. auto. Qed.

Lemma complete_same_settings (c c' : Config.t) :
  same_settings c c' -> complete c -> complete c'.
Proof. intros (_ & P & Q) (A & B). split; congruence. Qed.

Lemma server_kept_refl (s : State) : server_kept s s.
Proof. repeat split. Qed.

Lemma server_kept_trans (s1 s2 s3 : State) :
  server_kept s1 s2 -> server_kept s2 s3 -> server_kept s1 s3.
Proof.
  intros (A1 & B1 & C1 & D1 & E1) (A2 & B2 & C2 & D2 & E2).
  split; [congruence|]. split; [congruence|]. split; [congruence|].
  split; [congruence|]. exact (same_settings_trans _ _ _ E1 E2).
Qed.

Lemma server_kept_matching (s s' : State) : server_kept s s' -> keeps_status_matching s s'.
Proof.
  intros (A & B & C & D & E) ((I1 & I2) & I3). unfold status_matches_process.
  rewrite A, B, C, D. split; [split; assumption|].
  exact (complete_same_settings _ _ E I3).
Qed.

Lemma server_kept_logged (es : list LogEntry.t) (s : State) : server_kept s (logged es s).
Proof. destruct s; repeat split. Qed.

Lemma server_kept_broadcastLog (message : string) (type : LogType) :
  respects server_kept (broadcastLog message type).
Proof.
  intros s r s' E. rewrite broadcastLog_logged in E. injection E as _ <-.
  apply server_kept_logged.
Qed.

Ltac server_kept_prim :=
  idtac; match goal with
  | |- respects _ (modify _) =>
      intros [? ? ? ? ? ? ? ? ? ? ? ? ? ? ? ? ? ? ? ? ? ?] ? ? [= _ <-];
      unfold server_kept; simp_state;
      repeat match goal with |- context [match ?x with _ => _ end] => destruct x end;
      repeat split
  | |- respects _ (emit _) =>
      intros [? ? ? ? ? ? ? ? ? ? ? ? ? ? ? ? ? ? ? ? ? ?] ? ? [= _ <-]; repeat split
  | |- respects _ (stdin_write _ _) =>
      intros [? ? ? ? ? ? ? ? ? ? ? ? ? ? ? ? ? ? ? ? ? ?] ? ? [= _ <-]; repeat split
  | |- respects _ (kill _ _) =>
      intros [? ? ? ? ? ? ? ? ? ? ? ? ? ? ? ? ? ? ? ? ? ?] ? ? [= _ <-]; repeat split
  | |- respects _ (broadcastLog _ _) => apply server_kept_broadcastLog
  end.

Ltac server_kept_tac :=
  idtac; respects_with server_kept_refl server_kept_trans ltac:(server_kept_prim).

Lemma server_kept_parsePlayitLines (lines : list string) :
  forall found, respects server_kept (parsePlayitLines lines found).
Proof.
  induction lines as [|line lines IH]; intros found; simpl.
  - apply respects_ret, server_kept_refl.
  - apply (respects_bind _ server_kept_trans); [|intros b; apply IH].
    unfold parsePlayitLine. server_kept_tac.
Qed.

Lemma server_kept_tunnel_listeners (req : Request) :
  match req with
  | PostCommand _ | MinecraftStderr _ | PlayitStdout _ | PlayitStderr _ | PlayitClose _ => True
  | _ => False
  end ->
  respects server_kept (handle req).
Proof.
  destruct req; intros []; cbn [handle];
    unfold route, postCommand, executeCommand, onMinecraftStderr,
      onPlayitStdout, onPlayitStderr, onPlayitClose, parsePlayitOutput, clear_addresses;
    respects_with server_kept_refl server_kept_trans
      ltac:(first [apply server_kept_parsePlayitLines | server_kept_prim]).
Qed.

Lemma world_step_server_kept (s s' : State) : world_step s s' -> server_kept s s'.
Proof.
  intros (E & S & _). unfold server_kept.
  split; [|split; [|split; [|split]]]; try exact S; rewrite E; destruct s; reflexivity.
Qed.

Lemma log_step_server_kept (s s' : State) : log_step s s' -> server_kept s s'.
Proof. intros (E & _). rewrite E. destruct s; repeat split. Qed.

Lemma startMinecraftServer_matching (fuel : nat) :
  respects keeps_status_matching (startMinecraftServer fuel).
Proof.
  intros s r s' E.
  destruct (minecraftProcess s) as [h|] eqn:Hp.
  - rewrite (startMinecraftServer_running fuel s h Hp), broadcastLog_logged in E.
    injection E as _ <-. apply server_kept_matching, server_kept_logged.
  - rewrite (startMinecraftServer_launch fuel s Hp) in E.
    unfold bind at 1 in E.
    destruct (checkSeedChange fuel s) as [r1 s1] eqn:E1.
    pose proof (world_step_checkSeedChange fuel s _ _ E1) as W1.
    pose proof (world_step_server_kept _ _ W1) as K1.
    destruct r1 as [res|e|];
      [| injection E as _ <-; now apply server_kept_matching
       | injection E as _ <-; now apply server_kept_matching ].
    unfold bind at 1, gets at 1 in E. unfold bind at 1 in E.
    destruct (start_announce_step res (config s1) s1) as (s2 & E2 & L2).
    rewrite E2 in E.
    intros (_ & Hc).
    pose proof (complete_same_settings _ _ (proj1 (proj2 W1)) Hc) as (Hperf & Hpl).
    destruct (Config.performance (config s1)) as [performance|] eqn:Eperf;
      [|contradiction].
    destruct (Config.playit (config s1)) as [playit|] eqn:Epl; [|contradiction].
    destruct (start_proceed_run (config s1) playit performance s2 Epl Eperf)
      as (s3 & E3 & St & Rd & Tm & Mp & _ & _ & _ & _ & _ & Cf & _).
    rewrite E3 in E. injection E as _ <-.
    split.
    + split; [split|]; rewrite ?St, ?Mp; intros; discriminate.
    + rewrite Cf. destruct L2 as (F2 & _). rewrite F2.
      replace (config (set_events (events s2) (set_logs (logs s2) s1))) with (config s1)
        by (destruct s1; reflexivity).
      split; congruence.
Qed.

Lemma postStop_matching : respects keeps_status_matching postStop.
Proof.
  intros s r s' E Inv.
  destruct (Status_eqb (serverStatus s) offline) eqn:Hst.
  - unfold postStop in E. rewrite bind_gets, Hst in E. injection E as _ <-. exact Inv.
  - assert (Hne : serverStatus s <> offline) by (intros H; rewrite H in Hst; discriminate).
    destruct (minecraftProcess s) as [h|] eqn:Hp;
      [| exfalso; apply Hne; exact (proj1 (proj1 (proj1 Inv)) Hp) ].
    rewrite (postStop_run s h Hne Hp) in E. injection E as _ <-.
    rewrite (stopMinecraftServer_run s h Hp). cbv zeta. cbn [snd].
    rewrite stopPlayitTunnel_run, resetPlayitState_run.
    destruct Inv as (_ & Hc). clear Hst Hne.
    destruct s as [a b c d e f g h0 i j k l m n o p q r0 t u w x].
    simp_state_in Hp. subst a. simp_state_in Hc. unfold logged. simp_state.
    destruct b; simp_state; cbv zeta; simp_state;
      (split; [split; [split|]; simp_state; intros; discriminate | exact Hc]).
Qed.

Lemma respects_route {A : Type} (R : State -> State -> Prop) (m : M A) :
  (forall s, R s s) ->
  (forall s1 s2 s3, R s1 s2 -> R s2 s3 -> R s1 s3) ->
  respects R m -> respects R (route m).
Proof.
  intros Hrefl Htrans Hm. unfold route.
  apply (respects_try_catch _ Htrans); [|intros e; apply (respects_ret _ Hrefl)].
  apply (respects_bind _ Htrans); [exact Hm | intros a; apply (respects_ret _ Hrefl)].
Qed.

Lemma postStart_matching (fuel : nat) : respects keeps_status_matching (postStart fuel).
Proof.
  intros s r s' E. unfold postStart in E. rewrite bind_gets in E.
  destruct (Status_eqb (serverStatus s) starting || Status_eqb (serverStatus s) online).
  - injection E as _ <-. apply keeps_status_matching_refl.
  - unfold bind at 1 in E.
    destruct (startMinecraftServer fuel s) as [r1 s1] eqn:E1.
    pose proof (startMinecraftServer_matching fuel s r1 s1 E1) as K.
    destruct r1 as [[]|e|]; injection E as _ <-; exact K.
Qed.

Lemma handle_matching (req : Request) (s : State) :
  enabled req s = true ->
  forall r s', handle req s = (r, s') -> keeps_status_matching s s'.
Proof.
  intros He r s' E. destruct req; cbn [handle enabled] in *.
  - (* POST /start *)
    exact (respects_route _ _ keeps_status_matching_refl keeps_status_matching_trans
             (postStart_matching fuel) s r s' E).
  - (* POST /stop *)
    exact (respects_route _ _ keeps_status_matching_refl keeps_status_matching_trans
             postStop_matching s r s' E).
  - (* POST /command *)
    apply server_kept_matching.
    exact (server_kept_tunnel_listeners (PostCommand command) I s r s' E).
  - (* output of the server *)
    destruct (minecraftProcess s) as [h|] eqn:Hp; [|discriminate].
    destruct (is_ready_banner (Js.trim data)) eqn:Hb.
    + destruct (onMinecraftStdout_ready data s Hb)
        as (s1 & E1 & St & Rd & Cf & _ & _ & Mp & _).
      rewrite E1 in E. injection E as _ <-.
      intros (_ & Hc). split.
      * split; [split|]; rewrite ?St, ?Mp, ?Hp; intros; discriminate.
      * rewrite Cf.
        exact (complete_same_settings _ _
                 (proj2 (proj2 (proj2 (generated_world (config s))))) Hc).
    + rewrite (onMinecraftStdout_line data s Hb) in E. injection E as _ <-.
      apply server_kept_matching, server_kept_logged.
  - apply server_kept_matching.
    exact (server_kept_tunnel_listeners (MinecraftStderr data) I s r s' E).
  - (* exit of the server *)
    rewrite onMinecraftClose_run in E. injection E as _ <-.
    intros (_ & Hc). destruct s; cbv zeta; simp_state. simp_state_in Hc.
    split; [repeat split | exact Hc].
  - apply server_kept_matching.
    exact (server_kept_tunnel_listeners (PlayitStdout data) I s r s' E).
  - apply server_kept_matching.
    exact (server_kept_tunnel_listeners (PlayitStderr data) I s r s' E).
  - apply server_kept_matching.
    exact (server_kept_tunnel_listeners (PlayitClose code) I s r s' E).
Qed.

Lemma serve_matching (reqs : list Request) : respects keeps_status_matching (serve reqs).
Proof.
  unfold serve. apply respects_forEach.
  - apply keeps_status_matching_refl.
  - apply keeps_status_matching_trans.
  - intros req s r s'. rewrite bind_gets.
    destruct (enabled req s) eqn:He; cbn [when].
    + apply handle_matching; exact He.
    + intros [= _ <-]. apply keeps_status_matching_refl.
Qed.

(** X17. The status and the process handle agree, whatever is requested
    of the supervisor and in whatever order, as long as the configuration
    has its [performance] and [playit] blocks: in every state reached by
    starts, stops, commands and events of the child processes, from a
    manager as the constructor leaves it, the status is [offline] exactly
    when no server process is held, and then the server is not ready and has
    no start time.  So a status other than [offline] comes with a process to
    stop, and a start is not refused for a process that is gone. *)
Theorem status_offline_iff_no_server_process (reqs : list Request) (s : State) :
  status_matches_process s ->
  Config.performance (config s) <> None ->
  Config.playit (config s) <> None ->
  status_matches_process (snd (serve reqs s)).
Proof.
  intros H Hperf Hpl. destruct (serve reqs s) as [r s'] eqn:E.
  exact (proj1 (serve_matching reqs s r s' E (conj H (conj Hperf Hpl)))).
Qed.

Lemma status_offline_iff_no_server_process_witness :
  status_matches_process
    (snd (serve [PostStart 1; PostStop; PostStart 1; MinecraftClose (Some 0%Z)] manager0)).
Proof.
  apply (status_offline_iff_no_server_process
           [PostStart 1; PostStop; PostStart 1; MinecraftClose (Some 0%Z)] manager0).
  - vm_compute. repeat split; discriminate.
  - discriminate.
  - discriminate.
Defined.

(** ** Every request but a start: nothing is spawned *)

Lemma spawns_nothing_refl (s : State) : spawns_nothing s s.
Proof. repeat split. Qed.

Lemma spawns_nothing_trans (s1 s2 s3 : State) :
  spawns_nothing s1 s2 -> spawns_nothing s2 s3 -> spawns_nothing s1 s3.
Proof.
  intros (A1 & B1 & C1) (A2 & B2 & C2). repeat split; congruence.
Qed.

Lemma spawns_nothing_logged (es : list LogEntry.t) (s : State) :
  spawns_nothing s (logged es s).
Proof.
  destruct s; unfold logged, spawns_nothing; simp_state. rewrite filter_app.
  replace (filter is_spawn (map Emit es)) with (@nil Event);
    [now rewrite app_nil_r|].
  induction es as [|e es IH]; [reflexivity | exact IH].
Qed.

Lemma spawns_nothing_broadcastLog (message : string) (type : LogType) :
  respects spawns_nothing (broadcastLog message type).
Proof.
  intros s r s' E. rewrite broadcastLog_logged in E. injection E as _ <-.
  apply spawns_nothing_logged.
Qed.

Lemma spawns_nothing_event (e : Event) (s : State) :
  is_spawn e = false -> spawns_nothing s (set_events (events s ++ [e]) s).
Proof.
  intros H. destruct s; unfold spawns_nothing; simp_state.
  rewrite filter_app. cbn [filter]. rewrite H, app_nil_r. repeat split.
Qed.

Ltac spawns_nothing_prim :=
  idtac; match goal with
  | |- respects _ (modify _) =>
      intros [? ? ? ? ? ? ? ? ? ? ? ? ? ? ? ? ? ? ? ? ? ?] ? ? [= _ <-];
      unfold spawns_nothing; simp_state;
      repeat match goal with |- context [match ?x with _ => _ end] => destruct x end;
      repeat split
  | |- respects _ (emit ?e) =>
      intros ? ? ? [= _ <-]; apply (spawns_nothing_event e); reflexivity
  | |- respects _ (stdin_write ?h ?d) =>
      intros ? ? ? [= _ <-]; apply (spawns_nothing_event (StdinWrite h d)); reflexivity
  | |- respects _ (kill ?h ?sig) =>
      intros ? ? ? [= _ <-]; apply (spawns_nothing_event (Kill h sig)); reflexivity
  | |- respects _ (broadcastLog _ _) => apply spawns_nothing_broadcastLog
  end.

Lemma spawns_nothing_parsePlayitLines (lines : list string) :
  forall found, respects spawns_nothing (parsePlayitLines lines found).
Proof.
  induction lines as [|line lines IH]; intros found; simpl.
  - apply respects_ret, spawns_nothing_refl.
  - apply (respects_bind _ spawns_nothing_trans); [|intros b; apply IH].
    unfold parsePlayitLine.
    respects_with spawns_nothing_refl spawns_nothing_trans ltac:(spawns_nothing_prim).
Qed.

Lemma spawns_nothing_handle (req : Request) :
  is_start req = false -> respects spawns_nothing (handle req).
Proof.
  destruct req; intros H; try discriminate H; cbn [handle];
    unfold route, postStop, postCommand, stopMinecraftServer, executeCommand,
      onMinecraftStdout, onMinecraftStderr, onMinecraftClose,
      onPlayitStdout, onPlayitStderr, onPlayitClose, parsePlayitOutput,
      resetPlayitState, stopPlayitTunnel, clear_addresses,
      markWorldAsGenerated, ensure_world, assign_world, saveConfig, fs_writeConfig,
      displayConnectionInfo;
    respects_with spawns_nothing_refl spawns_nothing_trans
      ltac:(first [apply spawns_nothing_parsePlayitLines | spawns_nothing_prim]).
Qed.

(** X18. Only a start spawns: a stop, a command, an output or an exit of a
    child process, whatever the state and whatever the call returns, leaves
    the spawned processes as they are.  In particular an exit of the server,
    with whatever code, restarts neither the server nor the tunnel. *)
Theorem only_a_start_spawns (reqs : list Request) (s : State) :
  forallb (fun req => negb (is_start req)) reqs = true ->
  let s' := snd (serve reqs s) in
  filter is_spawn (events s') = filter is_spawn (events s)
  /\ alive s' = alive s
  /\ nextHandle s' = nextHandle s.
Proof.
  intros H. cbv zeta. destruct (serve reqs s) as [r s'] eqn:E. cbn [snd].
  revert s r s' E. unfold serve.
  induction reqs as [|req reqs IH]; intros s r s' E; simpl in E.
  - injection E as _ <-. apply spawns_nothing_refl.
  - simpl in H. apply andb_true_iff in H as [Hreq Hrest].
    apply negb_true_iff in Hreq.
    unfold bind at 1 in E. rewrite bind_gets in E.
    destruct (when (enabled req s) (handle req) s) as [r1 s1] eqn:E1.
    assert (K : spawns_nothing s s1).
    { destruct (enabled req s); cbn [when] in E1.
      - exact (spawns_nothing_handle req Hreq s r1 s1 E1).
      - injection E1 as _ <-. apply spawns_nothing_refl. }
    destruct r1 as [[]|e|];
      [ exact (spawns_nothing_trans _ _ _ K (IH Hrest s1 r s' E))
      | injection E as _ <-; exact K
      | injection E as _ <-; exact K ].
Qed.

Lemma only_a_start_spawns_witness :
  let reqs := [MinecraftClose (Some 1%Z); PostStop; PlayitClose None] in
  let s' := snd (serve reqs manager_online) in
  filter is_spawn (events s') = filter is_spawn (events manager_online)
  /\ alive s' = alive manager_online
  /\ nextHandle s' = nextHandle manager_online.
Proof.
  apply (only_a_start_spawns [MinecraftClose (Some 1%Z); PostStop; PlayitClose None]
           manager_online).
  reflexivity.
Defined.

(** ** A start that fails *)

Lemma postStart_refused_starting (fuel : nat) (s : State) :
  serverStatus s = starting ->
  postStart fuel s
  = (Ok (Response.mk false "Server is already starting or running" None), s).
Proof. intros H. unfold postStart. rewrite bind_gets, H. reflexivity. Qed.

Lemma postStop_start_failed (s : State) :
  start_failed s ->
  postStop s = (Ok (Response.mk true "Server is stopping..." (Some "stopping")), s).
Proof.
  intros [Hs Hp]. unfold postStop. rewrite bind_gets, Hs.
  cbv beta iota delta [Status_eqb].
  unfold stopMinecraftServer. rewrite bind_assoc, bind_gets, Hp. reflexivity.
Qed.

Lemma handle_start_failed (req : Request) (s : State) :
  enabled req s = true ->
  start_failed s ->
  forall r s', handle req s = (r, s') -> start_failed s'.
Proof.
  intros He [Hs Hp] r s' E.
  assert (K : server_kept s s' -> start_failed s').
  { intros (A & B & _). split; congruence. }
  destruct req; cbn [handle enabled] in *.
  - (* POST /start *)
    unfold route, try_catch, bind in E.
    rewrite (postStart_refused_starting fuel s Hs) in E.
    injection E as _ <-. split; assumption.
  - (* POST /stop *)
    unfold route, try_catch, bind in E.
    rewrite (postStop_start_failed s (conj Hs Hp)) in E.
    injection E as _ <-. split; assumption.
  - apply K. exact (server_kept_tunnel_listeners (PostCommand command) I s r s' E).
  - rewrite Hp in He. discriminate He.
  - rewrite Hp in He. discriminate He.
  - rewrite Hp in He. discriminate He.
  - apply K. exact (server_kept_tunnel_listeners (PlayitStdout data) I s r s' E).
  - apply K. exact (server_kept_tunnel_listeners (PlayitStderr data) I s r s' E).
  - apply K. exact (server_kept_tunnel_listeners (PlayitClose code) I s r s' E).
Qed.

Lemma serve_start_failed (reqs : list Request) :
  forall s, start_failed s -> start_failed (snd (serve reqs s)).
Proof.
  unfold serve. induction reqs as [|req reqs IH]; intros s H; [exact H|].
  cbn [forEach]. unfold bind at 1. rewrite bind_gets.
  destruct (when (enabled req s) (handle req) s) as [r1 s1] eqn:E1.
  assert (H1 : start_failed s1).
  { destruct (enabled req s) eqn:He; cbn [when] in E1.
    - exact (handle_start_failed req s He H r1 s1 E1).
    - injection E1 as _ <-. exact H. }
  destruct r1 as [[]|e|]; [apply IH; exact H1 | exact H1 | exact H1].
Qed.

(** X25. A start that finds the [performance] block of the configuration
    missing, or finds the tunnel binary installed and the [playit] block
    missing, fails after it has announced itself: it throws a TypeError with
    the status already [starting], no server process spawned and none held;
    of the child processes only the tunnel may have been spawned.  Nothing
    brings the manager out of this: whatever is requested afterwards, the
    status stays [starting] and no server process is held; a start is
    refused as already starting, and a stop is answered as a success and
    does nothing, so that a tunnel the failed start spawned is not
    stopped. *)
Theorem failed_start_is_never_recovered (fuel : nat) (s : State) :
  minecraftProcess s = None ->
  (depth_at (worldPath (config s)) (disk s) < fuel)%nat ->
  Config.performance (config s) = None
  \/ (playitInstalled s = true /\ Config.playit (config s) = None) ->
  let r := startMinecraftServer fuel s in
  let starts := playitInstalled s
                && match Config.playit (config s) with
                   | Some playit => Config.autoStart playit
                   | None => false
                   end
                && is_null (playitProcess s) in
  (exists message, fst r = Throw (TypeError message))
  /\ serverStatus (snd r) = starting
  /\ minecraftProcess (snd r) = None
  /\ process_events (events (snd r))
     = (process_events (events s)
        ++ (if starts then [Spawn (nextHandle s) (playitPath s) []] else []))%list
  /\ forall (reqs : list Request) (fuel' : nat),
       let s' := snd (serve reqs (snd r)) in
       serverStatus s' = starting
       /\ minecraftProcess s' = None
       /\ postStart fuel' s'
          = (Ok (Response.mk false "Server is already starting or running" None), s')
       /\ postStop s'
          = (Ok (Response.mk true "Server is stopping..." (Some "stopping")), s').
Proof.
  intros Hnone Hfuel Hmiss.
  destruct (startMinecraftServer_throws fuel s Hnone Hfuel Hmiss)
    as (Ht & St & _ & _ & Mp & _ & Pe & _).
  cbv zeta. split; [exact Ht|]. split; [exact St|]. split; [exact Mp|].
  split; [exact Pe|].
  intros reqs fuel'.
  destruct (serve_start_failed reqs _ (conj St Mp)) as [St' Mp'].
  split; [exact St'|]. split; [exact Mp'|].
  split; [exact (postStart_refused_starting fuel' _ St')|].
  exact (postStop_start_failed _ (conj St' Mp')).
Qed.

Lemma failed_start_is_never_recovered_witness :
  let s := manager_without_performance in
  let r := startMinecraftServer 1 s in
  (Config.performance (config s) = None
   /\ playitProcess (snd r) = Some 0%nat
   /\ process_events (events (snd r)) = [Spawn 0%nat "playit" []])
  /\ (exists message, fst r = Throw (TypeError message))
  /\ serverStatus (snd r) = starting
  /\ minecraftProcess (snd r) = None
  /\ process_events (events (snd r))
     = (process_events (events s) ++ [Spawn (nextHandle s) (playitPath s) []])%list
  /\ forall (reqs : list Request) (fuel' : nat),
       let s' := snd (serve reqs (snd r)) in
       serverStatus s' = starting
       /\ minecraftProcess s' = None
       /\ postStart fuel' s'
          = (Ok (Response.mk false "Server is already starting or running" None), s')
       /\ postStop s'
          = (Ok (Response.mk true "Server is stopping..." (Some "stopping")), s').
Proof.
  intros s r. split; [vm_compute; repeat split|].
  apply (failed_start_is_never_recovered 1 manager_without_performance).
  - reflexivity.
  - vm_compute. lia.
  - left. reflexivity.
Defined.

Example tunnel_survives_stop_after_failed_start :
  let s := snd (serve [PostStart 1; PostStop] manager_without_performance) in
  serverStatus s = starting
  /\ playitProcess s = Some 0%nat
  /\ process_events (events s) = [Spawn 0%nat "playit" []].
Proof. vm_compute. repeat split. Qed.

(** ** Loading the configuration *)

Lemma createDefaultConfig_run (s : State) :
  createDefaultConfig s
  = (Ok defaultConfig,
     if configFileWritable s then
       logged [logEntryOf (clock s, ("📄 Default config.json created", Success))]
         (set_configFile (Some defaultConfig)
            (set_events (events s ++ [FsWriteConfig defaultConfig]) s))
     else
       logged [logEntryOf (clock s,
                 ("❌ Failed to create config file: " ++ Fs.message Fs.EACCES, Error))]
         (set_events (events s ++ [FsWriteConfig defaultConfig]) s)).
Proof.
  unfold createDefaultConfig, fs_writeConfig.
  destruct s as [a b c d e f g h i j k l m n o p q r t u w x].
  crun. destruct t; crun; reflexivity.
Qed.

Lemma loadConfig_missing (read : Exn + Config.t) (s : State) :
  configFile s = None ->
  loadConfig read s
  = createDefaultConfig
      (logged [logEntryOf (clock s,
                 ("⚠️ Config file not found, creating default config.json", Warn))] s).
Proof.
  intros H. unfold loadConfig.
  destruct s as [a b c d e f g h i j k l m n o p q r t u w x].
  simp_state_in H. subst r.
  unfold try_catch. rewrite bind_gets. simp_state. cbn [is_null negb].
  rewrite bind_broadcastLog, !createDefaultConfig_run. unfold logged. simp_state.
  destruct t; reflexivity.
Qed.

Lemma loadConfig_failed (e : Exn) (doc0 : Config.t) (s : State) :
  configFile s = Some doc0 ->
  loadConfig (inl e) s
  = createDefaultConfig
      (logged [ logEntryOf (clock s, ("❌ Error loading config: " ++ Exn_message e, Error));
                logEntryOf (clock s, ("📝 Using default configuration", Info)) ] s).
Proof.
  intros H. unfold loadConfig.
  destruct s as [a b c d e0 f g h i j k l m n o p q r t u w x].
  simp_state_in H. subst r.
  unfold try_catch. rewrite bind_gets. simp_state. cbn [is_null negb].
  unfold bind at 1, throw at 1. cbv beta iota.
  rewrite !bind_broadcastLog, logged_logged. reflexivity.
Qed.

Lemma loadConfig_current (doc doc0 : Config.t) (w : Config.WorldBlock) (s : State) :
  configFile s = Some doc0 ->
  Config.world doc = Some w ->
  loadConfig (inr doc) s
  = (Ok doc,
     logged [logEntryOf (clock s, ("✅ Configuration loaded successfully", Success))] s).
Proof.
  intros H Hw. unfold loadConfig.
  destruct s as [a b c d e0 f g h i j k l m n o p q r t u w0 x].
  simp_state_in H. subst r.
  unfold try_catch. rewrite bind_gets. simp_state. cbn [is_null negb].
  unfold bind at 1, ret at 1. rewrite Hw.
  unfold bind at 1, ret at 1. rewrite bind_broadcastLog. reflexivity.
Qed.

Lemma loadConfig_legacy (doc doc0 : Config.t) (s : State) :
  configFile s = Some doc0 ->
  Config.world doc = None ->
  loadConfig (inr doc) s
  = if configFileWritable s then
      (Ok (migrated doc),
       logged [ logEntryOf (clock s,
                  ("🔄 Config migrated to support seed change detection", Info));
                logEntryOf (clock s, ("✅ Configuration loaded successfully", Success)) ]
         (set_configFile (Some (migrated doc))
            (set_events (events s ++ [FsWriteConfig (migrated doc)]) s)))
    else
      createDefaultConfig
        (logged [ logEntryOf (clock s,
                    ("❌ Error loading config: " ++ Fs.message Fs.EACCES, Error));
                  logEntryOf (clock s, ("📝 Using default configuration", Info)) ]
           (set_events (events s ++ [FsWriteConfig (migrated doc)]) s)).
Proof.
  intros H Hw. unfold loadConfig, fs_writeConfig.
  destruct s as [a b c d e0 f g h i j k l m n o p q r t u w0 x].
  simp_state_in H. subst r. crun. cbn [is_null]. rewrite Hw. crun.
  destruct t; crun; rewrite ?createDefaultConfig_run; crun; slices; reflexivity.
Qed.

Lemma load_step_refl (s : State) : load_step s s.
Proof. split; [destruct s; reflexivity | reflexivity]. Qed.

Lemma load_step_trans (s1 s2 s3 : State) :
  load_step s1 s2 -> load_step s2 s3 -> load_step s1 s3.
Proof.
  intros (E12 & P12) (E23 & P23). split.
  - rewrite E23 at 1. rewrite E12 at 1. destruct s1; reflexivity.
  - now rewrite P23.
Qed.

Lemma load_step_broadcastLog (message : string) (type : LogType) :
  respects load_step (broadcastLog message type).
Proof.
  intros s r s' E. rewrite broadcastLog_logged in E. injection E as _ <-.
  split; [destruct s; reflexivity | apply process_events_logged].
Qed.

Ltac load_step_prim :=
  idtac; match goal with
  | |- respects _ (modify _) =>
      intros [? ? ? ? ? ? ? ? ? ? ? ? ? ? ? ? ? ? ? ? ? ?] ? ? [= _ <-];
      unfold load_step; simp_state; repeat split
  | |- respects _ (emit ?e) =>
      intros [? ? ? ? ? ? ? ? ? ? ? ? ? ? ? ? ? ? ? ? ? ?] ? ? [= _ <-];
      unfold load_step; simp_state; split; [reflexivity|];
      rewrite process_events_snoc; cbn [is_process_event]; now rewrite app_nil_r
  | |- respects _ (broadcastLog _ _) => apply load_step_broadcastLog
  end.

Lemma load_step_loadConfig (read : Exn + Config.t) : respects load_step (loadConfig read).
Proof.
  unfold loadConfig, createDefaultConfig, fs_writeConfig.
  respects_with load_step_refl load_step_trans ltac:(load_step_prim).
Qed.

Lemma log_sync_loadConfig (read : Exn + Config.t) : respects log_sync (loadConfig read).
Proof. unfold loadConfig, createDefaultConfig. log_sync_tac. Qed.

Lemma migrated_world (doc : Config.t) :
  Config.world (migrated doc)
  = Some (Config.mkWorld (Some (configuredSeed doc)) (Some (configuredSeed doc)) (Some true))
  /\ recordedSeed (migrated doc) = configuredSeed (migrated doc)
  /\ same_settings doc (migrated doc).
Proof.
  unfold migrated, recordedSeed, configuredSeed. cbn.
  split; [reflexivity|]. split; [apply or_default_idem | repeat split].
Qed.

Lemma loadConfig_result (read : Exn + Config.t) (s : State) :
  exists c,
    fst (loadConfig read s) = Ok c
    /\ Config.world c <> None
    /\ (c = defaultConfig
        \/ exists doc, read = inr doc /\ configFile s <> None /\ same_settings doc c).
Proof.
  destruct (configFile s) as [doc0|] eqn:Hf.
  - destruct read as [e|doc].
    + rewrite (loadConfig_failed e doc0 s Hf), createDefaultConfig_run.
      exists defaultConfig. split; [reflexivity|]. split; [discriminate | now left].
    + destruct (Config.world doc) as [w|] eqn:Hw.
      * rewrite (loadConfig_current doc doc0 w s Hf Hw).
        exists doc. split; [reflexivity|]. split; [now rewrite Hw|].
        right. exists doc. split; [reflexivity|]. split; [discriminate | apply same_settings_refl].
      * rewrite (loadConfig_legacy doc doc0 s Hf Hw).
        destruct (configFileWritable s).
        -- exists (migrated doc). split; [reflexivity|].
           destruct (migrated_world doc) as (Hm & _ & Hs).
           split; [now rewrite Hm|]. right. exists doc.
           split; [reflexivity|]. split; [discriminate | exact Hs].
        -- rewrite createDefaultConfig_run.
           exists defaultConfig. split; [reflexivity|]. split; [discriminate | now left].
  - rewrite (loadConfig_missing read s Hf), createDefaultConfig_run.
    exists defaultConfig. split; [reflexivity|]. split; [discriminate | now left].
Qed.

(** X19. [loadConfig] always returns a document, whatever the file is:
    missing, unreadable, without world-tracking block or current.  The
    document has a world-tracking block, and is either the default document
    or the document of the file with its settings as they are.  Loading
    changes nothing of the manager but the log, which keeps in step with what
    is sent, and nothing of the environment but the configuration file. *)
Theorem loaded_configuration_has_a_world_block (read : Exn + Config.t) (s : State) :
  let r := loadConfig read s in
  (exists c,
      fst r = Ok c
      /\ Config.world c <> None
      /\ (c = defaultConfig
          \/ exists doc, read = inr doc /\ configFile s <> None /\ same_settings doc c))
  /\ load_step s (snd r)
  /\ log_sync s (snd r).
Proof.
  cbv zeta. split; [apply loadConfig_result|].
  destruct (loadConfig read s) as [r s'] eqn:E. split.
  - exact (load_step_loadConfig read s r s' E).
  - exact (log_sync_loadConfig read s r s' E).
Qed.

Example unreadable_configuration_gives_the_default :
  let s := fresh seed_123 clock0 (Fs.Dir true []) in
  fst (loadConfig (inl (FsError Fs.EACCES)) s) = Ok defaultConfig
  /\ configFile (snd (loadConfig (inl (FsError Fs.EACCES)) s)) = Some defaultConfig.
Proof. vm_compute. split; reflexivity. Qed.

(** X20. A document without world-tracking block is given one that records
    the configured seed as the seed of a generated world, and the file is
    rewritten with it; the settings are kept.  The first seed check after
    that, with the world present, answers [seed_unchanged]: upgrading does
    not back up or replace a world.  When the file cannot be rewritten, the
    document of the file is dropped: the default document is returned and
    the file stays as it was. *)
Theorem legacy_configuration_is_migrated (doc doc0 : Config.t) (s : State) :
  configFile s = Some doc0 ->
  Config.world doc = None ->
  let r := loadConfig (inr doc) s in
  (configFileWritable s = true ->
   fst r = Ok (migrated doc)
   /\ configFile (snd r) = Some (migrated doc)
   /\ Config.world (migrated doc)
      = Some (Config.mkWorld (Some (configuredSeed doc)) (Some (configuredSeed doc))
                (Some true))
   /\ same_settings doc (migrated doc)
   /\ forall (fuel : nat) (s2 : State),
        config s2 = migrated doc ->
        Fs.existsSync (worldPath (config s2)) (disk s2) = true ->
        fst (checkSeedChange fuel s2) = Ok (SeedCheck.mk false seed_unchanged None))
  /\ (configFileWritable s = false ->
      fst r = Ok defaultConfig /\ configFile (snd r) = Some doc0).
Proof.
  intros Hf Hw. cbv zeta. rewrite (loadConfig_legacy doc doc0 s Hf Hw).
  destruct (migrated_world doc) as (Hm & Hr & Hs).
  split; intros Hwr; rewrite Hwr.
  - split; [reflexivity|]. split; [destruct s; reflexivity|].
    split; [exact Hm|]. split; [exact Hs|].
    intros fuel s2 Hc Hex.
    rewrite (checkSeedChange_unchanged fuel s2 Hex); [reflexivity|].
    now rewrite Hc, Hr.
  - rewrite createDefaultConfig_run. split; [reflexivity|].
    destruct s as [a b c d e0 f g h i j k l m n o p q r t u w0 x].
    simp_state_in Hwr. simp_state_in Hf. subst. reflexivity.
Qed.

Lemma legacy_configuration_is_migrated_witness :
  let legacy := Config.set_world None seed_123 in
  let s := fresh legacy clock0 (Fs.Dir true [("world", plain_world)]) in
  let r := loadConfig (inr legacy) s in
  (configFileWritable s = true ->
   fst r = Ok (migrated legacy)
   /\ configFile (snd r) = Some (migrated legacy)
   /\ Config.world (migrated legacy)
      = Some (Config.mkWorld (Some (configuredSeed legacy)) (Some (configuredSeed legacy))
                (Some true))
   /\ same_settings legacy (migrated legacy)
   /\ forall (fuel : nat) (s2 : State),
        config s2 = migrated legacy ->
        Fs.existsSync (worldPath (config s2)) (disk s2) = true ->
        fst (checkSeedChange fuel s2) = Ok (SeedCheck.mk false seed_unchanged None))
  /\ (configFileWritable s = false ->
      fst r = Ok defaultConfig /\ configFile (snd r) = Some legacy).
Proof.
  apply (legacy_configuration_is_migrated (Config.set_world None seed_123)
           (Config.set_world None seed_123)
           (fresh (Config.set_world None seed_123) clock0
              (Fs.Dir true [("world", plain_world)])));
    reflexivity.
Defined.

(** ** Looking for the tunnel binary *)

Lemma findPlayit_run (present runs : string -> bool) (paths : list string) :
  forall s,
    findPlayit present runs paths s
    = (Ok tt,
       let s1 := set_events
                   (events s ++ map ExecSync (probes present runs paths)) s in
       match find (available present runs) paths with
       | Some path =>
           logged [logEntryOf (clock s,
                     ("✅ Playit.gg is installed - Public tunneling available!", Success))]
             (set_playitPath path (set_playitInstalled true s1))
       | None => s1
       end).
Proof.
  induction paths as [|path paths IH]; intros s.
  - cbn [findPlayit probes find map]. rewrite app_nil_r. destruct s; reflexivity.
  - cbn [findPlayit probes find]. unfold available at 1.
    destruct (present path) eqn:Hp; cbn [orb].
    + cbv beta iota delta [or_else try_catch bind modify ret].
      rewrite broadcastLog_logged. cbv beta iota.
      cbn [map]. rewrite app_nil_r. destruct s; reflexivity.
    + destruct (runs (path ++ " --version")) eqn:Hr.
      * cbv beta iota delta [or_else commandExists execSync try_catch bind modify ret emit].
        rewrite Hr. cbv beta iota delta [ret].
        rewrite broadcastLog_logged. cbv beta iota.
        destruct s; reflexivity.
      * cbv beta iota delta [or_else commandExists execSync try_catch bind modify ret emit
                             throw].
        rewrite Hr. cbv beta iota delta [ret throw].
        rewrite IH. cbv zeta. cbn [map].
        destruct s as [a b c d e f g h i j k l m n o p q r t u w x]. simp_state.
        rewrite <- app_assoc. reflexivity.
Qed.

(** X22. The tunnel binary is looked for in four places, in this order:
    [./playit.exe], [./playit], [playit.exe], [playit].  It is available at
    a place when a file is there or, failing that, when the place run as a
    command with [--version] ends with exit code 0.  The first place where
    it is available is kept as the path and the tunnel is marked installed;
    when it is available nowhere the path and the mark stay as they were
    (the constructor sets the mark to false before the call) and the absence
    is logged.  The commands run are those of the places tried where no file
    is, in order; no other process is run, and none is left running. *)
Theorem first_available_binary_is_kept (present runs : string -> bool) (s : State) :
  let r := checkPlayitInstallation present runs s in
  fst r = Ok tt
  /\ playitInstalled (snd r)
     = (playitInstalled s || existsb (available present runs) playitPaths)
  /\ playitPath (snd r)
     = match find (available present runs) playitPaths with
       | Some path => path
       | None => playitPath s
       end
  /\ process_events (events (snd r))
     = (process_events (events s)
        ++ map ExecSync (probes present runs playitPaths))%list
  /\ alive (snd r) = alive s
  /\ (playitInstalled (snd r) = false ->
      exists e1 e2,
        events (snd r)
        = (events s ++ map ExecSync (probes present runs playitPaths)
           ++ [Emit e1; Emit e2])%list
        /\ LogEntry.type e1 = Warn
        /\ LogEntry.message e2 = "📥 Download Playit.gg from: https://playit.gg/download").
Proof.
  cbv zeta. unfold checkPlayitInstallation.
  rewrite (bind_ok _ _ _ _ _ (findPlayit_run present runs playitPaths s)).
  assert (Hex : existsb (available present runs) playitPaths
                = match find (available present runs) playitPaths with
                  | Some _ => true
                  | None => false
                  end).
  { generalize playitPaths. induction l as [|p l IH]; simpl; [reflexivity|].
    destruct (available present runs p); [reflexivity | exact IH]. }
  rewrite Hex. clear Hex.
  assert (Hpe : forall cmds : list string,
             process_events (map ExecSync cmds) = map ExecSync cmds).
  { induction cmds as [|c cmds IH]; [reflexivity|].
    cbn [map]. unfold process_events in *. cbn [filter is_process_event].
    now rewrite IH. }
  set (cmds := probes present runs playitPaths). clearbody cmds.
  destruct s as [a b c d e f g h i j k l m n o p q r t u w x].
  destruct (find (available present runs) playitPaths) as [path|];
    unfold set_playitPath; crun.
  - rewrite orb_true_r. split; [reflexivity|]. split; [reflexivity|].
    split; [reflexivity|]. split; [|split; [reflexivity | discriminate]].
    rewrite !process_events_app, Hpe. cbn [map]. process_events_of_list.
    reflexivity.
  - rewrite orb_false_r. destruct j; crun.
    + split; [reflexivity|]. split; [reflexivity|]. split; [reflexivity|].
      split; [|split; [reflexivity | discriminate]].
      now rewrite process_events_app, Hpe.
    + split; [reflexivity|]. split; [reflexivity|]. split; [reflexivity|].
      split; [|split; [reflexivity|]].
      * rewrite !process_events_app, Hpe. process_events_of_list. reflexivity.
      * intros _. eexists. eexists. rewrite <- !app_assoc.
        split; [reflexivity|]. split; reflexivity.
Qed.

Example local_binary_is_preferred :
  let present := fun path => (path =? "./playit")%string in
  let runs := fun command => (command =? "playit --version")%string in
  let r := checkPlayitInstallation present runs (fresh defaultConfig clock0 (Fs.Dir true [])) in
  playitInstalled (snd r) = true
  /\ playitPath (snd r) = "./playit"
  /\ process_events (events (snd r)) = [ExecSync "./playit.exe --version"].
Proof. vm_compute. repeat split; reflexivity. Qed.

Lemma first_available_binary_is_kept_witness :
  let present := fun path : string => false in
  let runs := fun command => (command =? "playit.exe --version")%string in
  let s := fresh defaultConfig clock0 (Fs.Dir true []) in
  let r := checkPlayitInstallation present runs s in
  (playitPath (snd r) = "playit.exe"
   /\ process_events (events (snd r))
      = [ExecSync "./playit.exe --version"; ExecSync "./playit --version";
         ExecSync "playit.exe --version"])
  /\ fst r = Ok tt
  /\ playitInstalled (snd r)
     = (playitInstalled s || existsb (available present runs) playitPaths)
  /\ playitPath (snd r)
     = match find (available present runs) playitPaths with
       | Some path => path
       | None => playitPath s
       end
  /\ process_events (events (snd r))
     = (process_events (events s)
        ++ map ExecSync (probes present runs playitPaths))%list
  /\ alive (snd r) = alive s
  /\ (playitInstalled (snd r) = false ->
      exists e1 e2,
        events (snd r)
        = (events s ++ map ExecSync (probes present runs playitPaths)
           ++ [Emit e1; Emit e2])%list
        /\ LogEntry.type e1 = Warn
        /\ LogEntry.message e2 = "📥 Download Playit.gg from: https://playit.gg/download").
Proof.
  intros present runs s r. split; [vm_compute; split; reflexivity|].
  exact (first_available_binary_is_kept (fun path : string => false)
           (fun command => (command =? "playit.exe --version")%string)
           (fresh defaultConfig clock0 (Fs.Dir true []))).
Defined.

(** ** The status route *)

(** X23. What the status route answers agrees with itself in every state
    reached by starts, stops, commands and events of the child processes, as
    long as the configuration has its [performance] and [playit] blocks:
    [running] is true exactly when the status is not [offline], and an
    offline server is reported not ready with an uptime of zero.  With a
    start time, the uptime is the time since the start in whole seconds,
    rounded down. *)
Theorem status_report_is_consistent (reqs : list Request) (s : State) :
  status_matches_process s ->
  Config.performance (config s) <> None ->
  Config.playit (config s) <> None ->
  let report := getStatus (snd (serve reqs s)) in
  StatusReport.running report = negb (Status_eqb (StatusReport.status report) offline)
  /\ (StatusReport.status report = offline ->
      StatusReport.ready report = false /\ StatusReport.uptime report = 0%Z)
  /\ (forall t, startTime (snd (serve reqs s)) = Some t -> t <> 0%Z ->
        (1000 * StatusReport.uptime report <= millis (clock (snd (serve reqs s))) - t
         < 1000 * StatusReport.uptime report + 1000)%Z).
Proof.
  intros H Hperf Hpl. cbv zeta.
  destruct (serve reqs s) as [r s'] eqn:E. cbn [snd].
  destruct (serve_matching reqs s r s' E (conj H (conj Hperf Hpl)))
    as (((I1 & I2) & I3) & _).
  unfold getStatus.
  cbn [StatusReport.running StatusReport.status StatusReport.ready StatusReport.uptime].
  split; [|split].
  - destruct (minecraftProcess s') as [h|] eqn:Hp; cbn [is_null negb].
    + destruct (serverStatus s'); [|reflexivity ..].
      specialize (I2 eq_refl). discriminate.
    + now rewrite (I1 eq_refl).
  - intros Hoff. destruct (I3 (I2 Hoff)) as [Hr Ht]. now rewrite Hr, Ht.
  - intros t Ht Hne. rewrite Ht. unfold uptimeOf.
    destruct (Z.eqb_spec t 0); [contradiction|].
    pose proof (Z.div_mod (millis (clock s') - t) 1000 ltac:(lia)) as Hdm.
    pose proof (Z.mod_pos_bound (millis (clock s') - t) 1000 ltac:(lia)) as Hb.
    lia.
Qed.

Lemma status_report_is_consistent_witness :
  let reqs := [PostStart 1; PostStop] in
  let report := getStatus (snd (serve reqs manager0)) in
  StatusReport.running report = negb (Status_eqb (StatusReport.status report) offline)
  /\ (StatusReport.status report = offline ->
      StatusReport.ready report = false /\ StatusReport.uptime report = 0%Z)
  /\ (forall t, startTime (snd (serve reqs manager0)) = Some t -> t <> 0%Z ->
        (1000 * StatusReport.uptime report
         <= millis (clock (snd (serve reqs manager0))) - t
         < 1000 * StatusReport.uptime report + 1000)%Z).
Proof.
  apply (status_report_is_consistent [PostStart 1; PostStop] manager0).
  - vm_compute. repeat split; discriminate.
  - discriminate.
  - discriminate.
Defined.

(** ** The address on the local network *)

(** X24. [getLocalIP] gives the address of an external IPv4 interface, the
    first one in the order of the listing, and [localhost] exactly when
    there is none it could give: never the address of a loopback or of an
    IPv6 interface. *)
Theorem local_address_is_external_IPv4 (interfaces : list (string * list NetworkInterface)) :
  let every := flat_map snd interfaces in
  match find is_external_IPv4 every with
  | Some i =>
      getLocalIP interfaces = address i
      /\ family i = "IPv4" /\ internal i = false /\ In i every
  | None =>
      getLocalIP interfaces = "localhost"
      /\ forall i, In i every -> family i <> "IPv4" \/ internal i = true
  end.
Proof.
  cbv zeta. induction interfaces as [|[name group] rest IH]; simpl.
  - split; [reflexivity | intros i []].
  - assert (Hfind : find is_external_IPv4 (group ++ flat_map snd rest)
                    = match find is_external_IPv4 group with
                      | Some i => Some i
                      | None => find is_external_IPv4 (flat_map snd rest)
                      end).
    { clear IH. induction group as [|i group IHg]; simpl; [reflexivity|].
      destruct (is_external_IPv4 i); [reflexivity | exact IHg]. }
    rewrite Hfind.
    destruct (find is_external_IPv4 group) as [i|] eqn:Hg.
    + apply find_some in Hg as [Hin Hi].
      unfold is_external_IPv4 in Hi. apply andb_true_iff in Hi as [Hf Hn].
      apply String.eqb_eq in Hf. apply negb_true_iff in Hn.
      repeat split; try assumption. apply in_or_app. now left.
    + destruct (find is_external_IPv4 (flat_map snd rest)) as [i|].
      * destruct IH as (E & Hf & Hn & Hin). repeat split; try assumption.
        apply in_or_app. now right.
      * destruct IH as (E & Hall). split; [exact E|].
        intros i Hin. apply in_app_or in Hin as [Hin|Hin]; [|now apply Hall].
        pose proof (find_none _ _ Hg i Hin) as Hi. unfold is_external_IPv4 in Hi.
        apply andb_false_iff in Hi as [Hi|Hi].
        -- left. now apply String.eqb_neq.
        -- right. now apply negb_false_iff.
Qed.

Example local_address_skips_loopback :
  getLocalIP
    [ ("lo", [mkNetworkInterface "IPv4" true "127.0.0.1";
              mkNetworkInterface "IPv6" true "::1"]);
      ("eth0", [mkNetworkInterface "IPv6" false "fe80::1";
                mkNetworkInterface "IPv4" false "192.168.1.20"]) ]
  = "192.168.1.20".
Proof. reflexivity. Qed.
